(** * tooled-prompt: the tool-calling conversation loop

    A shallow embedding of [src/executor.ts], [src/store.ts],
    [src/types.ts] and the three provider adapters of [src/providers/],
    with the properties the specification states about them.  The later
    sections embed further parts of the library ([src/streaming.ts],
    [src/factory.ts], [src/events.ts], [src/image.ts], [src/parser.ts] and
    [src/tool.ts]) with properties read off the code.

    Conventions of the embedding.
    - JavaScript values that travel as JSON (tool arguments, tool results,
      message history, request bodies) are values of [JsValue].  Object
      properties are kept in insertion order; lookup is by own key.
      Integer-valued numbers are [VNum]; a numeric literal with a fraction or
      an exponent is kept by its text ([VFloat]).
    - Strings are Rocq strings (sequences of bytes); [length] counts bytes.
    - Wire data whose TypeScript type is declared in the source (the
      [as {...}] casts of the non-streaming responses, [OllamaStreamChunk])
      are records with the declared optional fields as [option]; streamed
      chunks, typed [any] in the source, are records of the fields read.
    - Exceptions are the [Err] case of [Exc], carrying the message of the
      thrown [Error].  The wording of the engine's own [SyntaxError] and
      [TypeError] messages is a parameter ([Engine]).
    - Observable effects (events of the emitter, [console.warn]) are
      collected in a log; wall-clock durations are left out.
    - The message history is an array that is shared and updated in place;
      arrays of messages live in a heap ([Heap]).
    - A function is given by its name, its source text and the metadata it
      carries once it is a tool; where one function may stand at several
      places, the functions live in a store and a value names its place. *)

From Stdlib Require Import ZArith Ascii.
From stdpp Require Import base strings list gmap pretty.

Local Open Scope string_scope.
Local Open Scope list_scope.
Local Open Scope Z_scope.

(* ===================================================================== *)
(** ** Exceptions                                                         *)
(* ===================================================================== *)

Inductive Exc (A : Type) : Type :=
| Ok (a : A)
| Err (message : string).
Arguments Ok {A} a.
Arguments Err {A} message.

#[global] Instance Exc_ret : MRet Exc := fun _ a => Ok a.
#[global] Instance Exc_bind : MBind Exc := fun _ _ f m =>
  match m with
  | Ok a => f a
  | Err e => Err e
  end.

(* ===================================================================== *)
(** ** JavaScript values                                                  *)
(* ===================================================================== *)

#[local] Unset Elimination Schemes.
Inductive JsValue : Type :=
| VUndef
| VNull
| VBool (b : bool)
| VNum (n : Z)
| VFloat (literal : string)
| VStr (s : string)
| VArr (items : list JsValue)
| VObj (props : list (string * JsValue))
| VIter (async : bool) (items : list JsValue).
(** [VIter async items] is an object carrying [Symbol.asyncIterator]
    ([async = true]) or [Symbol.iterator] that yields [items] and ends: a
    generator, a [Set], a directory listing.  Functions, symbols and
    bigints are not values of the model. *)
#[local] Set Elimination Schemes.

Definition is_undefined (v : JsValue) : bool :=
  match v with VUndef => true | _ => false end.

(** [v === undefined || v === null] *)
Definition is_nullish (v : JsValue) : bool :=
  match v with VUndef | VNull => true | _ => false end.

Definition is_null (v : JsValue) : bool :=
  match v with VNull => true | _ => false end.

(** [typeof v === 'string'] *)
Definition is_string (v : JsValue) : bool :=
  match v with VStr _ => true | _ => false end.

(** [Array.isArray(v)] *)
Definition is_array (v : JsValue) : bool :=
  match v with VArr _ => true | _ => false end.

(** [typeof v === 'object'] ([null] included, as in JavaScript) *)
Definition typeof_object (v : JsValue) : bool :=
  match v with VNull | VArr _ | VObj _ | VIter _ _ => true | _ => false end.

Definition typeof (v : JsValue) : string :=
  match v with
  | VUndef => "undefined"
  | VNull | VArr _ | VObj _ | VIter _ _ => "object"
  | VBool _ => "boolean"
  | VNum _ | VFloat _ => "number"
  | VStr _ => "string"
  end.

(** Truthiness of a string ([''] is falsy). *)
Definition nonempty (s : string) : bool :=
  match s with EmptyString => false | _ => true end.

(** Truthiness of a value.  A [VFloat] is never zero (see [parse_number]). *)
Definition truthy (v : JsValue) : bool :=
  match v with
  | VUndef | VNull | VBool false => false
  | VNum n => negb (n =? 0)
  | VStr s => nonempty s
  | _ => true
  end.

(** [s || d] on strings *)
Definition str_or (s d : string) : string := if nonempty s then s else d.

(** Truthiness of an optional string field. *)
Definition truthy_str (o : option string) : bool :=
  match o with Some s => nonempty s | None => false end.

(** [o || d] for an optional string field *)
Definition opt_or (o : option string) (d : string) : string :=
  match o with Some s => str_or s d | None => d end.

(** [o === s] for an optional string field *)
Definition opt_is (o : option string) (s : string) : bool :=
  match o with Some x => String.eqb x s | None => false end.

(** *** Objects as ordered property lists *)

Fixpoint obj_get (props : list (string * JsValue)) (k : string) : JsValue :=
  match props with
  | [] => VUndef
  | (k', v) :: rest => if String.eqb k' k then v else obj_get rest k
  end.

(** [o[k] = v]: replaces the value of an existing key in place, appends a
    new key. *)
Fixpoint obj_set (props : list (string * JsValue)) (k : string) (v : JsValue)
  : list (string * JsValue) :=
  match props with
  | [] => [(k, v)]
  | (k', v') :: rest =>
      if String.eqb k' k then (k, v) :: rest else (k', v') :: obj_set rest k v
  end.

(** [Object.keys(o)] *)
Definition Object_keys {A} (props : list (string * A)) : list string :=
  map fst props.

(** The JavaScript engine's wording of its own errors. *)
Record Engine : Type := {
  syntaxErrorMessage : string -> string;   (* of JSON.parse, by input text *)
  typeErrorMessage : string -> string      (* reading property k of null *)
}.

(** [v[k]] for a string key: own properties of objects, indices and
    [length] of arrays and strings; a primitive has none; reading a property
    of [null] or [undefined] throws. *)
Definition js_get (E : Engine) (v : JsValue) (k : string) : Exc JsValue :=
  match v with
  | VUndef | VNull => Err (typeErrorMessage E k)
  | VObj props => Ok (obj_get props k)
  | VArr items =>
      if String.eqb k "length" then Ok (VNum (Z.of_nat (length items)))
      else Ok (default VUndef
                 (head (omap (fun '(i, x) =>
                          if String.eqb (pretty (i : nat)) k then Some x else None)
                        (imap (fun i x => (i, x)) items))))
  | VStr s =>
      if String.eqb k "length" then Ok (VNum (Z.of_nat (String.length s)))
      else Ok (default VUndef
                 (head (omap (fun '(i, c) =>
                          if String.eqb (pretty (i : nat)) k
                          then Some (VStr (String c EmptyString)) else None)
                        (imap (fun i c => (i, c)) (String.list_ascii_of_string s)))))
  | VBool _ | VNum _ | VFloat _ | VIter _ _ => Ok VUndef
  end.

(* ===================================================================== *)
(** ** JSON.stringify                                                     *)
(* ===================================================================== *)

Definition dquote : ascii := "034"%char.

Definition newline : string := "
".

Definition hex_digit (n : N) : ascii :=
  match n with
  | 0 => "0" | 1 => "1" | 2 => "2" | 3 => "3" | 4 => "4" | 5 => "5"
  | 6 => "6" | 7 => "7" | 8 => "8" | 9 => "9" | 10 => "a" | 11 => "b"
  | 12 => "c" | 13 => "d" | 14 => "e" | _ => "f"
  end%N%char.

Definition escape_char (c : ascii) : string :=
  let n := N_of_ascii c in
  if (n =? 34)%N then String "\"%char (String dquote EmptyString)
  else if (n =? 92)%N then "\\"
  else if (n =? 8)%N then "\b"
  else if (n =? 12)%N then "\f"
  else if (n =? 10)%N then "\n"
  else if (n =? 13)%N then "\r"
  else if (n =? 9)%N then "\t"
  else if (n <? 32)%N then
    "\u00" +:+
    String (hex_digit (n / 16)) (String (hex_digit (n mod 16)) EmptyString)
  else String c EmptyString.

Fixpoint escape (s : string) : string :=
  match s with
  | EmptyString => EmptyString
  | String c rest => escape_char c +:+ escape rest
  end.

(** [`"${s}"`]: the text between double quotes, as it is. *)
Definition in_quotes (s : string) : string :=
  String dquote s +:+ String dquote EmptyString.

(** A string literal of JSON: the escaped text between double quotes. *)
Definition quote (s : string) : string :=
  String dquote (escape s) +:+ String dquote EmptyString.

Fixpoint join (sep : string) (l : list string) : string :=
  match l with
  | [] => EmptyString
  | [x] => x
  | x :: rest => x +:+ sep +:+ join sep rest
  end.

(** [JSON.stringify(v)]; [None] is the result [undefined].  Inside an array
    [undefined] prints as [null]; inside an object the property is left
    out.  An iterator object has no own enumerable property. *)
Fixpoint stringify (v : JsValue) : option string :=
  match v with
  | VUndef => None
  | VNull => Some "null"
  | VBool true => Some "true"
  | VBool false => Some "false"
  | VNum n => Some (pretty n)
  | VFloat lit => Some lit
  | VStr s => Some (quote s)
  | VArr items =>
      Some ("[" +:+ join "," (map (fun x => default "null" (stringify x)) items)
            +:+ "]")
  | VObj props =>
      Some ("{" +:+
            join "," (omap (fun p => (fun s => quote (fst p) +:+ ":" +:+ s)
                                       <$> stringify (snd p)) props)
            +:+ "}")
  | VIter _ _ => Some "{}"
  end.

(** [JSON.stringify(v)] for a [v] other than [undefined]. *)
Definition JSON_stringify (v : JsValue) : string :=
  default "undefined" (stringify v).

Fixpoint spaces (n : nat) : string :=
  match n with O => EmptyString | S n => String " "%char (spaces n) end.

(** [JSON.stringify(v, null, 2)] at nesting depth [d]. *)
Fixpoint stringify_indent (d : nat) (v : JsValue) : option string :=
  let inner := newline +:+ spaces (2 * S d) in
  let outer := newline +:+ spaces (2 * d) in
  match v with
  | VArr [] => Some "[]"
  | VArr items =>
      Some ("[" +:+ inner +:+
            join ("," +:+ inner)
              (map (fun x => default "null" (stringify_indent (S d) x)) items)
            +:+ outer +:+ "]")
  | VObj props =>
      match omap (fun p => (fun s => quote (fst p) +:+ ": " +:+ s)
                             <$> stringify_indent (S d) (snd p)) props with
      | [] => Some "{}"
      | fields => Some ("{" +:+ inner +:+ join ("," +:+ inner) fields
                        +:+ outer +:+ "}")
      end
  | _ => stringify v
  end.

Definition JSON_stringify_indent (v : JsValue) : string :=
  default "undefined" (stringify_indent 0 v).

(* ===================================================================== *)
(** ** JSON.parse                                                         *)
(* ===================================================================== *)

Definition is_ws (c : ascii) : bool :=
  let n := N_of_ascii c in
  ((n =? 32) || (n =? 9) || (n =? 10) || (n =? 13))%N.

Fixpoint skip_ws (s : string) : string :=
  match s with
  | String c rest => if is_ws c then skip_ws rest else s
  | EmptyString => s
  end.

Definition is_digit (c : ascii) : bool :=
  let n := N_of_ascii c in ((48 <=? n) && (n <=? 57))%N.

Definition digit_val (c : ascii) : Z := Z.of_N (N_of_ascii c) - 48.

(** Longest prefix of digits, and what follows it. *)
Fixpoint span_digits (s : string) : string * string :=
  match s with
  | String c rest =>
      if is_digit c
      then let '(d, r) := span_digits rest in (String c d, r)
      else (EmptyString, s)
  | EmptyString => (EmptyString, s)
  end.

Definition digits_val (ds : string) : Z :=
  fold_left (fun acc c => 10 * acc + digit_val c)
            (String.list_ascii_of_string ds) 0.

Fixpoint all_zero (ds : string) : bool :=
  match ds with
  | EmptyString => true
  | String c rest => (N_of_ascii c =? 48)%N && all_zero rest
  end.

Definition hex_val (c : ascii) : option N :=
  let n := N_of_ascii c in
  if ((48 <=? n) && (n <=? 57))%N then Some (n - 48)%N
  else if ((97 <=? n) && (n <=? 102))%N then Some (n - 87)%N
  else if ((65 <=? n) && (n <=? 70))%N then Some (n - 55)%N
  else None.

(** UTF-8 bytes of a code unit given by a [\uXXXX] escape. *)
Definition utf8 (cp : N) : string :=
  let byte n := ascii_of_N n in
  (if cp <? 128 then String (byte cp) EmptyString
   else if cp <? 2048 then
     String (byte (192 + cp / 64)) (String (byte (128 + cp mod 64)) EmptyString)
   else
     String (byte (224 + cp / 4096))
       (String (byte (128 + (cp / 64) mod 64))
          (String (byte (128 + cp mod 64)) EmptyString)))%N.

(** The characters of a string literal after its opening quote. *)
Fixpoint parse_string_body (s : string) : option (string * string) :=
  match s with
  | EmptyString => None
  | String c rest =>
      let n := N_of_ascii c in
      if (n =? 34)%N then Some (EmptyString, rest)
      else if (n =? 92)%N then
        match rest with
        | String e rest' =>
            let plain (x : ascii) :=
              '(body, r) ← parse_string_body rest'; Some (String x body, r) in
            let m := N_of_ascii e in
            if (m =? 34)%N then plain dquote
            else if (m =? 92)%N then plain "\"%char
            else if (m =? 47)%N then plain "/"%char
            else if (m =? 98)%N then plain "008"%char
            else if (m =? 102)%N then plain "012"%char
            else if (m =? 110)%N then plain "010"%char
            else if (m =? 114)%N then plain "013"%char
            else if (m =? 116)%N then plain "009"%char
            else if (m =? 117)%N then
              match rest' with
              | String h1 (String h2 (String h3 (String h4 rest''))) =>
                  a ← hex_val h1; b ← hex_val h2; c ← hex_val h3; d ← hex_val h4;
                  '(body, r) ← parse_string_body rest'';
                  Some (utf8 (((a * 16 + b) * 16 + c) * 16 + d)%N +:+ body, r)
              | _ => None
              end
            else None
        | EmptyString => None
        end
      else if (n <? 32)%N then None
      else '(body, r) ← parse_string_body rest; Some (String c body, r)
  end.

(** A number literal:
    [-? (0 | [1-9][0-9]* ) (. [0-9]+)? ([eE] [+-]? [0-9]+)?].
    A literal whose value is plainly an integer ([12], [12.00], [0.0e7]) is
    a [VNum]; any other keeps its text. *)
Definition parse_number (s : string) : option (JsValue * string) :=
  let '(neg, s1) :=
    match s with
    | String "-"%char r => (true, r)
    | _ => (false, s)
    end in
  let '(int, s2) := span_digits s1 in
  match int with
  | EmptyString => None
  | String "0"%char (String _ _) => None
  | _ =>
      let '(frac, s3) :=
        match s2 with
        | String "."%char r => let '(d, r') := span_digits r in (Some d, r')
        | _ => (None, s2)
        end in
      let '(exp, s4) :=
        match s3 with
        | String e r =>
            if (N_of_ascii e =? 101)%N || (N_of_ascii e =? 69)%N then
              let '(sign, r1) :=
                match r with
                | String "+"%char r' => ("+", r')
                | String "-"%char r' => ("-", r')
                | _ => (EmptyString, r)
                end in
              let '(d, r2) := span_digits r1 in
              (Some (String e sign, d), r2)
            else (None, s3)
        | EmptyString => (None, s3)
        end in
      let integer := if neg then - digits_val int else digits_val int in
      match frac, exp with
      | None, None => Some (VNum integer, s4)
      | Some EmptyString, _ | _, Some (_, EmptyString) => None
      | _, _ =>
          if all_zero int && all_zero (default EmptyString frac)
          then Some (VNum 0, s4)
          else if all_zero (default EmptyString frac)
                  && match exp with None => true | Some _ => false end
          then Some (VNum integer, s4)
          else
            Some (VFloat ((if neg then "-" else EmptyString) +:+ int +:+
                          match frac with
                          | Some d => "." +:+ d
                          | None => EmptyString
                          end +:+
                          match exp with
                          | Some (e, d) => e +:+ d
                          | None => EmptyString
                          end),
                  s4)
      end
  end.

Definition strip_prefix (p s : string) : option string :=
  if String.prefix p s
  then Some (String.substring (String.length p) (String.length s - String.length p) s)
  else None.

(** Recursive descent over the input text; [fuel] bounds the nesting and
    the number of elements, [JSON_parse] supplies enough of it.  A repeated
    key keeps its first position and takes the last value. *)
Fixpoint parse_value (fuel : nat) (s : string) : option (JsValue * string) :=
  match fuel with
  | O => None
  | S fuel =>
      match skip_ws s with
      | String c rest =>
          let n := N_of_ascii c in
          if (n =? 34)%N then
            '(str, r) ← parse_string_body rest; Some (VStr str, r)
          else if (n =? 91)%N then
            match skip_ws rest with
            | String "]"%char r => Some (VArr [], r)
            | _ => parse_elements fuel rest []
            end
          else if (n =? 123)%N then
            match skip_ws rest with
            | String "}"%char r => Some (VObj [], r)
            | _ => parse_members fuel rest []
            end
          else if (n =? 110)%N then
            r ← strip_prefix "null" (String c rest); Some (VNull, r)
          else if (n =? 116)%N then
            r ← strip_prefix "true" (String c rest); Some (VBool true, r)
          else if (n =? 102)%N then
            r ← strip_prefix "false" (String c rest); Some (VBool false, r)
          else parse_number (String c rest)
      | EmptyString => None
      end
  end
with parse_elements (fuel : nat) (s : string) (acc : list JsValue)
  : option (JsValue * string) :=
  match fuel with
  | O => None
  | S fuel =>
      '(v, r) ← parse_value fuel s;
      match skip_ws r with
      | String ","%char r' => parse_elements fuel r' (acc ++ [v])
      | String "]"%char r' => Some (VArr (acc ++ [v]), r')
      | _ => None
      end
  end
with parse_members (fuel : nat) (s : string) (acc : list (string * JsValue))
  : option (JsValue * string) :=
  match fuel with
  | O => None
  | S fuel =>
      match skip_ws s with
      | String q rest =>
          if (N_of_ascii q =? 34)%N then
            '(k, r) ← parse_string_body rest;
            match skip_ws r with
            | String ":"%char r1 =>
                '(v, r2) ← parse_value fuel r1;
                match skip_ws r2 with
                | String ","%char r3 => parse_members fuel r3 (obj_set acc k v)
                | String "}"%char r3 => Some (VObj (obj_set acc k v), r3)
                | _ => None
                end
            | _ => None
            end
          else None
      | EmptyString => None
      end
  end.

(** [JSON.parse(text)] where a failure is caught and its error dropped. *)
Definition JSON_parse_opt (text : string) : option JsValue :=
  match parse_value (2 * String.length text + 2) text with
  | Some (v, rest) =>
      match skip_ws rest with
      | EmptyString => Some v
      | _ => None
      end
  | None => None
  end.

(** [JSON.parse(text)]: the value, or the engine's [SyntaxError]. *)
Definition JSON_parse (E : Engine) (text : string) : Exc JsValue :=
  match JSON_parse_opt text with
  | Some v => Ok v
  | None => Err (syntaxErrorMessage E text)
  end.

(* ===================================================================== *)
(** ** types.ts: schemas and tool metadata                                *)
(* ===================================================================== *)

(** [interface JsonSchema]: [type: 'object'], [properties], optional
    [required], and any further keys.  [properties] is optional here
    because the code guards every read with [|| {}]. *)
Record JsonSchema : Type := {
  properties : option (list (string * JsValue));
  required : option (list string);
  extra : list (string * JsValue)
}.

(** The schema as the JSON object sent on the wire. *)
Definition schema_json (s : JsonSchema) : JsValue :=
  VObj ([("type", VStr "object")]
        ++ match properties s with
           | Some ps => [("properties", VObj ps)]
           | None => []
           end
        ++ [("required", match required s with
                         | Some r => VArr (map VStr r)
                         | None => VUndef
                         end)]
        ++ extra s).

(** [interface ToolMetadata] *)
Record ToolMetadata : Type := {
  name : string;
  description : string;
  parameters : JsonSchema
}.

(** [interface ResolvedSchema<T>] *)
Record ResolvedSchema : Type := {
  jsonSchema : JsonSchema;
  parse : JsValue -> Exc JsValue
}.

(** [type SimpleSchema = Record<string, string>], in key order. *)
Definition SimpleSchema : Type := list (string * string).

(** [key.endsWith('?')] *)
Fixpoint endsWith_qmark (key : string) : bool :=
  match key with
  | EmptyString => false
  | String c EmptyString => (N_of_ascii c =? 63)%N
  | String _ rest => endsWith_qmark rest
  end.

(** [key.slice(0, -1)] *)
Definition slice_0_m1 (key : string) : string :=
  String.substring 0 (String.length key - 1) key.

(** An entry of [fields] in [createSimpleSchemaParser]. *)
Record Field : Type := { cleanKey : string; optional : bool }.

Definition field_of_key (key : string) : Field :=
  let isOptional := endsWith_qmark key in
  {| cleanKey := if isOptional then slice_0_m1 key else key;
     optional := isOptional |}.

Definition simpleSchemaToJsonSchema (simple : SimpleSchema) : JsonSchema :=
  let step (acc : list (string * JsValue) * list string) (kd : string * string) :=
    let '(props, req) := acc in
    let '(key, desc) := kd in
    let f := field_of_key key in
    (obj_set props (cleanKey f)
       (VObj [("type", VStr "string"); ("description", VStr desc)]),
     if optional f then req else req ++ [cleanKey f]) in
  let '(props, req) := fold_left step simple ([], []) in
  {| properties := Some props;
     required := match req with [] => None | _ => Some req end;
     extra := [] |}.

(** The loop over [fields] of the parser returned by
    [createSimpleSchemaParser]: [obj] is the input, [result] the object
    built so far. *)
Fixpoint parse_fields (E : Engine) (fields : list Field) (obj : JsValue)
    (result : list (string * JsValue)) : Exc JsValue :=
  match fields with
  | [] => Ok (VObj result)
  | f :: rest =>
      val ← js_get E obj (cleanKey f);
      if is_nullish val then
        if negb (optional f)
        then Err ("Missing required field: " +:+ in_quotes (cleanKey f))
        else parse_fields E rest obj result
      else if negb (is_string val)
      then Err ("Field " +:+ in_quotes (cleanKey f) +:+ " must be a string, got "
                +:+ typeof val)
      else parse_fields E rest obj (obj_set result (cleanKey f) val)
  end.

Definition createSimpleSchemaParser (E : Engine) (simple : SimpleSchema)
  : JsValue -> Exc JsValue :=
  let fields := map field_of_key (Object_keys simple) in
  fun data =>
    if is_null data || negb (typeof_object data) || is_array data
    then Err "Expected an object"
    else parse_fields E fields data [].

(** The [SimpleSchema] branch of [resolveSchema]. *)
Definition resolveSchema (E : Engine) (simple : SimpleSchema) : ResolvedSchema :=
  {| jsonSchema := simpleSchemaToJsonSchema simple;
     parse := createSimpleSchemaParser E simple |}.

(* ===================================================================== *)
(** ** Tools and the structured-output store (store.ts)                   *)
(* ===================================================================== *)

(** A tool function: its metadata ([fn[TOOL_SYMBOL]]) and its body.  The
    body receives the positional arguments and acts on the state [W] its
    closure captured; it returns a value or throws. *)
Record ToolFunction (W : Type) : Type := {
  meta : ToolMetadata;
  call : list JsValue -> W -> Exc JsValue * W
}.
Arguments meta {W} _.
Arguments call {W} _ _ _.

(** [Object.keys(parameters.properties || {})] *)
Definition paramNames_of (m : ToolMetadata) : list string :=
  Object_keys (default [] (properties (parameters m))).

Module Store.

(** The variable [stored] of a store's closure: [None] is [undefined],
    [Some v] is [{ value: v }]. *)
Definition Slot : Type := option JsValue.

(** The reconstruction loop of the store function:
    [for (i < propKeys.length) if (i < args.length && args[i] !== undefined)
       obj[propKeys[i]] = args[i]]. *)
Fixpoint reconstruct (propKeys : list string) (args : list JsValue)
    (obj : list (string * JsValue)) : list (string * JsValue) :=
  match propKeys with
  | [] => obj
  | k :: ks =>
      match args with
      | [] => obj
      | a :: rest =>
          reconstruct ks rest (if is_undefined a then obj else obj_set obj k a)
      end
  end.

(** The function [fn] built by [createStore]. *)
Definition fn (schema : ResolvedSchema) (args : list JsValue) (stored : Slot)
  : Exc JsValue * Slot :=
  let propKeys := Object_keys (default [] (properties (jsonSchema schema))) in
  let obj := reconstruct propKeys args [] in
  match parse schema (VObj obj) with
  | Ok result => (Ok (VStr "Value stored successfully"), Some result)
  | Err e => (Err e, stored)
  end.

(** [store.get()]: [stored?.value] *)
Definition get (stored : Slot) : JsValue :=
  match stored with
  | Some v => v
  | None => VUndef
  end.

(** [createStore(name, schema)]: the callable with its metadata. *)
Definition createStore (name : string) (schema : ResolvedSchema)
  : ToolFunction Slot :=
  {| meta := {| name := name;
                description := "Store a structured value";
                parameters := jsonSchema schema |};
     call := fn schema |}.

(** The slot of a new store. *)
Definition initial : Slot := None.

End Store.

(* ===================================================================== *)
(** ** Prompt content, events, provider interface (providers/types.ts)    *)
(* ===================================================================== *)

(** [type ContentPart] *)
Inductive ContentPart : Type :=
| TextPart (text : string)
| ImagePart (url : string).

(** [type PromptContent = string | ContentPart[]] *)
Inductive PromptContent : Type :=
| PlainText (s : string)
| Parts (parts : list ContentPart).

Definition part_json (p : ContentPart) : JsValue :=
  match p with
  | TextPart t => VObj [("type", VStr "text"); ("text", VStr t)]
  | ImagePart u =>
      VObj [("type", VStr "image_url"); ("image_url", VObj [("url", VStr u)])]
  end.

Definition content_json (c : PromptContent) : JsValue :=
  match c with
  | PlainText s => VStr s
  | Parts ps => VArr (map part_json ps)
  end.

(** [interface ToolCallInfo] *)
Record ToolCallInfo : Type := {
  tc_id : string;
  tc_name : string;
  tc_arguments : string
}.

(** [interface ToolResultInfo] *)
Record ToolResultInfo : Type := {
  tr_id : string;
  tr_name : string;
  tr_result : string
}.

(** [interface ParsedResponse].  A JavaScript array may have holes (the
    OpenAI adapter fills [toolCalls] by index); a hole is [None]. *)
Record ParsedResponse : Type := {
  content : string;
  toolCalls : list (option ToolCallInfo)
}.

(** What the loop and the adapters make observable: the events of
    [TooledPromptEmitter] (without the duration of [tool_result]) and
    [console.warn]. *)
Inductive Event : Type :=
| EStart
| EContent (chunk : string)
| EThinking (chunk : string)
| EToolCall (tool : string) (input : JsValue)
| EToolResult (tool : string) (result : string)
| EToolError (tool : string) (error : string)
| EConsoleWarn (line : string).

(** *** Arrays that are shared and updated in place

    The message history is one array, created by the loop, handed to
    [buildRequest] on every iteration and extended with [push].  Arrays
    live in a heap and are named by their location. *)
Module Heap.

Definition loc : Type := nat.
Abbreviation t := (gmap nat (list JsValue)).

Definition read (h : t) (l : loc) : list JsValue := default [] (h !! l).

(** A new array ([[...items]], an array literal). *)
Definition alloc (h : t) (items : list JsValue) : loc * t :=
  let l := fresh (dom h) in (l, <[l := items]> h).

(** [arr.push(...items)] *)
Definition push (h : t) (l : loc) (items : list JsValue) : t :=
  <[l := read h l ++ items]> h.

(** [arr.unshift(item)] *)
Definition unshift (h : t) (l : loc) (item : JsValue) : t :=
  <[l := item :: read h l]> h.

End Heap.

(** A value of a request body: plain data, or a reference to an array of
    the heap. *)
Inductive BodyVal : Type :=
| Imm (v : JsValue)
| Ref (l : Heap.loc).

(** [interface BuildRequestParams] *)
Record BuildRequestParams : Type := {
  apiUrl : string;
  apiKey : option string;
  modelName : string;
  messages : Heap.loc;
  tools : list ToolMetadata;
  stream : bool;
  temperature : option JsValue;  (* a number *)
  maxTokens : option Z;
  systemPrompt : option PromptContent;
  schema : option JsonSchema
}.

(** [interface BuildRequestResult] *)
Record BuildRequestResult : Type := {
  url : string;
  headers : list (string * string);
  body : list (string * BodyVal)
}.

(** The body as [JSON.stringify] sees it at the time of the call. *)
Definition freeze (h : Heap.t) (body : list (string * BodyVal)) : JsValue :=
  VObj (map (fun kv => (kv.1, match kv.2 with
                              | Imm v => v
                              | Ref l => VArr (Heap.read h l)
                              end)) body).

(** A fetched [Response]: [json] is what [response.json()] resolves to (or
    its rejection), [stream_body] what reading [response.body] to its end
    delivers ([None] when [response.body] is null). *)
Record Response (J C : Type) : Type := {
  ok : bool;
  status : Z;
  text : string;
  json : Exc J;
  stream_body : option C
}.
Arguments ok {J C} _.
Arguments status {J C} _.
Arguments text {J C} _.
Arguments json {J C} _.
Arguments stream_body {J C} _.

(** [interface ProviderAdapter].  [WireJson] and [WireStream] are the
    shapes the adapter reads a response in; the events [parseResponse]
    emits are returned with its result. *)
Record ProviderAdapter : Type := {
  WireJson : Type;
  WireStream : Type;
  buildRequest : BuildRequestParams -> Heap.t -> BuildRequestResult * Heap.t;
  formatUserMessage : PromptContent -> option (list ContentPart) -> JsValue;
  formatAssistantMessage : string -> list ToolCallInfo -> JsValue;
  formatToolResults : list ToolResultInfo -> list JsValue;
  parseResponse :
    Response WireJson WireStream -> bool -> Exc ParsedResponse * list Event
}.

(** [...(cond && { key: value })] in an object literal *)
Definition opt_field {A} (key : string) (f : A -> JsValue) (o : option A)
  : list (string * BodyVal) :=
  match o with
  | Some a => [(key, Imm (f a))]
  | None => []
  end.

(* ===================================================================== *)
(** ** providers/utils.ts                                                 *)
(* ===================================================================== *)

Definition spread_node (v : JsValue) : list (string * JsValue) :=
  match v with
  | VObj props => props
  | VArr items => imap (fun i x => (pretty i, x)) items
  | _ => []
  end.

Definition is_object_type (props : list (string * JsValue)) : bool :=
  match obj_get props "type" with
  | VStr t => String.eqb t "object"
  | _ => false
  end.

(** [enforceAdditionalProperties(node)].  The source sets
    [additionalProperties] on the copy before it walks the entries; here the
    entries are walked first and the key is set afterwards, which gives the
    same object because the value [false] is not walked into. *)
Fixpoint enforceAdditionalProperties (node : JsValue) : JsValue :=
  let walk (v : JsValue) : JsValue :=
    match v with
    | VArr items =>
        VArr (map (fun item =>
                     match item with
                     | VObj _ | VArr _ => enforceAdditionalProperties item
                     | _ => item
                     end) items)
    | VObj _ => enforceAdditionalProperties v
    | _ => v
    end in
  let entries :=
    match node with
    | VObj props => map (fun kv => (kv.1, walk kv.2)) props
    | VArr items => imap (fun i x => (pretty i, x)) (map walk items)
    | _ => []
    end in
  VObj (if is_object_type (spread_node node)
        then obj_set entries "additionalProperties" (VBool false)
        else entries).

Definition toolsToOpenAIFormat (tools : list ToolMetadata) : list JsValue :=
  map (fun meta =>
         VObj [("type", VStr "function");
               ("function",
                VObj [("name", VStr (name meta));
                      ("description", VStr (description meta));
                      ("parameters", schema_json (parameters meta))])])
      tools.

Fixpoint span_until_semicolon (s : string) : string * string :=
  match s with
  | String c rest =>
      if (N_of_ascii c =? 59)%N then (EmptyString, s)
      else let '(a, b) := span_until_semicolon rest in (String c a, b)
  | EmptyString => (EmptyString, s)
  end.

Fixpoint single_line (s : string) : bool :=
  match s with
  | String c rest =>
      negb ((N_of_ascii c =? 10)%N || (N_of_ascii c =? 13)%N) && single_line rest
  | EmptyString => true
  end.

(** [parseDataUrl(url)]: the match of [/^data:([^;]+);base64,(.+)$/], or
    [None] where the source throws ['Invalid data URL']. *)
Definition parseDataUrl (url : string) : option (string * string) :=
  rest ← strip_prefix "data:" url;
  let '(mediaType, after) := span_until_semicolon rest in
  base64 ← strip_prefix ";base64," after;
  if nonempty mediaType && nonempty base64 && single_line base64
  then Some (mediaType, base64)
  else None.

(** [arr[idx] = v] on an array with holes: writing past the end extends
    the array. *)
Fixpoint sparse_set {A} (l : list (option A)) (idx : nat) (v : A)
  : list (option A) :=
  match idx, l with
  | O, [] => [Some v]
  | O, _ :: rest => Some v :: rest
  | S i, [] => None :: sparse_set [] i v
  | S i, x :: rest => x :: sparse_set rest i v
  end.

(** [arr[idx]], [undefined] for a hole or an index past the end. *)
Definition sparse_get {A} (l : list (option A)) (idx : nat) : option A :=
  mjoin (l !! idx).

(** [arr[i].arguments += s] *)
Definition append_arguments (toolCalls : list ToolCallInfo) (i : nat) (s : string)
  : list ToolCallInfo :=
  alter (fun tc => {| tc_id := tc_id tc; tc_name := tc_name tc;
                      tc_arguments := tc_arguments tc +:+ s |}) i toolCalls.

(** [typeof a === 'string' ? a : JSON.stringify(a || {})] *)
Definition arguments_text (a : JsValue) : string :=
  match a with
  | VStr s => s
  | _ => JSON_stringify (if truthy a then a else VObj [])
  end.

(* ===================================================================== *)
(** ** providers/openai.ts                                                *)
(* ===================================================================== *)

Module OpenAI.

(** The non-streaming body, as the cast in [parseResponse] declares it. *)
Record WireToolCall : Type := {
  w_id : string;
  w_function_name : string;
  w_function_arguments : string
}.
Record WireMessage : Type := {
  w_content : option string;
  w_tool_calls : option (list WireToolCall)
}.
Record WireData : Type := {
  choices : option (list WireMessage)   (* choices[i].message *)
}.

(** A streamed chunk, by the fields [parseResponse] reads. *)
Record DeltaFunction : Type := {
  df_name : option string;
  df_arguments : option string
}.
Record DeltaToolCall : Type := {
  d_index : option nat;
  d_id : option string;
  d_function : option DeltaFunction
}.
Record Delta : Type := {
  d_thinking : option string;
  d_reasoning_content : option string;
  d_reasoning : option string;
  d_content : option string;
  d_tool_calls : option (list DeltaToolCall)
}.
Record Chunk : Type := {
  c_choices : option (list (option Delta))   (* choices[i].delta *)
}.

Definition buildRequest (params : BuildRequestParams) (h : Heap.t)
  : BuildRequestResult * Heap.t :=
  let url := apiUrl params +:+ "/chat/completions" in
  let headers :=
    [("Content-Type", "application/json")]
    ++ (if truthy_str (apiKey params)
        then [("Authorization", "Bearer " +:+ default EmptyString (apiKey params))]
        else []) in
  (* const messages = [...params.messages] *)
  let '(messages', h1) := Heap.alloc h (Heap.read h (messages params)) in
  let h2 :=
    match systemPrompt params with
    | Some sp =>
        Heap.unshift h1 messages'
          (VObj [("role", VStr "system"); ("content", content_json sp)])
    | None => h1
    end in
  let openaiTools := toolsToOpenAIFormat (tools params) in
  let body :=
    [("model", Imm (VStr (modelName params)));
     ("messages", Ref messages');
     ("stream", Imm (VBool (stream params)))]
    ++ opt_field "temperature" id (temperature params)
    ++ opt_field "max_tokens" VNum (maxTokens params)
    ++ opt_field "response_format"
         (fun js => VObj [("type", VStr "json_schema");
                          ("json_schema",
                           VObj [("name", VStr "response");
                                 ("strict", VBool true);
                                 ("schema",
                                  enforceAdditionalProperties (schema_json js))])])
         (schema params)
    ++ (match openaiTools with
        | [] => []
        | _ => [("tools", Imm (VArr openaiTools));
                ("tool_choice", Imm (VStr "auto"))]
        end) in
  ({| url := url; headers := headers; body := body |}, h2).

Definition formatUserMessage (content : PromptContent)
    (prependImages : option (list ContentPart)) : JsValue :=
  match prependImages with
  | Some (_ :: _ as images) =>
      let contentParts :=
        images ++ match content with
                  | PlainText s => [TextPart s]
                  | Parts ps => ps
                  end in
      VObj [("role", VStr "user"); ("content", VArr (map part_json contentParts))]
  | _ => VObj [("role", VStr "user"); ("content", content_json content)]
  end.

Definition formatAssistantMessage (content : string)
    (toolCalls : list ToolCallInfo) : JsValue :=
  VObj [("role", VStr "assistant");
        ("content", if nonempty content then VStr content else VNull);
        ("tool_calls",
         match toolCalls with
         | [] => VUndef
         | _ =>
             VArr (map (fun tc =>
                          VObj [("id", VStr (tc_id tc));
                                ("type", VStr "function");
                                ("function",
                                 VObj [("name", VStr (tc_name tc));
                                       ("arguments", VStr (tc_arguments tc))])])
                       toolCalls)
         end)].

Definition formatToolResults (results : list ToolResultInfo) : list JsValue :=
  map (fun tr => VObj [("role", VStr "tool");
                       ("tool_call_id", VStr (tr_id tr));
                       ("content", VStr (tr_result tr))])
      results.

(** One entry of [delta.tool_calls] applied to the accumulated calls
    (lines 139-151). *)
Definition accrete (toolCalls : list (option ToolCallInfo)) (tc : DeltaToolCall)
  : list (option ToolCallInfo) :=
  let idx := default O (d_index tc) in
  let fname := d_function tc ≫= df_name in
  let fargs := d_function tc ≫= df_arguments in
  let cur :=
    match sparse_get toolCalls idx with
    | Some c => c
    | None => {| tc_id := opt_or (d_id tc) EmptyString;
                 tc_name := opt_or fname EmptyString;
                 tc_arguments := EmptyString |}
    end in
  let cur1 :=
    if truthy_str (d_id tc)
    then {| tc_id := default EmptyString (d_id tc);
            tc_name := tc_name cur; tc_arguments := tc_arguments cur |}
    else cur in
  let cur2 :=
    if truthy_str fname
    then {| tc_id := tc_id cur1;
            tc_name := default EmptyString fname;
            tc_arguments := tc_arguments cur1 |}
    else cur1 in
  let cur3 :=
    if truthy_str fargs
    then {| tc_id := tc_id cur2; tc_name := tc_name cur2;
            tc_arguments := tc_arguments cur2 +:+ default EmptyString fargs |}
    else cur2 in
  sparse_set toolCalls idx cur3.

(** The state of the streaming loop: accumulated content, calls, events. *)
Definition StreamState : Type :=
  (string * list (option ToolCallInfo) * list Event)%type.

(** The body of [for await (const chunk of parseSSEStream(reader))]. *)
Definition on_chunk (st : StreamState) (chunk : Chunk) : StreamState :=
  let '(content, toolCalls, events) := st in
  match mjoin (c_choices chunk ≫= head) with
  | None => st                                   (* if (!delta) continue *)
  | Some delta =>
      let thinking :=
        opt_or (d_thinking delta)
          (opt_or (d_reasoning_content delta)
             (opt_or (d_reasoning delta) EmptyString)) in
      let events1 :=
        if nonempty thinking then events ++ [EThinking thinking] else events in
      let '(content1, events2) :=
        if truthy_str (d_content delta)
        then let c := default EmptyString (d_content delta) in
             (content +:+ c, events1 ++ [EContent c])
        else (content, events1) in
      let toolCalls1 :=
        match d_tool_calls delta with
        | Some tcs => fold_left accrete tcs toolCalls
        | None => toolCalls
        end in
      (content1, toolCalls1, events2)
  end.

(** The stream is given by the chunks [parseSSEStream] yields. *)
Definition parseResponse (response : Response WireData (list Chunk))
    (streaming : bool) : Exc ParsedResponse * list Event :=
  match (if streaming then stream_body response else None) with
  | Some chunks =>
      let '(content, toolCalls, events) :=
        fold_left on_chunk chunks (EmptyString, [], []) in
      (Ok {| content := content; toolCalls := toolCalls |},
       if nonempty content then events ++ [EContent newline] else events)
  | None =>
      match json response with
      | Err e => (Err e, [])
      | Ok data =>
          match choices data ≫= head with
          | None => (Err "No response from LLM", [])
          | Some message =>
              let content := opt_or (w_content message) EmptyString in
              let toolCalls :=
                map (fun tc => Some {| tc_id := w_id tc;
                                       tc_name := w_function_name tc;
                                       tc_arguments := w_function_arguments tc |})
                    (default [] (w_tool_calls message)) in
              (Ok {| content := content; toolCalls := toolCalls |},
               if nonempty content then [EContent (content +:+ newline)] else [])
          end
      end
  end.

Definition provider : ProviderAdapter :=
  Build_ProviderAdapter WireData (list Chunk)
    buildRequest formatUserMessage formatAssistantMessage formatToolResults
    parseResponse.

End OpenAI.

(* ===================================================================== *)
(** ** providers/anthropic.ts                                             *)
(* ===================================================================== *)

Module Anthropic.

Definition ANTHROPIC_DEFAULT_MAX_TOKENS : Z := 4096.

(** The non-streaming body, as the cast in [parseResponse] declares it. *)
Record WireBlock : Type := {
  b_type : string;
  b_text : option string;
  b_id : option string;
  b_name : option string;
  b_input : JsValue          (* [unknown]; [VUndef] when absent *)
}.
Record WireData : Type := {
  w_content : option (list WireBlock)
}.

(** A streamed event, by the fields [parseResponse] reads. *)
Record StreamBlock : Type := {
  sb_type : option string;
  sb_id : option string;
  sb_name : option string
}.
Record StreamDelta : Type := {
  sd_type : option string;
  sd_text : option string;
  sd_thinking : option string;
  sd_partial_json : option string
}.
Record StreamEvent : Type := {
  e_type : string;
  e_content_block : option StreamBlock;
  e_delta : option StreamDelta
}.

Definition convertImagePart (part : ContentPart) : JsValue :=
  match part with
  | ImagePart u =>
      match parseDataUrl u with
      | Some (mediaType, base64) =>
          VObj [("type", VStr "image");
                ("source", VObj [("type", VStr "base64");
                                 ("media_type", VStr mediaType);
                                 ("data", VStr base64)])]
      | None =>
          VObj [("type", VStr "image");
                ("source", VObj [("type", VStr "url"); ("url", VStr u)])]
      end
  | TextPart _ => part_json part
  end.

Definition contentToAnthropicParts (content : PromptContent)
    (prependImages : option (list ContentPart)) : list JsValue :=
  map convertImagePart (default [] prependImages)
  ++ match content with
     | PlainText s => [VObj [("type", VStr "text"); ("text", VStr s)]]
     | Parts ps => map convertImagePart ps
     end.

Definition buildRequest (params : BuildRequestParams) (h : Heap.t)
  : BuildRequestResult * Heap.t :=
  let url := apiUrl params +:+ "/messages" in
  let headers :=
    [("content-type", "application/json"); ("anthropic-version", "2023-06-01")]
    ++ (if truthy_str (apiKey params)
        then [("x-api-key", default EmptyString (apiKey params))]
        else []) in
  let system :=
    opt_field "system"
      (fun sp =>
         match sp with
         | PlainText s => VStr s
         | Parts ps =>
             VArr (omap (fun p =>
                           match p with
                           | TextPart t =>
                               Some (VObj [("type", VStr "text"); ("text", VStr t)])
                           | ImagePart _ => None
                           end) ps)
         end)
      (systemPrompt params) in
  let toolFields :=
    match tools params with
    | [] => []
    | _ =>
        let anthropicTools :=
          map (fun meta => VObj [("name", VStr (name meta));
                                 ("description", VStr (description meta));
                                 ("input_schema", schema_json (parameters meta))])
              (tools params) in
        let storeToolName :=
          name <$> find (fun t => String.eqb (name t) "return_value") (tools params) in
        (match schema params with
         | Some _ =>
             if truthy_str storeToolName
             then [("tool_choice",
                    Imm (VObj [("type", VStr "tool");
                               ("name", VStr (default EmptyString storeToolName))]))]
             else []
         | None => []
         end)
        ++ [("tools", Imm (VArr anthropicTools))]
    end in
  let body :=
    [("model", Imm (VStr (modelName params)));
     ("messages", Ref (messages params));
     ("max_tokens",
      Imm (VNum (default ANTHROPIC_DEFAULT_MAX_TOKENS (maxTokens params))))]
    ++ (if stream params then [("stream", Imm (VBool true))] else [])
    ++ opt_field "temperature" id (temperature params)
    ++ system
    ++ toolFields in
  ({| url := url; headers := headers; body := body |}, h).

Definition formatUserMessage (content : PromptContent)
    (prependImages : option (list ContentPart)) : JsValue :=
  let parts := contentToAnthropicParts content prependImages in
  match parts with
  | [VObj p] =>
      match obj_get p "type", default [] prependImages with
      | VStr "text", [] => VObj [("role", VStr "user"); ("content", obj_get p "text")]
      | _, _ => VObj [("role", VStr "user"); ("content", VArr parts)]
      end
  | _ => VObj [("role", VStr "user"); ("content", VArr parts)]
  end.

Definition formatAssistantMessage (content : string)
    (toolCalls : list ToolCallInfo) : JsValue :=
  let textBlock :=
    if nonempty content
    then [VObj [("type", VStr "text"); ("text", VStr content)]]
    else [] in
  let toolBlocks :=
    map (fun tc =>
           VObj [("type", VStr "tool_use");
                 ("id", VStr (tc_id tc));
                 ("name", VStr (tc_name tc));
                 ("input", default (VObj []) (JSON_parse_opt (tc_arguments tc)))])
        toolCalls in
  VObj [("role", VStr "assistant"); ("content", VArr (textBlock ++ toolBlocks))].

(** All results of a batch go into one user message. *)
Definition formatToolResults (results : list ToolResultInfo) : list JsValue :=
  [VObj [("role", VStr "user");
         ("content",
          VArr (map (fun tr => VObj [("type", VStr "tool_result");
                                     ("tool_use_id", VStr (tr_id tr));
                                     ("content", VStr (tr_result tr))])
                    results))]].

(** The state of the streaming loop: content, calls, [currentToolIndex]
    ([None] is [-1]), events. *)
Definition StreamState : Type :=
  (string * list ToolCallInfo * option nat * list Event)%type.

(** The [switch (parsed.type)] of the streaming loop. *)
Definition on_event (st : StreamState) (parsed : StreamEvent) : StreamState :=
  let '(content, toolCalls, currentToolIndex, events) := st in
  if String.eqb (e_type parsed) "content_block_start" then
    match e_content_block parsed with
    | Some block =>
        if opt_is (sb_type block) "tool_use"
        then (content,
              toolCalls ++ [{| tc_id := opt_or (sb_id block) EmptyString;
                               tc_name := opt_or (sb_name block) EmptyString;
                               tc_arguments := EmptyString |}],
              Some (length toolCalls), events)
        else st
    | None => st
    end
  else if String.eqb (e_type parsed) "content_block_delta" then
    match e_delta parsed with
    | Some delta =>
        if opt_is (sd_type delta) "text_delta" && truthy_str (sd_text delta) then
          let t := default EmptyString (sd_text delta) in
          (content +:+ t, toolCalls, currentToolIndex, events ++ [EContent t])
        else if opt_is (sd_type delta) "thinking_delta"
                && truthy_str (sd_thinking delta) then
          (content, toolCalls, currentToolIndex,
           events ++ [EThinking (default EmptyString (sd_thinking delta))])
        else if opt_is (sd_type delta) "input_json_delta" then
          match sd_partial_json delta, currentToolIndex with
          | Some partial_json, Some i =>
              (content, append_arguments toolCalls i partial_json,
               currentToolIndex, events)
          | _, _ => st
          end
        else st
    | None => st
    end
  else if String.eqb (e_type parsed) "content_block_stop" then
    (content, toolCalls, None, events)
  else st.

(** The body of the loop over [data.content] of the non-streaming path. *)
Definition on_block (st : string * list ToolCallInfo) (block : WireBlock)
  : string * list ToolCallInfo :=
  let '(content, toolCalls) := st in
  if String.eqb (b_type block) "text" && truthy_str (b_text block) then
    (content +:+ default EmptyString (b_text block), toolCalls)
  else if String.eqb (b_type block) "tool_use" then
    (content,
     toolCalls ++ [{| tc_id := opt_or (b_id block) EmptyString;
                      tc_name := opt_or (b_name block) EmptyString;
                      tc_arguments := arguments_text (b_input block) |}])
  else st.

(** The stream is given by the events [parseSSEStream] yields. *)
Definition parseResponse (response : Response WireData (list StreamEvent))
    (streaming : bool) : Exc ParsedResponse * list Event :=
  match (if streaming then stream_body response else None) with
  | Some stream_events =>
      let '(content, toolCalls, _, events) :=
        fold_left on_event stream_events (EmptyString, [], None, []) in
      (Ok {| content := content; toolCalls := map Some toolCalls |},
       if nonempty content then events ++ [EContent newline] else events)
  | None =>
      match json response with
      | Err e => (Err e, [])
      | Ok data =>
          match w_content data with
          | None => (Err "No response from LLM", [])
          | Some blocks =>
              let '(content, toolCalls) :=
                fold_left on_block blocks (EmptyString, []) in
              (Ok {| content := content; toolCalls := map Some toolCalls |},
               if nonempty content then [EContent (content +:+ newline)] else [])
          end
      end
  end.

Definition provider : ProviderAdapter :=
  Build_ProviderAdapter WireData (list StreamEvent)
    buildRequest formatUserMessage formatAssistantMessage formatToolResults
    parseResponse.

End Anthropic.

(* ===================================================================== *)
(** ** providers/ollama.ts                                                *)
(* ===================================================================== *)

Module Ollama.

Record WireFunction : Type := {
  f_name : option string;
  f_arguments : JsValue     (* [string | Record]; [VUndef] when absent *)
}.
Record WireToolCall : Type := {
  w_function : option WireFunction
}.
(** [interface OllamaResponseMessage] *)
Record OllamaResponseMessage : Type := {
  m_content : option string;
  m_tool_calls : option (list WireToolCall)
}.
(** [interface OllamaStreamChunk] *)
Record OllamaStreamChunk : Type := {
  done : option bool;
  c_message : option OllamaResponseMessage
}.
(** [interface OllamaResponse] *)
Record OllamaResponse : Type := {
  r_message : option OllamaResponseMessage
}.

Definition extractBase64Images (parts : list ContentPart) : list string :=
  omap (fun part =>
          match part with
          | ImagePart u => snd <$> parseDataUrl u
          | TextPart _ => None
          end) parts.

Definition extractText (content : PromptContent) : string :=
  match content with
  | PlainText s => s
  | Parts ps =>
      join EmptyString
        (omap (fun p => match p with
                        | TextPart t => Some t
                        | ImagePart _ => None
                        end) ps)
  end.

Definition buildRequest (params : BuildRequestParams) (h : Heap.t)
  : BuildRequestResult * Heap.t :=
  let url := apiUrl params +:+ "/api/chat" in
  let headers := [("Content-Type", "application/json")] in
  (* const messages = [...params.messages] *)
  let '(messages', h1) := Heap.alloc h (Heap.read h (messages params)) in
  let h2 :=
    match systemPrompt params with
    | Some sp =>
        Heap.unshift h1 messages'
          (VObj [("role", VStr "system"); ("content", VStr (extractText sp))])
    | None => h1
    end in
  let openaiTools := toolsToOpenAIFormat (tools params) in
  let body :=
    [("model", Imm (VStr (modelName params)));
     ("messages", Ref messages');
     ("stream", Imm (VBool (stream params)))]
    ++ opt_field "options" (fun t => VObj [("temperature", t)]) (temperature params)
    ++ opt_field "format" schema_json (schema params)
    ++ (match openaiTools with
        | [] => []
        | _ => [("tools", Imm (VArr openaiTools))]
        end) in
  ({| url := url; headers := headers; body := body |}, h2).

Definition formatUserMessage (content : PromptContent)
    (prependImages : option (list ContentPart)) : JsValue :=
  let text := extractText content in
  let images :=
    extractBase64Images (default [] prependImages)
    ++ match content with
       | Parts ps => extractBase64Images ps
       | PlainText _ => []
       end in
  match images with
  | [] => VObj [("role", VStr "user"); ("content", VStr text)]
  | _ => VObj [("role", VStr "user"); ("content", VStr text);
               ("images", VArr (map VStr images))]
  end.

Definition formatAssistantMessage (content : string)
    (toolCalls : list ToolCallInfo) : JsValue :=
  VObj [("role", VStr "assistant");
        ("content", VStr (str_or content EmptyString));
        ("tool_calls",
         match toolCalls with
         | [] => VUndef
         | _ =>
             VArr (map (fun tc =>
                          VObj [("function",
                                 VObj [("name", VStr (tc_name tc));
                                       ("arguments",
                                        default (VObj [])
                                          (JSON_parse_opt (tc_arguments tc)))])])
                       toolCalls)
         end)].

Definition formatToolResults (results : list ToolResultInfo) : list JsValue :=
  map (fun tr => VObj [("role", VStr "tool"); ("content", VStr (tr_result tr))])
      results.

(** [toolCalls.push({ id: `ollama_${toolCalls.length}`, ... })] *)
Definition push_call (toolCalls : list ToolCallInfo) (tc : WireToolCall)
  : list ToolCallInfo :=
  toolCalls ++
  [{| tc_id := "ollama_" +:+ pretty (length toolCalls);
      tc_name := opt_or (w_function tc ≫= f_name) EmptyString;
      tc_arguments :=
        arguments_text (default VUndef (f_arguments <$> w_function tc)) |}].

Definition StreamState : Type := (string * list ToolCallInfo * list Event)%type.

(** One line of the stream. *)
Definition on_line (st : StreamState) (parsed : OllamaStreamChunk) : StreamState :=
  let '(content, toolCalls, events) := st in
  let message := c_message parsed in
  let '(content1, events1) :=
    if truthy_str (message ≫= m_content)
    then let c := default EmptyString (message ≫= m_content) in
         (content +:+ c, events ++ [EContent c])
    else (content, events) in
  let toolCalls1 :=
    match message ≫= m_tool_calls with
    | Some tcs => fold_left push_call tcs toolCalls
    | None => toolCalls
    end in
  (content1, toolCalls1, events1).

(** The lines of one [reader.read()]; [if (parsed.done) break] leaves this
    inner loop only. *)
Fixpoint on_lines (st : StreamState) (lines : list OllamaStreamChunk) : StreamState :=
  match lines with
  | [] => st
  | parsed :: rest =>
      let st' := on_line st parsed in
      if default false (done parsed) then st' else on_lines st' rest
  end.

(** The stream is given by the parsed lines each [reader.read()] completes
    (blank lines and lines that are not JSON are skipped by the source). *)
Definition parseResponse
    (response : Response OllamaResponse (list (list OllamaStreamChunk)))
    (streaming : bool) : Exc ParsedResponse * list Event :=
  match (if streaming then stream_body response else None) with
  | Some reads =>
      let '(content, toolCalls, events) :=
        fold_left on_lines reads (EmptyString, [], []) in
      (Ok {| content := content; toolCalls := map Some toolCalls |},
       if nonempty content then events ++ [EContent newline] else events)
  | None =>
      match json response with
      | Err e => (Err e, [])
      | Ok data =>
          match r_message data with
          | None => (Err "No response from LLM", [])
          | Some message =>
              let content := opt_or (m_content message) EmptyString in
              let toolCalls :=
                fold_left push_call (default [] (m_tool_calls message)) [] in
              (Ok {| content := content; toolCalls := map Some toolCalls |},
               if nonempty content then [EContent (content +:+ newline)] else [])
          end
      end
  end.

Definition provider : ProviderAdapter :=
  Build_ProviderAdapter OllamaResponse (list (list OllamaStreamChunk))
    buildRequest formatUserMessage formatAssistantMessage formatToolResults
    parseResponse.

End Ollama.

(** providers/index.ts: [getProvider] on the registry as it is at load
    time. *)
Definition getProvider (name : string) : Exc ProviderAdapter :=
  if String.eqb name "openai" then Ok OpenAI.provider
  else if String.eqb name "anthropic" then Ok Anthropic.provider
  else if String.eqb name "ollama" then Ok Ollama.provider
  else Err ("Unknown provider: " +:+ in_quotes name
            +:+ ". Available: openai, anthropic, ollama").

(* ===================================================================== *)
(** ** executor.ts: the tool loop                                         *)
(* ===================================================================== *)

Module Executor.

(** The fields of [ResolvedTooledPromptConfig] the loop reads. *)
Record Config : Type := {
  cfg_apiUrl : string;
  cfg_modelName : string;
  cfg_apiKey : option string;
  maxIterations : option Z;
  cfg_stream : bool;
  timeout : Z;
  cfg_temperature : option JsValue;
  cfg_maxTokens : option Z;
  maxToolResultLength : option Z
}.

(** [resolveIterableResult(result)] *)
Definition resolveIterableResult (result : JsValue) : JsValue :=
  match result with
  | VUndef | VNull | VStr _ | VArr _ => result
  | VIter _ items => VArr items
  | _ => result
  end.

(** Lines 317-327: the string [resultStr] made of a tool's return value. *)
Definition canonicalize (rawResult : JsValue) : string :=
  let result := resolveIterableResult rawResult in
  match result with
  | VUndef | VNull => "OK"
  | VStr s => s
  | _ => JSON_stringify result
  end.

(** [s.slice(0, n)] *)
Definition slice_0 (s : string) (n : Z) : string :=
  let len := Z.of_nat (String.length s) in
  let stop := if n <? 0 then Z.max (len + n) 0 else Z.min n len in
  String.substring 0 (Z.to_nat stop) s.

(** Lines 333-337. *)
Definition truncate (cfg : Config) (resultStr : string) : string :=
  match maxToolResultLength cfg with
  | Some m =>
      if negb (m =? 0) && (m <? Z.of_nat (String.length resultStr))
      then slice_0 resultStr m +:+ newline +:+ "... (truncated, "
           +:+ pretty (String.length resultStr) +:+ " total chars)"
      else resultStr
  | None => resultStr
  end.

(** [JSON.stringify({ error })] *)
Definition error_payload (error : string) : string :=
  JSON_stringify (VObj [("error", VStr error)]).

(** The predicate of [rawToolCalls.filter((tc) => tc.id && tc.name)] *)
Definition complete (tc : ToolCallInfo) : bool :=
  nonempty (tc_id tc) && nonempty (tc_name tc).

(** [rawToolCalls.filter((tc) => tc.id && tc.name)]; [filter] skips the
    holes of an array. *)
Definition filter_complete (rawToolCalls : list (option ToolCallInfo))
  : list ToolCallInfo :=
  omap (fun o => match o with
                 | Some tc => if complete tc then Some tc else None
                 | None => None
                 end) rawToolCalls.

(** What [fetch] does on one call. *)
Inductive FetchOutcome (J C : Type) : Type :=
| FetchAborted                       (* rejects with an AbortError *)
| FetchFailed (message : string)     (* rejects with another error *)
| Fetched (response : Response J C).
Arguments FetchAborted {J C}.
Arguments FetchFailed {J C} message.
Arguments Fetched {J C} response.

(** One call of [fetch]: the URL, the headers and the body that is sent. *)
Record Request : Type := {
  req_url : string;
  req_headers : list (string * string);
  req_body : JsValue
}.

(** How a run ends. *)
Inductive Outcome : Type :=
| Returned (result : JsValue) (messages : list JsValue)
| Thrown (message : string)
| Awaiting.     (* the loop waits for a response that has not arrived *)

Definition result_of (toolCall : ToolCallInfo) (result : string) : ToolResultInfo :=
  {| tr_id := tc_id toolCall; tr_name := tc_name toolCall; tr_result := result |}.

Section Loop.

Context {W : Type}.
Variable E : Engine.
Variable provider : ProviderAdapter.
Variable tools : list (ToolFunction W).
Variable config : Config.
Variable schema : option ResolvedSchema.
(** [returnStore?.get], reading the state the store's closure holds. *)
Variable returnStore : option (W -> JsValue).
Variable systemPrompt : option PromptContent.

(** The mutable state of one run: the arrays, the state of the tools, the
    events emitted, [iterations], the requests sent. *)
Record LoopState : Type := {
  heap : Heap.t;
  world : W;
  events : list Event;
  iterations : nat;
  sent : list Request
}.

(** [tools.find((t) => t[TOOL_SYMBOL].name === toolCall.name)] *)
Definition findTool (toolName : string) : option (ToolFunction W) :=
  find (fun t => String.eqb (name (meta t)) toolName) tools.

(** Lines 314-315: [paramNames.map((name) => input[name])] *)
Definition positional (toolFn : ToolFunction W) (input : JsValue)
  : Exc (list JsValue) :=
  mapM (js_get E input) (paramNames_of (meta toolFn)).

(** The body of [for (const toolCall of toolCalls)], lines 278-353: the
    result pushed onto [toolResults], the state after the call, the events
    emitted. *)
Definition executeToolCall (toolCall : ToolCallInfo) (w : W)
  : ToolResultInfo * W * list Event :=
  match findTool (tc_name toolCall) with
  | None =>
      let error := "Unknown tool: " +:+ tc_name toolCall in
      (result_of toolCall (error_payload error), w, [EConsoleWarn error])
  | Some toolFn =>
      match JSON_parse E (tc_arguments toolCall) with
      | Err message =>
          let error := "Invalid JSON arguments: " +:+ message in
          (result_of toolCall (error_payload error), w,
           [EToolError (tc_name toolCall) error])
      | Ok input =>
          let called := EToolCall (tc_name toolCall) input in
          match positional toolFn input with
          | Err message =>
              (result_of toolCall (error_payload message), w,
               [called; EToolError (tc_name toolCall) message])
          | Ok args =>
              match call toolFn args w with
              | (Ok rawResult, w') =>
                  let resultStr := canonicalize rawResult in
                  (result_of toolCall (truncate config resultStr), w',
                   [called; EToolResult (tc_name toolCall) resultStr])
              | (Err message, w') =>
                  (result_of toolCall (error_payload message), w',
                   [called; EToolError (tc_name toolCall) message])
              end
          end
      end
  end.

(** The whole [for] loop: the calls are executed one after another, in
    order. *)
Fixpoint executeToolCalls (toolCalls : list ToolCallInfo) (w : W)
  : list ToolResultInfo * W * list Event :=
  match toolCalls with
  | [] => ([], w, [])
  | toolCall :: rest =>
      let '(r, w1, ev1) := executeToolCall toolCall w in
      let '(rs, w2, ev2) := executeToolCalls rest w1 in
      (r :: rs, w2, ev1 ++ ev2)
  end.

(** How one pass through the body of the [while] loop ends. *)
Inductive Step : Type :=
| Done (o : Outcome) (st : LoopState)
| Continue (st : LoopState).

(** Lines 247-273: the response asked for no tool. *)
Definition finish (mloc : Heap.loc) (content : string) (st : LoopState) : Step :=
  let h := Heap.push (heap st) mloc [formatAssistantMessage provider content []] in
  let st1 := {| heap := h; world := world st; events := events st;
                iterations := iterations st; sent := sent st |} in
  let history := Heap.read h mloc in
  match schema with
  | Some sch =>
      match JSON_parse E content with
      | Err message =>
          Done (Thrown ("Failed to parse JSON response: " +:+ message
                        +:+ newline +:+ newline +:+ "Raw content:" +:+ newline
                        +:+ content)) st1
      | Ok parsed =>
          match parse sch parsed with
          | Ok result => Done (Returned result history) st1
          | Err message =>
              Done (Thrown ("Schema validation failed: " +:+ message
                            +:+ newline +:+ newline +:+ "Parsed JSON:" +:+ newline
                            +:+ JSON_stringify_indent parsed)) st1
          end
      end
  | None => Done (Returned (VStr content) history) st1
  end.

(** Lines 275-365: the calls of a response are executed, the assistant
    turn and the results are pushed onto the history, the store is looked
    at, [iterations] is incremented. *)
Definition runBatch (mloc : Heap.loc) (content : string)
    (toolCalls : list ToolCallInfo) (st : LoopState) : Step :=
  let '(toolResults, w, evs) := executeToolCalls toolCalls (world st) in
  let h1 := Heap.push (heap st) mloc
              [formatAssistantMessage provider content toolCalls] in
  let h2 := Heap.push h1 mloc (formatToolResults provider toolResults) in
  let st1 := {| heap := h2; world := w; events := events st ++ evs;
                iterations := iterations st; sent := sent st |} in
  let next :=
    Continue {| heap := h2; world := w; events := events st ++ evs;
                iterations := S (iterations st); sent := sent st |} in
  match returnStore with
  | Some get =>
      let val := get w in
      if negb (is_undefined val)
      then Done (Returned val (Heap.read h2 mloc)) st1
      else next
  | None => next
  end.

(** Lines 243-365: what the loop does with a parsed response. *)
Definition handleParsed (mloc : Heap.loc) (parsed : ParsedResponse)
    (st : LoopState) : Step :=
  let toolCalls := filter_complete (toolCalls parsed) in
  match toolCalls with
  | [] => finish mloc (content parsed) st
  | _ => runBatch mloc (content parsed) toolCalls st
  end.

(** Lines 198-222: the request is built and handed to [fetch]. *)
Definition send (mloc : Heap.loc) (st : LoopState) : LoopState :=
  let '(request, h) :=
    buildRequest provider
      (Build_BuildRequestParams
         (cfg_apiUrl config)           (* apiUrl *)
         (cfg_apiKey config)           (* apiKey *)
         (cfg_modelName config)        (* modelName *)
         mloc                          (* messages *)
         (map meta tools)              (* tools: toolMeta *)
         (cfg_stream config)           (* stream *)
         (cfg_temperature config)      (* temperature *)
         (cfg_maxTokens config)        (* maxTokens *)
         systemPrompt                  (* systemPrompt *)
         (jsonSchema <$> schema))      (* schema *)
      (heap st) in
  {| heap := h; world := world st; events := events st;
     iterations := iterations st;
     sent := sent st ++ [{| req_url := url request;
                            req_headers := headers request;
                            req_body := freeze h (body request) |}] |}.

(** Events emitted by [parseResponse]. *)
Definition emit (st : LoopState) (evs : list Event) : LoopState :=
  {| heap := heap st; world := world st; events := events st ++ evs;
     iterations := iterations st; sent := sent st |}.

(** Lines 198-365: one pass through the body of the [while] loop, given
    what [fetch] delivers. *)
Definition iteration (mloc : Heap.loc)
    (fetched : FetchOutcome (WireJson provider) (WireStream provider))
    (st : LoopState) : Step :=
  let st1 := send mloc st in
  match fetched with
  | FetchAborted =>
      Done (Thrown ("Request timeout after " +:+ pretty (timeout config) +:+ "ms")) st1
  | FetchFailed message => Done (Thrown message) st1
  | Fetched response =>
      if negb (ok response)
      then Done (Thrown ("LLM request failed (" +:+ pretty (status response)
                         +:+ "): " +:+ text response)) st1
      else
        match parseResponse provider response (cfg_stream config) with
        | (Err message, evs) => Done (Thrown message) (emit st1 evs)
        | (Ok parsed, evs) => handleParsed mloc parsed (emit st1 evs)
        end
  end.

(** [maxIterations === undefined || iterations < maxIterations] *)
Definition may_iterate (st : LoopState) : bool :=
  match maxIterations config with
  | None => true
  | Some m => Z.of_nat (iterations st) <? m
  end.

(** The error thrown after the [while] loop. *)
Definition max_iterations_error (m : Z) : string :=
  "Max iterations (" +:+ pretty m +:+ ") reached without completion".

(** The [while] loop, driven by what the successive calls of [fetch]
    deliver. *)
Fixpoint loop (mloc : Heap.loc)
    (script : list (FetchOutcome (WireJson provider) (WireStream provider)))
    (st : LoopState) : Outcome * LoopState :=
  if may_iterate st then
    match script with
    | [] => (Awaiting, st)
    | fetched :: rest =>
        match iteration mloc fetched st with
        | Done o st' => (o, st')
        | Continue st' => loop mloc rest st'
        end
    end
  else
    (Thrown (max_iterations_error (default 0 (maxIterations config))), st).

(** [runToolLoop(promptText, tools, config, emitter, schema, returnStore,
    systemPrompt, systemImages, history)] with the adapter
    [getProvider(config.provider)] already looked up, started in the state
    [w] of the tools and fed the outcomes [script] of its calls of
    [fetch]. *)
Definition runToolLoop (promptText : PromptContent)
    (systemImages : option (list ContentPart))
    (history : option (list JsValue))
    (script : list (FetchOutcome (WireJson provider) (WireStream provider)))
    (w : W) : Outcome * LoopState :=
  let '(mloc, h) :=
    Heap.alloc ∅ (default [] history
                  ++ [formatUserMessage provider promptText systemImages]) in
  loop mloc script
    {| heap := h; world := w; events := [EStart]; iterations := O; sent := [] |}.

End Loop.

Arguments heap {W} _.
Arguments world {W} _.
Arguments events {W} _.
Arguments iterations {W} _.
Arguments sent {W} _.
Arguments Done {W} _ _.
Arguments Continue {W} _.

End Executor.
Import Executor.

(* ===================================================================== *)
(** ** Notions used in the statements                                     *)
(* ===================================================================== *)

(** A field of a request body, as [JSON.stringify] sees it. *)
Definition body_field (h : Heap.t) (body : list (string * BodyVal)) (key : string)
  : JsValue :=
  match freeze h body with
  | VObj props => obj_get props key
  | _ => VUndef
  end.

(** The array a request body carries under [messages]. *)
Definition body_messages (h : Heap.t) (body : list (string * BodyVal)) : JsValue :=
  body_field h body "messages".

(** The value Anthropic's [buildRequest] puts under [system]. *)
Definition anthropic_system (sp : PromptContent) : JsValue :=
  match sp with
  | PlainText s => VStr s
  | Parts ps =>
      VArr (omap (fun p => match p with
                           | TextPart t =>
                               Some (VObj [("type", VStr "text"); ("text", VStr t)])
                           | ImagePart _ => None
                           end) ps)
  end.

(** The system message an adapter puts in front of the history. *)
Definition system_message (f : PromptContent -> JsValue) (params : BuildRequestParams)
  : list JsValue :=
  match systemPrompt params with
  | Some sp => [VObj [("role", VStr "system"); ("content", f sp)]]
  | None => []
  end.

(** A request built on a copy: the arrays that existed before the call are
    what they were, and the body carries [prefix] followed by the history. *)
Definition builds_on_copy
    (build : BuildRequestParams -> Heap.t -> BuildRequestResult * Heap.t)
    (prefix : BuildRequestParams -> list JsValue) : Prop :=
  forall params h,
    messages params ∈ dom h ->
    (forall l, l ∈ dom h -> (build params h).2 !! l = h !! l)
    /\ body_messages (build params h).2 (body (build params h).1)
       = VArr (prefix params ++ Heap.read h (messages params)).


(** *** Sample data *)

Definition sample_engine : Engine :=
  {| syntaxErrorMessage := fun _ => "Unexpected token in JSON";
     typeErrorMessage := fun k =>
       "Cannot read properties of null (reading '" +:+ k +:+ "')" |}.

Definition sample_config (cap : option Z) : Config :=
  {| cfg_apiUrl := "http://localhost:8080/v1";
     cfg_modelName := "model";
     cfg_apiKey := None;
     maxIterations := cap;
     cfg_stream := false;
     timeout := 60000;
     cfg_temperature := None;
     cfg_maxTokens := None;
     maxToolResultLength := None |}.

Definition string_params (names : list string) : JsonSchema :=
  {| properties := Some (map (fun n => (n, VObj [("type", VStr "string")])) names);
     required := Some names;
     extra := [] |}.

(** A tool that records the argument lists it is called with. *)
Definition recorder (toolName : string) (names : list string)
  : ToolFunction (list (list JsValue)) :=
  {| meta := {| name := toolName; description := "records its arguments";
                parameters := string_params names |};
     call := fun args log => (Ok VUndef, log ++ [args]) |}.


Definition user_hello : JsValue :=
  VObj [("role", VStr "user"); ("content", VStr "Hello")].

Definition sample_params (sys : option PromptContent) : BuildRequestParams :=
  {| apiUrl := "http://localhost:8080/v1"; apiKey := None; modelName := "model";
     messages := 0%nat; tools := []; stream := false; temperature := None;
     maxTokens := None; systemPrompt := sys; schema := None |}.

(** The object the store function reconstructs: each declared key with its
    argument, in declared order, the [undefined] arguments left out. *)
Definition reconstructed (propKeys : list string) (args : list JsValue)
  : list (string * JsValue) :=
  omap (fun ka : string * JsValue =>
          if is_undefined ka.2 then None else Some ka)
       (zip propKeys args).

Definition sample_schema : ResolvedSchema :=
  resolveSchema sample_engine [("title", "The title"); ("note?", "A note")].

(** *** The flat string-map parser *)

(** A declared field is satisfied by an object: its value is a string, or
    the field is optional and its value is [undefined] or [null]. *)
Definition field_ok (o : list (string * JsValue)) (f : Field) : bool :=
  is_string (obj_get o (cleanKey f))
  || (optional f && is_nullish (obj_get o (cleanKey f))).

(** The error a field that is not satisfied is rejected with. *)
Definition field_error (o : list (string * JsValue)) (f : Field) : string :=
  if is_nullish (obj_get o (cleanKey f))
  then "Missing required field: " +:+ in_quotes (cleanKey f)
  else "Field " +:+ in_quotes (cleanKey f) +:+ " must be a string, got "
       +:+ typeof (obj_get o (cleanKey f)).

(** The fields of a schema whose value in [o] is a string, with that
    value. *)
Definition string_fields (fields : list Field) (o : list (string * JsValue))
  : list (string * JsValue) :=
  omap (fun f => if is_string (obj_get o (cleanKey f))
                 then Some (cleanKey f, obj_get o (cleanKey f)) else None)
       fields.

Definition fields_of (simple : SimpleSchema) : list Field :=
  map field_of_key (Object_keys simple).

Definition name_bio : SimpleSchema := [("name", "User name"); ("bio?", "Bio")].

(** The object the parser builds: the declared keys whose value is a
    string, set one after another. *)
Definition collect (o : list (string * JsValue)) (fields : list Field)
    (acc : list (string * JsValue)) : list (string * JsValue) :=
  fold_left (fun r f =>
               if is_string (obj_get o (cleanKey f))
               then obj_set r (cleanKey f) (obj_get o (cleanKey f))
               else r)
            fields acc.

(** *** Responses *)



(** A response read as one JSON body. *)
Definition json_response {J C} (data : J) : Response J C :=
  {| ok := true; status := 200; text := EmptyString; json := Ok data;
     stream_body := None |}.

(** A response read as a stream. *)
Definition stream_response {J C} (fallback : J) (chunks : C) : Response J C :=
  {| ok := true; status := 200; text := EmptyString; json := Ok fallback;
     stream_body := Some chunks |}.

(** *** Round-trips *)

Section LoopNotions.

Context {W : Type}.
Variable provider : ProviderAdapter.
Variable config : Config.
Variable returnStore : option (W -> JsValue).

(** [fetch] delivers a response that parses and asks for at least one
    complete tool call. *)
Definition requests_tools
    (fetched : FetchOutcome (WireJson provider) (WireStream provider)) : Prop :=
  exists response parsed evs,
    fetched = Fetched response
    /\ ok response = true
    /\ parseResponse provider response (cfg_stream config) = (Ok parsed, evs)
    /\ filter_complete (toolCalls parsed) <> [].

(** [fetch] delivers a response that parses and asks for no complete tool
    call. *)
Definition tool_free
    (fetched : FetchOutcome (WireJson provider) (WireStream provider)) : Prop :=
  exists response parsed evs,
    fetched = Fetched response
    /\ ok response = true
    /\ parseResponse provider response (cfg_stream config) = (Ok parsed, evs)
    /\ filter_complete (toolCalls parsed) = [].

(** The request times out, fails in transport, is answered with an error
    status, or its response cannot be parsed. *)
Definition fails
    (fetched : FetchOutcome (WireJson provider) (WireStream provider)) : Prop :=
  fetched = FetchAborted
  \/ (exists message, fetched = FetchFailed message)
  \/ (exists response,
        fetched = Fetched response
        /\ (ok response = false
            \/ exists message evs,
                 parseResponse provider response (cfg_stream config)
                 = (Err message, evs))).

(** The run ended with the value of the store, found non-empty after a
    batch. *)
Definition store_filled (o : Outcome) (st' : LoopState (W := W)) : Prop :=
  exists get history,
    returnStore = Some get
    /\ is_undefined (get (world st')) = false
    /\ o = Returned (get (world st')) history.

End LoopNotions.

(** *** Sample runs *)

(** An OpenAI response, not streamed, with text [content] and the tool
    calls [calls], each given by id, name and arguments text. *)
Definition openai_response (content : string)
    (calls : list (string * string * string))
  : FetchOutcome OpenAI.WireData (list OpenAI.Chunk) :=
  Fetched
    (json_response
       {| OpenAI.choices :=
            Some [ {| OpenAI.w_content := Some content;
                      OpenAI.w_tool_calls :=
                        match calls with
                        | [] => None
                        | _ =>
                            Some (map (fun c =>
                                         {| OpenAI.w_id := c.1.1;
                                            OpenAI.w_function_name := c.1.2;
                                            OpenAI.w_function_arguments := c.2 |})
                                      calls)
                        end |} ] |}).

(** The tool of the specification's test: it returns ['continue'], and the
    model always asks for it again. *)
Definition loop_tool : ToolFunction unit :=
  {| meta := {| name := "loop"; description := "keeps going";
                parameters := string_params [] |};
     call := fun _ w => (Ok (VStr "continue"), w) |}.

Definition asks_loop : FetchOutcome OpenAI.WireData (list OpenAI.Chunk) :=
  openai_response EmptyString [("call1", "loop", "{}")].

(** The text [{"title":"Done"}]. *)
Definition title_done : string :=
  "{" +:+ quote "title" +:+ ":" +:+ quote "Done" +:+ "}".

(** A store and a tool that leaves the store alone. *)
Definition return_value : ToolFunction Store.Slot :=
  Store.createStore "return_value" sample_schema.

Definition noop_tool : ToolFunction Store.Slot :=
  {| meta := {| name := "noop"; description := "does nothing";
                parameters := string_params [] |};
     call := fun _ w => (Ok VUndef, w) |}.

(** One response that stores a value and, in the same turn, asks for
    another tool. *)
Definition stores_then_more : FetchOutcome OpenAI.WireData (list OpenAI.Chunk) :=
  openai_response EmptyString
    [("call_a", "return_value", title_done); ("call_b", "noop", "{}")].

(** The state [runToolLoop] enters its loop in, for the prompt [Hello]
    without history. *)
Definition start_state {W : Type} (w : W) : LoopState (W := W) :=
  {| heap := {[ 0%nat := [user_hello] ]}; world := w; events := [EStart];
     iterations := O; sent := [] |}.

(** The messages a request carries. *)
Definition request_messages (r : Request) : list JsValue :=
  match req_body r with
  | VObj props =>
      match obj_get props "messages" with
      | VArr msgs => msgs
      | _ => []
      end
  | _ => []
  end.

(** A message with the role [system]. *)
Definition is_system (m : JsValue) : bool :=
  match m with
  | VObj props =>
      match obj_get props "role" with
      | VStr r => String.eqb r "system"
      | _ => false
      end
  | _ => false
  end.

Definition system_count (msgs : list JsValue) : nat :=
  length (List.filter is_system msgs).

(* ===================================================================== *)
(** ** Further sample data                                               *)
(* ===================================================================== *)




Definition call_of (id toolName arguments : string) : ToolCallInfo :=
  {| tc_id := id; tc_name := toolName; tc_arguments := arguments |}.

(* ===================================================================== *)
(** ** Notions for the adapters                                          *)
(* ===================================================================== *)

(** The text the [content] events of a log carry, in their order. *)
Definition content_text (evs : list Event) : string :=
  fold_right (fun e acc => match e with
                           | EContent chunk => chunk +:+ acc
                           | _ => acc
                           end) EmptyString evs.

(** What a handler of [content] events has received when the parse of a
    response with the text [content] is over. *)
Definition shown (content : string) : string :=
  if nonempty content then content +:+ newline else EmptyString.

(** [l.join('')] *)
Definition concat_strings (l : list string) : string :=
  fold_right String.append EmptyString l.

(** The entries of [delta.tool_calls] a stream carries, chunk after
    chunk. *)
Definition stream_tool_calls (chunks : list OpenAI.Chunk)
  : list OpenAI.DeltaToolCall :=
  concat (omap (fun chunk =>
                  delta ← mjoin (OpenAI.c_choices chunk ≫= head);
                  OpenAI.d_tool_calls delta) chunks).

(** The index an entry of [delta.tool_calls] writes to: [tc.index ?? 0]. *)
Definition delta_index (tc : OpenAI.DeltaToolCall) : nat :=
  default O (OpenAI.d_index tc).

(** The first entry of a streamed call: its id, its name and the
    beginning of its arguments. *)
Definition opening (idx : nat) (id toolName arguments : string)
  : OpenAI.DeltaToolCall :=
  {| OpenAI.d_index := Some idx;
     OpenAI.d_id := Some id;
     OpenAI.d_function :=
       Some {| OpenAI.df_name := Some toolName;
               OpenAI.df_arguments := Some arguments |} |}.

(** A later entry: a further piece of the arguments. *)
Definition fragment (idx : nat) (piece : string) : OpenAI.DeltaToolCall :=
  {| OpenAI.d_index := Some idx;
     OpenAI.d_id := None;
     OpenAI.d_function :=
       Some {| OpenAI.df_name := None;
               OpenAI.df_arguments := Some piece |} |}.

(** The events of a streamed [tool_use] block of Anthropic. *)
Definition block_start (id toolName : string) : Anthropic.StreamEvent :=
  {| Anthropic.e_type := "content_block_start";
     Anthropic.e_content_block :=
       Some {| Anthropic.sb_type := Some "tool_use";
               Anthropic.sb_id := Some id;
               Anthropic.sb_name := Some toolName |};
     Anthropic.e_delta := None |}.

Definition input_json_delta (piece : string) : Anthropic.StreamEvent :=
  {| Anthropic.e_type := "content_block_delta";
     Anthropic.e_content_block := None;
     Anthropic.e_delta :=
       Some {| Anthropic.sd_type := Some "input_json_delta";
               Anthropic.sd_text := None;
               Anthropic.sd_thinking := None;
               Anthropic.sd_partial_json := Some piece |} |}.

Definition block_stop : Anthropic.StreamEvent :=
  {| Anthropic.e_type := "content_block_stop";
     Anthropic.e_content_block := None;
     Anthropic.e_delta := None |}.

(** A chunk of an OpenAI stream that carries text. *)
Definition text_chunk (piece : string) : OpenAI.Chunk :=
  {| OpenAI.c_choices :=
       Some [Some {| OpenAI.d_thinking := None;
                     OpenAI.d_reasoning_content := None;
                     OpenAI.d_reasoning := None;
                     OpenAI.d_content := Some piece;
                     OpenAI.d_tool_calls := None |}] |}.

(** [arr[i].arguments] extended by [piece]. *)
Definition with_more_arguments (tc : ToolCallInfo) (piece : string) : ToolCallInfo :=
  {| tc_id := tc_id tc; tc_name := tc_name tc;
     tc_arguments := tc_arguments tc +:+ piece |}.

(** A chunk of an OpenAI stream that carries entries of tool calls. *)
Definition tool_chunk (entries : list OpenAI.DeltaToolCall) : OpenAI.Chunk :=
  {| OpenAI.c_choices :=
       Some [Some {| OpenAI.d_thinking := None;
                     OpenAI.d_reasoning_content := None;
                     OpenAI.d_reasoning := None;
                     OpenAI.d_content := None;
                     OpenAI.d_tool_calls := Some entries |}] |}.

(** An Ollama response with two calls, the second without a function. *)
Definition ollama_two_calls : Ollama.OllamaResponse :=
  {| Ollama.r_message :=
       Some {| Ollama.m_content := None;
               Ollama.m_tool_calls :=
                 Some [ {| Ollama.w_function :=
                             Some {| Ollama.f_name := Some "list";
                                     Ollama.f_arguments := VObj [] |} |};
                        {| Ollama.w_function := None |} ] |} |}.

Definition ollama_two_calls_parsed : ParsedResponse :=
  {| content := EmptyString;
     toolCalls := [ Some (call_of "ollama_0" "list" "{}");
                    Some (call_of "ollama_1" EmptyString "{}") ] |}.

(* ===================================================================== *)
(** ** String.prototype.trim                                             *)
(* ===================================================================== *)

(** One white space character or line terminator of JavaScript at the
    start of a text, and what follows it.  Texts are sequences of bytes:
    the characters beyond ASCII are recognised by their UTF-8 encoding
    (U+00A0, U+1680, U+2000 to U+200A, U+2028, U+2029, U+202F, U+205F,
    U+3000, U+FEFF). *)
Definition strip_space (s : string) : option string :=
  match s with
  | String c r =>
      let n := N_of_ascii c in
      if ((n =? 32) || ((9 <=? n) && (n <=? 13)))%N then Some r
      else
        match r with
        | String c1 r1 =>
            let n1 := N_of_ascii c1 in
            if ((n =? 194) && (n1 =? 160))%N then Some r1
            else
              match r1 with
              | String c2 r2 =>
                  let n2 := N_of_ascii c2 in
                  if ((n =? 225) && (n1 =? 154) && (n2 =? 128))%N
                     || ((n =? 226) && (n1 =? 128)
                         && (((128 <=? n2) && (n2 <=? 138))
                             || (n2 =? 168) || (n2 =? 169) || (n2 =? 175)))%N
                     || ((n =? 226) && (n1 =? 129) && (n2 =? 159))%N
                     || ((n =? 227) && (n1 =? 128) && (n2 =? 128))%N
                     || ((n =? 239) && (n1 =? 187) && (n2 =? 191))%N
                  then Some r2
                  else None
              | EmptyString => None
              end
        | EmptyString => None
        end
  | EmptyString => None
  end.

Fixpoint trimStart_within (fuel : nat) (s : string) : string :=
  match fuel with
  | O => s
  | S fuel =>
      match strip_space s with
      | Some r => trimStart_within fuel r
      | None => s
      end
  end.

(** [s.trimStart()], [s.replace(/^\s+/, '')] *)
Definition trimStart (s : string) : string :=
  trimStart_within (String.length s) s.

(** The text is made of white space only. *)
Definition blank (s : string) : bool := negb (nonempty (trimStart s)).

(** [s.trimEnd()], [s.replace(/\s+$/, '')]: the text up to the point from
    which only white space follows. *)
Fixpoint trimEnd (s : string) : string :=
  match s with
  | EmptyString => EmptyString
  | String c r => if blank s then EmptyString else String c (trimEnd r)
  end.

(** [s.trim()] *)
Definition trim (s : string) : string := trimEnd (trimStart s).

(** [s.split('\n')]: the pieces between the line feeds, at least one. *)
Fixpoint split_lines (s : string) : list string :=
  match s with
  | EmptyString => [EmptyString]
  | String c rest =>
      if (N_of_ascii c =? 10)%N then EmptyString :: split_lines rest
      else
        match split_lines rest with
        | l :: ls => String c l :: ls
        | [] => [String c EmptyString]
        end
  end.

(* ===================================================================== *)
(** ** streaming.ts: server-sent events                                  *)
(* ===================================================================== *)

Module Streaming.

(** What one line of the stream leads to. *)
Inductive LineResult : Type :=
| Skip                    (* not a data line, or data that is not JSON *)
| Yield (v : JsValue)
| Stop.                   (* [data: [DONE]]: the generator returns *)

(** The body of [for (const line of lines)]. *)
Definition on_line (line : string) : LineResult :=
  match strip_prefix "data: " line with
  | Some rest =>
      let data := trim rest in
      if String.eqb data "[DONE]" then Stop
      else match JSON_parse_opt data with
           | Some v => Yield v
           | None => Skip
           end
  | None => Skip
  end.

(** The [for] loop over the lines a read has completed: the values it
    yields, and whether it has returned. *)
Fixpoint on_lines (lines : list string) : list JsValue * bool :=
  match lines with
  | [] => ([], false)
  | line :: rest =>
      match on_line line with
      | Stop => ([], true)
      | Skip => on_lines rest
      | Yield v => let '(vs, stopped) := on_lines rest in (v :: vs, stopped)
      end
  end.

(** The [while] loop with [buffer] holding what the reads so far have left
    over.  The stream is given by the text the decoder makes of each read;
    when the reads are over the buffer is dropped. *)
Fixpoint parseSSEStream_from (buffer : string) (reads : list string)
  : list JsValue :=
  match reads with
  | [] => []
  | value :: rest =>
      let lines := split_lines (buffer +:+ value) in
      let '(vs, stopped) := on_lines (List.removelast lines) in
      if stopped then vs
      else vs ++ parseSSEStream_from (List.last lines EmptyString) rest
  end.

(** [parseSSEStream(reader)]: the values the generator yields. *)
Definition parseSSEStream (reads : list string) : list JsValue :=
  parseSSEStream_from EmptyString reads.

(** The lines of a text that are ended by a line feed. *)
Definition complete_lines (text : string) : list string :=
  List.removelast (split_lines text).

End Streaming.

(* ===================================================================== *)
(** ** factory.ts: configuration                                         *)
(* ===================================================================== *)

From Stdlib Require QArith.

Module Factory.

(** A JavaScript number as far as comparing goes: a finite number by its
    value, the infinities, [NaN]. *)
Inductive Number : Type :=
| Finite (q : QArith_base.Q)
| PosInfinity
| NegInfinity
| NaN.

Definition of_Z (z : Z) : Number := Finite (QArith_base.inject_Z z).

(** [a < b] *)
Definition lt (a b : Number) : bool :=
  match a, b with
  | NaN, _ | _, NaN => false
  | Finite x, Finite y => negb (QArith_base.Qle_bool y x)
  | NegInfinity, NegInfinity => false
  | NegInfinity, _ => true
  | _, PosInfinity => match a with PosInfinity => false | _ => true end
  | _, _ => false
  end.

(** [Number.isFinite(a)] *)
Definition isFinite (a : Number) : bool :=
  match a with Finite _ => true | _ => false end.

(** [Number.isInteger(a)] *)
Definition isInteger (a : Number) : bool :=
  match a with
  | Finite q =>
      (QArith_base.Qnum q mod Z.pos (QArith_base.Qden q) =? 0)
  | _ => false
  end.

(** An optional property of an object: missing, present with the value
    [undefined], or present with a value. *)
Inductive Field (A : Type) : Type :=
| Absent
| Undefined
| Given (a : A).
Arguments Absent {A}.
Arguments Undefined {A}.
Arguments Given {A} a.

(** [field !== undefined ? field : nothing] *)
Definition defined {A} (f : Field A) : option A :=
  match f with Given a => Some a | _ => None end.

(** [interface TooledPromptConfig], by the fields this file reads. *)
Record TooledPromptConfig : Type := {
  apiUrl : Field string;
  modelName : Field string;
  apiKey : Field string;
  maxIterations : Field Number;
  temperature : Field Number;
  stream : Field bool;
  timeout : Field Number;
  silent : Field bool;
  showThinking : Field bool
}.

(** [interface ResolvedTooledPromptConfig] *)
Record ResolvedTooledPromptConfig : Type := {
  r_apiUrl : string;
  r_modelName : string;
  r_apiKey : option string;
  r_maxIterations : option Number;
  r_temperature : option Number;
  r_stream : bool;
  r_timeout : Number;
  r_silent : bool;
  r_showThinking : bool
}.

(** [{}] *)
Definition empty : TooledPromptConfig :=
  {| apiUrl := Absent; modelName := Absent; apiKey := Absent;
     maxIterations := Absent; temperature := Absent; stream := Absent;
     timeout := Absent; silent := Absent; showThinking := Absent |}.

Definition DEFAULTS : ResolvedTooledPromptConfig :=
  {| r_apiUrl := EmptyString;
     r_modelName := EmptyString;
     r_apiKey := None;
     r_maxIterations := None;
     r_temperature := None;
     r_stream := true;
     r_timeout := of_Z 60000;
     r_silent := false;
     r_showThinking := false |}.

(** A resolved configuration where a [TooledPromptConfig] is expected:
    every property is present, some with the value [undefined]. *)
Definition as_config (r : ResolvedTooledPromptConfig) : TooledPromptConfig :=
  let opt {A} (o : option A) : Field A :=
    match o with Some a => Given a | None => Undefined end in
  {| apiUrl := Given (r_apiUrl r);
     modelName := Given (r_modelName r);
     apiKey := opt (r_apiKey r);
     maxIterations := opt (r_maxIterations r);
     temperature := opt (r_temperature r);
     stream := Given (r_stream r);
     timeout := Given (r_timeout r);
     silent := Given (r_silent r);
     showThinking := Given (r_showThinking r) |}.

Definition validateConfig (config : TooledPromptConfig) : Exc unit :=
  if match temperature config with
     | Given t => lt t (of_Z 0) || lt (of_Z 2) t
     | _ => false
     end
  then Err "temperature must be between 0 and 2"
  else if match maxIterations config with
          | Given n => lt n (of_Z 1) || negb (isInteger n)
          | _ => false
          end
  then Err "maxIterations must be a positive integer"
  else if match timeout config with
          | Given t => lt t (of_Z 0) || negb (isFinite t)
          | _ => false
          end
  then Err "timeout must be a positive number"
  else Ok tt.

(** [if (config.x !== undefined && result.x === undefined) result.x =
    config.x] *)
Definition fill {A} (result : option A) (field : Field A) : option A :=
  match result with
  | Some _ => result
  | None => defined field
  end.

(** The object [result] of [mergeConfigs]. *)
Record Merged : Type := {
  m_apiUrl : option string;
  m_modelName : option string;
  m_apiKey : option string;
  m_maxIterations : option Number;
  m_temperature : option Number;
  m_stream : option bool;
  m_timeout : option Number;
  m_silent : option bool;
  m_showThinking : option bool
}.

(** One pass through the body of [for (const config of configs)]. *)
Definition merge_one (result : Merged) (config : TooledPromptConfig) : Merged :=
  {| m_apiUrl := fill (m_apiUrl result) (apiUrl config);
     m_modelName := fill (m_modelName result) (modelName config);
     m_apiKey := fill (m_apiKey result) (apiKey config);
     m_maxIterations := fill (m_maxIterations result) (maxIterations config);
     m_temperature := fill (m_temperature result) (temperature config);
     m_stream := fill (m_stream result) (stream config);
     m_timeout := fill (m_timeout result) (timeout config);
     m_silent := fill (m_silent result) (silent config);
     m_showThinking := fill (m_showThinking result) (showThinking config) |}.

Definition nothing : Merged :=
  {| m_apiUrl := None; m_modelName := None; m_apiKey := None;
     m_maxIterations := None; m_temperature := None; m_stream := None;
     m_timeout := None; m_silent := None; m_showThinking := None |}.

(** [opt ?? fallback] where the fallback may be [undefined] itself *)
Definition or_else {A} (o fallback : option A) : option A :=
  match o with Some _ => o | None => fallback end.

Definition mergeConfigs (configs : list TooledPromptConfig)
  : ResolvedTooledPromptConfig :=
  let result := fold_left merge_one configs nothing in
  {| r_apiUrl := default (r_apiUrl DEFAULTS) (m_apiUrl result);
     r_modelName := default (r_modelName DEFAULTS) (m_modelName result);
     r_apiKey := or_else (m_apiKey result) (r_apiKey DEFAULTS);
     r_maxIterations := or_else (m_maxIterations result) (r_maxIterations DEFAULTS);
     r_temperature := or_else (m_temperature result) (r_temperature DEFAULTS);
     r_stream := default (r_stream DEFAULTS) (m_stream result);
     r_timeout := default (r_timeout DEFAULTS) (m_timeout result);
     r_silent := default (r_silent DEFAULTS) (m_silent result);
     r_showThinking := default (r_showThinking DEFAULTS) (m_showThinking result) |}.

(** The variables of the closure of [createTooledPrompt]. *)
Record Instance : Type := {
  initialConfig : TooledPromptConfig;
  instanceConfig : TooledPromptConfig
}.

(** [createTooledPrompt(config)], as far as the configuration goes. *)
Definition createTooledPrompt (config : TooledPromptConfig) : Exc Instance :=
  match validateConfig config with
  | Err e => Err e
  | Ok _ => Ok {| initialConfig := config; instanceConfig := empty |}
  end.

Definition resolveConfig (inst : Instance) (perCallConfig : TooledPromptConfig)
  : ResolvedTooledPromptConfig :=
  mergeConfigs [perCallConfig; instanceConfig inst; initialConfig inst;
                as_config DEFAULTS].

(** [{ ...a, ...b }], property by property. *)
Definition over {A} (a b : Field A) : Field A :=
  match b with Absent => a | _ => b end.

Definition spread (a b : TooledPromptConfig) : TooledPromptConfig :=
  {| apiUrl := over (apiUrl a) (apiUrl b);
     modelName := over (modelName a) (modelName b);
     apiKey := over (apiKey a) (apiKey b);
     maxIterations := over (maxIterations a) (maxIterations b);
     temperature := over (temperature a) (temperature b);
     stream := over (stream a) (stream b);
     timeout := over (timeout a) (timeout b);
     silent := over (silent a) (silent b);
     showThinking := over (showThinking a) (showThinking b) |}.

(** [setConfig(config)]: what it throws, and the instance afterwards. *)
Definition setConfig (config : TooledPromptConfig) (inst : Instance)
  : Exc unit * Instance :=
  match validateConfig config with
  | Err e => (Err e, inst)
  | Ok _ =>
      (Ok tt, {| initialConfig := initialConfig inst;
                 instanceConfig := spread (instanceConfig inst) config |})
  end.

(** The first of the given values of a property in a list of
    configurations. *)
Definition first_given {A} (field : TooledPromptConfig -> Field A)
    (configs : list TooledPromptConfig) : option A :=
  head (omap (fun c => defined (field c)) configs).

End Factory.

(** The instance after the calls [setConfig(c)] for the [c] of a list, one
    after another; a call that throws is caught and the next one made. *)
Definition after_setConfigs (configs : list Factory.TooledPromptConfig)
    (inst : Factory.Instance) : Factory.Instance :=
  fold_left (fun i c => (Factory.setConfig c i).2) configs inst.

(** A number a configuration may have for [maxIterations]: an integer that
    is not below 1. *)
Definition positive_integer (n : Factory.Number) : Prop :=
  Factory.isInteger n = true /\ Factory.lt n (Factory.of_Z 1) = false.

(** A number a configuration may have for [timeout]: finite and not below
    0. *)
Definition finite_not_negative (t : Factory.Number) : Prop :=
  Factory.isFinite t = true /\ Factory.lt t (Factory.of_Z 0) = false.

Definition only_maxIterations (n : Z) : Factory.TooledPromptConfig :=
  {| Factory.apiUrl := Factory.Absent; Factory.modelName := Factory.Absent;
     Factory.apiKey := Factory.Absent;
     Factory.maxIterations := Factory.Given (Factory.of_Z n);
     Factory.temperature := Factory.Absent; Factory.stream := Factory.Absent;
     Factory.timeout := Factory.Absent; Factory.silent := Factory.Absent;
     Factory.showThinking := Factory.Absent |}.

Definition only_apiUrl (u : Factory.Field string) : Factory.TooledPromptConfig :=
  {| Factory.apiUrl := u; Factory.modelName := Factory.Absent;
     Factory.apiKey := Factory.Absent;
     Factory.maxIterations := Factory.Absent;
     Factory.temperature := Factory.Absent; Factory.stream := Factory.Absent;
     Factory.timeout := Factory.Absent; Factory.silent := Factory.Absent;
     Factory.showThinking := Factory.Absent |}.

(** Both configurations an instance keeps have passed [validateConfig]. *)
Definition valid_instance (inst : Factory.Instance) : Prop :=
  Factory.validateConfig (Factory.initialConfig inst) = Ok tt
  /\ Factory.validateConfig (Factory.instanceConfig inst) = Ok tt.

(* ===================================================================== *)
(** ** events.ts: the default handlers                                   *)
(* ===================================================================== *)

Module Events.

(** What the handlers write. *)
Inductive Output : Type :=
| Stdout (text : string)                 (* writeStdout(text) *)
| ConsoleLog (args : list string)        (* console.log(...args) *)
| ConsoleError (args : list string).     (* console.error(...args) *)

(** What the handlers find around them when an event arrives: whether
    [NO_COLOR] is in the environment, and what the getters [isSilent] and
    [showThinking] return. *)
Record Flags : Type := {
  noColor : bool;
  silent : bool;
  showThinking : bool
}.

Definition esc : string := String "027"%char EmptyString.

Definition wrap (noColor : bool) (style text : string) : string :=
  if noColor then text
  else esc +:+ "[" +:+ style +:+ "m" +:+ text +:+ esc +:+ "[0m".

(** [kind] is [true] for ['thinking']. *)
Definition formatLabel (noColor : bool) (text : string) (thinking : bool) : string :=
  if thinking then wrap noColor "33" text else wrap noColor "1" text.

(** [Object.entries(v)]; [None] where it throws the engine's
    [TypeError]. *)
Definition Object_entries (v : JsValue) : option (list (string * JsValue)) :=
  match v with
  | VUndef | VNull => None
  | VObj props => Some props
  | VArr items => Some (imap (fun i x => (pretty i, x)) items)
  | VStr s =>
      Some (imap (fun i c => (pretty i, VStr (String c EmptyString)))
                 (String.list_ascii_of_string s))
  | VBool _ | VNum _ | VFloat _ | VIter _ _ => Some []
  end.

(** One entry of [argParts]. *)
Definition argPart (key : string) (value : JsValue) : string :=
  match value with
  | VStr s =>
      if (100 <? String.length s)%nat
      then "  " +:+ key +:+ ": " +:+ in_quotes (String.substring 0 100 s +:+ "...")
           +:+ " (" +:+ pretty (String.length s) +:+ " chars)"
      else "  " +:+ key +:+ ": " +:+ in_quotes s
  | _ => "  " +:+ key +:+ ": " +:+ JSON_stringify value
  end.

Definition defaultToolCallHandler (noColor : bool)
    (toolName : string) (args : JsValue) : option (list Output) :=
  entries ← Object_entries args;
  let argParts := map (fun kv => argPart kv.1 kv.2) entries in
  Some [ConsoleLog
        [wrap noColor "36"
           (newline +:+ "[Tool] " +:+ toolName +:+ "("
            +:+ match argParts with
                | [] => ")"
                | _ => newline +:+ join newline argParts +:+ newline +:+ ")"
                end)]].

Definition defaultToolResultHandler (noColor : bool) (result : string)
  : list Output :=
  let display :=
    if (200 <? String.length result)%nat
    then String.substring 0 200 result +:+ "... ("
         +:+ pretty (String.length result) +:+ " total chars)"
    else result in
  [ConsoleLog [wrap noColor "32" "[Result]:"; display]].

Definition defaultToolErrorHandler (noColor : bool) (toolName error : string)
  : list Output :=
  [ConsoleError [wrap noColor "31" ("[Error] " +:+ toolName +:+ ":"); error]].

(** The variables [inThinking] and [hasContent] of the closure of
    [installDefaultHandlers]. *)
Record State : Type := {
  inThinking : bool;
  hasContent : bool
}.

Definition initial : State := {| inThinking := false; hasContent := false |}.

(** The handler [installDefaultHandlers] subscribes to the kind of event
    [e], applied to it: the variables afterwards, and what was written or
    the exception thrown.  ([console.warn] is not an event of the
    emitter.) *)
Definition handle (f : Flags) (st : State) (e : Event)
  : State * option (list Output) :=
  match e with
  | EStart => ({| inThinking := false; hasContent := false |}, Some [])
  | EThinking chunk =>
      let label :=
        if inThinking st then []
        else if silent f then []
        else Stdout (newline +:+ formatLabel (noColor f) "[Thinking]" true +:+ " ")
             :: (if showThinking f then [] else [Stdout "..."]) in
      ({| inThinking := true; hasContent := hasContent st |},
       Some (label ++ if negb (silent f) && showThinking f
                      then [Stdout (wrap (noColor f) "2;3" chunk)] else []))
  | EContent chunk =>
      let label :=
        if hasContent st then []
        else if silent f then []
        else [Stdout ((if inThinking st then newline +:+ newline else newline)
                      +:+ formatLabel (noColor f) "[Response]" false +:+ " ")] in
      ({| inThinking := if hasContent st then inThinking st else false;
          hasContent := true |},
       Some (label ++ if silent f then [] else [Stdout chunk]))
  | EToolCall toolName args =>
      ({| inThinking := false; hasContent := false |},
       if silent f then Some []
       else defaultToolCallHandler (noColor f) toolName args)
  | EToolResult _ result =>
      (st, Some (if silent f then []
                 else defaultToolResultHandler (noColor f) result))
  | EToolError toolName error =>
      (st, Some (if silent f then []
                 else defaultToolErrorHandler (noColor f) toolName error))
  | EConsoleWarn _ => (st, Some [])
  end.

(** The events of a run, each with the flags found when it arrives,
    handled one after another: the variables at the end, what was written,
    and whether a handler has thrown, which ends the run. *)
Fixpoint run (st : State) (events : list (Flags * Event))
  : State * list Output * bool :=
  match events with
  | [] => (st, [], false)
  | (f, e) :: rest =>
      match handle f st e with
      | (st', None) => (st', [], true)
      | (st', Some out) =>
          let '(st'', outs, thrown) := run st' rest in
          (st'', out ++ outs, thrown)
      end
  end.

(** The text written to the standard output, put together. *)
Definition stdout_text (outs : list Output) : string :=
  fold_right (fun o acc => match o with
                           | Stdout text => text +:+ acc
                           | _ => acc
                           end) EmptyString outs.

(** The events [events], all arriving under the flags [f]. *)
Definition under (f : Flags) (events : list Event) : list (Flags * Event) :=
  map (fun e => (f, e)) events.

End Events.

Definition silent_flags : Events.Flags :=
  {| Events.noColor := true; Events.silent := true; Events.showThinking := false |}.

Definition plain_flags : Events.Flags :=
  {| Events.noColor := true; Events.silent := false;
     Events.showThinking := false |}.

(* ===================================================================== *)
(** ** Notions for schemas and data URLs                                 *)
(* ===================================================================== *)

(** Every object of type ['object'] in [v], at any depth, says
    [additionalProperties: false]. *)
Fixpoint closed_objects (v : JsValue) : bool :=
  match v with
  | VObj props =>
      (if is_object_type props
       then match obj_get props "additionalProperties" with
            | VBool false => true
            | _ => false
            end
       else true)
      && forallb (fun kv => match kv with (_, x) => closed_objects x end) props
  | VArr items => forallb closed_objects items
  | _ => true
  end.

(** A nested schema: an object with an object property and an array of
    objects. *)
Definition nested_schema : JsValue :=
  VObj [("type", VStr "object");
        ("properties",
         VObj [("address",
                VObj [("type", VStr "object");
                      ("properties", VObj [("city", VObj [("type", VStr "string")])])]);
               ("tags",
                VObj [("type", VStr "array");
                      ("items", VObj [("type", VStr "object")])])]);
        ("anyOf", VArr [VObj [("type", VStr "object")]; VNull])].

(** What [enforceAdditionalProperties] puts in the place of a property
    value: an array is mapped item by item, an object is walked into, any
    other value stays. *)
Definition enforced_value (v : JsValue) : JsValue :=
  match v with
  | VArr items =>
      VArr (map (fun item =>
                   match item with
                   | VObj _ | VArr _ => enforceAdditionalProperties item
                   | _ => item
                   end) items)
  | VObj _ => enforceAdditionalProperties v
  | _ => v
  end.

(** The text is made of decimal digits. *)
Fixpoint digits_only (s : string) : bool :=
  match s with
  | EmptyString => true
  | String c rest => is_digit c && digits_only rest
  end.

(* ===================================================================== *)
(** ** image.ts and the prompt text of executor.ts                       *)
(* ===================================================================== *)

Module Template.

(** A value interpolated in a prompt template, by the cases the code tells
    apart. *)
Inductive Value : Type :=
| TText (s : string)              (* a string *)
| TNothing                        (* undefined or null *)
| TBytes (bytes : list ascii)     (* a Uint8Array or Buffer *)
| TImage (url : string)           (* an ImageMarker *)
| TTool (meta : ToolMetadata)     (* a function that carries TOOL_SYMBOL *)
| TOther (text : string).         (* any other value; [text] is String(value) *)

Definition base64_char (n : N) : ascii :=
  (if n <? 26 then ascii_of_N (65 + n)
   else if n <? 52 then ascii_of_N (97 + (n - 26))
   else if n <? 62 then ascii_of_N (48 + (n - 52))
   else if n =? 62 then "+"%char
   else "/"%char)%N.

(** [Buffer.from(bytes).toString('base64')] *)
Fixpoint base64 (bytes : list ascii) : string :=
  let c (n : N) := base64_char (n mod 64) in
  match bytes with
  | [] => EmptyString
  | [a] =>
      let x := N_of_ascii a in
      String (c (x / 4)) (String (c (x mod 4 * 16)) "==")
  | [a; b] =>
      let x := N_of_ascii a in
      let y := N_of_ascii b in
      String (c (x / 4))
        (String (c (x mod 4 * 16 + y / 16)) (String (c (y mod 16 * 4)) "="))
  | a :: b :: d :: rest =>
      let x := N_of_ascii a in
      let y := N_of_ascii b in
      let z := N_of_ascii d in
      String (c (x / 4))
        (String (c (x mod 4 * 16 + y / 16))
           (String (c (y mod 16 * 4 + z / 64))
              (String (c (z mod 64)) (base64 rest))))
  end%N.

(** [`data:${mime};base64,${base64}`] *)
Definition dataUrl (mime data : string) : string :=
  "data:" +:+ mime +:+ ";base64," +:+ data.

Section Image.

(** [fileTypeFromBuffer(bytes)?.mime] of the package [file-type]. *)
Variable fileTypeFromBuffer : list ascii -> option string.

Definition is_bytes (v : Value) : bool :=
  match v with TBytes _ => true | _ => false end.

(** [processImageValues(values)] *)
Definition processImageValues (values : list Value) : list Value :=
  if existsb is_bytes values then
    map (fun value =>
           match value with
           | TBytes bytes =>
               let mime :=
                 default "application/octet-stream" (fileTypeFromBuffer bytes) in
               TImage (dataUrl mime (base64 bytes))
           | _ => value
           end) values
  else values.

End Image.

(** [isImageMarker(value)] *)
Definition isImageMarker (v : Value) : bool :=
  match v with TImage _ => true | _ => false end.

(** What a value that is not an image adds to the text. *)
Definition value_text (v : Value) : string :=
  match v with
  | TTool meta => "the " +:+ in_quotes (name meta) +:+ " tool"
  | TText s => s
  | TNothing => EmptyString
  | TBytes bytes =>
      join "," (map (fun b => pretty (N_of_ascii b)) bytes)   (* String(array) *)
  | TOther text => text
  | TImage _ => "[object Object]"
  end.

(** [text.split('\n').map((line) => line.trimEnd()).join('\n')] *)
Definition clean_lines (text : string) : string :=
  join newline (map trimEnd (split_lines text)).

(** The loop of the path without images. *)
Fixpoint plain_text (strings : list string) (values : list Value) : string :=
  match strings with
  | [] => EmptyString
  | s :: strings' =>
      match values with
      | [] => s +:+ plain_text strings' []
      | value :: values' => s +:+ value_text value +:+ plain_text strings' values'
      end
  end.

(** [flushText()]: the parts afterwards ([textBuffer] is then empty). *)
Definition flushText (parts : list ContentPart) (textBuffer : string)
  : list ContentPart :=
  if nonempty textBuffer then parts ++ [TextPart (clean_lines textBuffer)]
  else parts.

(** The loop of the path with images, then the last [flushText()]. *)
Fixpoint image_parts (strings : list string) (values : list Value)
    (parts : list ContentPart) (textBuffer : string) : list ContentPart :=
  match strings with
  | [] => flushText parts textBuffer
  | s :: strings' =>
      match values with
      | [] => image_parts strings' [] parts (textBuffer +:+ s)
      | TImage url :: values' =>
          image_parts strings' values'
            (flushText parts (textBuffer +:+ s) ++ [ImagePart url]) EmptyString
      | value :: values' =>
          image_parts strings' values' parts (textBuffer +:+ s +:+ value_text value)
      end
  end.

(** [parts[0].text = parts[0].text.replace(/^\s+/, '')] when the first
    part is text. *)
Definition trim_first (parts : list ContentPart) : list ContentPart :=
  match parts with
  | TextPart t :: rest => TextPart (trimStart t) :: rest
  | _ => parts
  end.

(** The same for the end of the last part. *)
Fixpoint trim_last (parts : list ContentPart) : list ContentPart :=
  match parts with
  | [] => []
  | [TextPart t] => [TextPart (trimEnd t)]
  | p :: rest => p :: trim_last rest
  end.

(** [buildPromptText(strings, values)] *)
Definition buildPromptText (strings : list string) (values : list Value)
  : PromptContent :=
  if existsb isImageMarker values then
    Parts (trim_last (trim_first (image_parts strings values [] EmptyString)))
  else
    PlainText (trim (clean_lines (plain_text strings values))).

(** The images among the values a template of [n] strings reaches. *)
Definition images_of (n : nat) (values : list Value) : list string :=
  omap (fun v => match v with TImage url => Some url | _ => None end)
       (take n values).

(** The images among the parts of a prompt. *)
Definition part_images (parts : list ContentPart) : list string :=
  omap (fun p => match p with ImagePart url => Some url | _ => None end) parts.

(** No two text parts follow each other. *)
Fixpoint texts_apart (parts : list ContentPart) : bool :=
  match parts with
  | TextPart _ :: ((TextPart _ :: _) as rest) => false
  | _ :: rest => texts_apart rest
  | [] => true
  end.

End Template.

(** The text has no semicolon. *)
Fixpoint no_semicolon (s : string) : bool :=
  match s with
  | EmptyString => true
  | String c rest => negb (N_of_ascii c =? 59)%N && no_semicolon rest
  end.

(** The text is made of the characters of base64 and its padding. *)
Fixpoint base64_text (s : string) : bool :=
  match s with
  | EmptyString => true
  | String c rest =>
      let n := N_of_ascii c in
      (((65 <=? n) && (n <=? 90)) || ((97 <=? n) && (n <=? 122))
       || ((48 <=? n) && (n <=? 57)) || (n =? 43) || (n =? 47) || (n =? 61))%N
      && base64_text rest
  end.

(** A recogniser of file types that knows PNG by its first byte. *)
Definition png_only (bytes : list ascii) : option string :=
  match bytes with
  | b :: _ => if (N_of_ascii b =? 137)%N then Some "image/png" else None
  | [] => None
  end.

(* ===================================================================== *)
(** ** parser.ts and tool.ts                                             *)
(* ===================================================================== *)

(** [s.split(sep)] for a separator of one character: the pieces between
    its occurrences, at least one. *)
Fixpoint split_on (sep : ascii) (s : string) : list string :=
  match s with
  | EmptyString => [EmptyString]
  | String c rest =>
      if Ascii.eqb c sep then EmptyString :: split_on sep rest
      else
        match split_on sep rest with
        | l :: ls => String c l :: ls
        | [] => [String c EmptyString]
        end
  end.

(** [s.split(sep)[0]] *)
Definition before (sep : ascii) (s : string) : string :=
  default EmptyString (head (split_on sep s)).

(** [s.includes(c)] *)
Fixpoint includes (c : ascii) (s : string) : bool :=
  match s with
  | EmptyString => false
  | String x rest => Ascii.eqb x c || includes c rest
  end.

(** [s.endsWith(c)] *)
Fixpoint endsWith (c : ascii) (s : string) : bool :=
  match s with
  | EmptyString => false
  | String x EmptyString => Ascii.eqb x c
  | String _ rest => endsWith c rest
  end.

(** [s.replace(c, '')]: the first occurrence is taken out. *)
Fixpoint remove_first (c : ascii) (s : string) : string :=
  match s with
  | EmptyString => EmptyString
  | String x rest => if Ascii.eqb x c then rest else String x (remove_first c rest)
  end.

Module Parser.

(** An entry of [ParsedFunction.params]. *)
Record Param : Type := { p_name : string; p_optional : bool }.

(** [interface ParsedFunction] *)
Record ParsedFunction : Type := {
  pf_name : string;
  params : list Param
}.

(** [\w] *)
Definition is_word (c : ascii) : bool :=
  let n := N_of_ascii c in
  (((65 <=? n) && (n <=? 90)) || ((97 <=? n) && (n <=? 122))
   || ((48 <=? n) && (n <=? 57)) || (n =? 95))%N.

(** The longest run of word characters at the start of a text, and what
    follows. *)
Fixpoint span_word (s : string) : string * string :=
  match s with
  | String c rest =>
      if is_word c
      then let '(w, r) := span_word rest in (String c w, r)
      else (EmptyString, s)
  | EmptyString => (EmptyString, s)
  end.

(** [async] and white space at the start of a text: what follows them. *)
Definition after_async (s : string) : option string :=
  rest ← strip_prefix "async" s;
  match strip_space rest with
  | Some _ => Some (trimStart rest)
  | None => None
  end.

(** What stands before the first closing parenthesis of a text that has
    one. *)
Fixpoint until_paren (s : string) : option string :=
  match s with
  | EmptyString => None
  | String c rest =>
      if (N_of_ascii c =? 41)%N then Some EmptyString
      else String c <$> until_paren rest
  end.

(** The first pattern of [parseFunction] after its optional [async]: an
    optional [function] with white space and a name, white space, and a
    parenthesised group without a closing parenthesis inside.  The result
    is the group of a text that matches. *)
Definition signature_group (s1 : string) : option string :=
  let s2 :=
    match strip_prefix "function" s1 with
    | Some r => (span_word (trimStart r)).2
    | None => s1
    end in
  match trimStart s2 with
  | String c r => if (N_of_ascii c =? 40)%N then until_paren r else None
  | EmptyString => None
  end.

(** The first pattern of [parseFunction], matched at the start of the
    text: an optional [async] with white space, then the rest. *)
Definition match_signature (str : string) : option string :=
  signature_group (default str (after_async str)).

(** A word, white space and [=>] at the start of a text: the word. *)
Definition word_arrow (s : string) : option string :=
  let '(w, r) := span_word s in
  if nonempty w then
    match trimStart r with
    | String c (String d _) =>
        if ((N_of_ascii c =? 61) && (N_of_ascii d =? 62))%N then Some w else None
    | _ => None
    end
  else None.

(** The second pattern of [parseFunction]: an optional [async] with white
    space, then a word, white space and [=>].  When the text after [async]
    does not go on like this, [async] itself may be the word. *)
Definition match_arrow (str : string) : option string :=
  match after_async str ≫= word_arrow with
  | Some w => Some w
  | None => word_arrow str
  end.

(** The entry made of one piece of the parameter list. *)
Definition param_of (p : string) : Param :=
  let hasDefault := includes "="%char p in
  let paramName := trim (before "="%char (before ":"%char p)) in
  let hasTsOptional := endsWith "?"%char paramName in
  {| p_name := remove_first "?"%char paramName;
     p_optional := hasDefault || hasTsOptional |}.

(** The entries made of the text between the parentheses. *)
Definition params_of (paramsStr : string) : list Param :=
  if nonempty (trim paramsStr) then
    map param_of
      (List.filter nonempty (map trim (split_on ","%char paramsStr)))
  else [].

(** [parseFunction(fn)], for a function with the name [fnName] and the
    source text [str]. *)
Definition parseFunction (fnName str : string) : ParsedFunction :=
  let matched :=
    match match_signature str with
    | Some g => Some g
    | None => match_arrow str
    end in
  {| pf_name := str_or fnName "anonymous";
     params := params_of (default EmptyString matched) |}.

End Parser.

Module Tool.

(** A function as [tool] sees it: its name, its source text, and the
    metadata it carries when it has been made a tool. *)
Record JsFunction : Type := {
  fn_name : string;
  fn_source : string;
  fn_tool : option ToolMetadata
}.

(** An entry of [options.args]: a description, or a name with a
    description.  (Zod schemas are left out.) *)
Inductive ArgDescriptor : Type :=
| Described (description : string)
| Named (paramName description : string).

Definition string_property (description : string) : JsValue :=
  VObj [("type", VStr "string"); ("description", VStr description)].

Definition object_schema (properties : list (string * JsValue))
    (required : list string) : JsonSchema :=
  {| properties := Some properties;
     required := match required with [] => None | _ => Some required end;
     extra := [("additionalProperties", VBool false)] |}.

(** [inferSchema(parsed)] *)
Definition inferSchema (parsed : Parser.ParsedFunction) : JsonSchema :=
  let '(properties, required) :=
    fold_left
      (fun (acc : list (string * JsValue) * list string) (param : Parser.Param) =>
         (obj_set acc.1 (Parser.p_name param)
            (string_property ("The " +:+ Parser.p_name param +:+ " argument")),
          if Parser.p_optional param then acc.2
          else acc.2 ++ [Parser.p_name param]))
      (Parser.params parsed) ([], []) in
  object_schema properties required.

(** The name an entry of [options.args] gives its property: its own, or
    that of the parameter at its index, or [arg] with the index. *)
Definition descriptor_name (parsedParam : option Parser.Param) (i : nat)
    (elem : ArgDescriptor) : string :=
  match elem with
  | Described _ => opt_or (Parser.p_name <$> parsedParam) ("arg" +:+ pretty i)
  | Named paramName _ => paramName
  end.

Definition descriptor_text (elem : ArgDescriptor) : string :=
  match elem with
  | Described description => description
  | Named _ description => description
  end.

(** The loop over [options.args] in [toolImpl], from index [i] on. *)
Fixpoint describe (parsedParams : list Parser.Param) (i : nat)
    (arr : list ArgDescriptor)
    (acc : list (string * JsValue) * list string)
  : list (string * JsValue) * list string :=
  match arr with
  | [] => acc
  | elem :: rest =>
      let parsedParam := parsedParams !! i in
      let paramName := descriptor_name parsedParam i elem in
      describe parsedParams (S i) rest
        (obj_set acc.1 paramName (string_property (descriptor_text elem)),
         if default false (Parser.p_optional <$> parsedParam)
         then acc.2 else acc.2 ++ [paramName])
  end.

(** [toolImpl(fn, explicitName, description, schema)] with the counter
    [anonymousCounter] before the call: the function returned and the
    counter afterwards. *)
Definition toolImpl (fn : JsFunction) (explicitName description : option string)
    (schema : option (list ArgDescriptor)) (anonymousCounter : nat)
  : JsFunction * nat :=
  match fn_tool fn with
  | Some _ => (fn, anonymousCounter)
  | None =>
      let parsed := Parser.parseFunction (fn_name fn) (fn_source fn) in
      let '(toolName, counter) :=
        if truthy_str explicitName then (default EmptyString explicitName,
                                         anonymousCounter)
        else if nonempty (fn_name fn) then (fn_name fn, anonymousCounter)
        else ("tool_" +:+ pretty (S anonymousCounter), S anonymousCounter) in
      let parameters :=
        match schema with
        | Some arr =>
            let '(properties, required) :=
              describe (Parser.params parsed) 0 arr ([], []) in
            object_schema properties required
        | None => inferSchema parsed
        end in
      ({| fn_name := fn_name fn;
          fn_source := fn_source fn;
          fn_tool :=
            Some {| name := toolName;
                    description :=
                      opt_or description ("The " +:+ toolName +:+ " function");
                    parameters := parameters |} |},
       counter)
  end.

(** The first argument of [tool]: a function, or an object whose entries
    are given with their values, [None] for a value that is not a
    function. *)
Inductive ToolInput : Type :=
| Direct (fn : JsFunction)
| NamedFunction (entries : list (string * option JsFunction)).

(** [tool(fnOrNamed, options)] with [description] and [args] the fields of
    [options]: the function returned and the counter afterwards, or the
    error thrown (the counter is then what it was). *)
Definition tool (fnOrNamed : ToolInput) (description : option string)
    (args : option (list ArgDescriptor)) (anonymousCounter : nat)
  : Exc (JsFunction * nat) :=
  match fnOrNamed with
  | NamedFunction entries =>
      match entries with
      | [(name, fn)] =>
          match fn with
          | Some fn => Ok (toolImpl fn (Some name) description args anonymousCounter)
          | None => Err "tool() object value must be a function"
          end
      | _ =>
          Err "tool() object syntax requires exactly one function: tool({ myFunc })"
      end
  | Direct fn => Ok (toolImpl fn None description args anonymousCounter)
  end.

End Tool.

(** The text of a parameter as it stands in the source of a function: its
    name, and its default value when it has one. *)
Definition render_param (p : string * option string) : string :=
  match p.2 with
  | Some value => p.1 +:+ " = " +:+ value
  | None => p.1
  end.

(** The parameters as they stand between the parentheses. *)
Definition parameter_list (ps : list (string * option string)) : string :=
  join ", " (map render_param ps).

(** A name made of letters, digits and underscores. *)
Fixpoint word (s : string) : bool :=
  match s with
  | EmptyString => true
  | String c rest => Parser.is_word c && word rest
  end.

(** A parameter with a name that is a word, and a default value, if it has
    one, without a comma and without a closing parenthesis. *)
Definition plain_param (p : string * option string) : bool :=
  nonempty p.1 && word p.1
  && match p.2 with
     | Some value => negb (includes ","%char value) && negb (includes ")"%char value)
     | None => true
     end.

(** The shapes of source text [parseFunction] is written for: a function
    declaration or expression with its name (which may be empty), an arrow
    function with its parameters in parentheses, an arrow function with
    one parameter without parentheses. *)
Inductive FunctionForm : Type :=
| Declared (fname : string) (ps : list (string * option string))
| Parenthesised (ps : list (string * option string))
| Single (x : string).

Definition form_params (form : FunctionForm) : list (string * option string) :=
  match form with
  | Declared _ ps => ps
  | Parenthesised ps => ps
  | Single x => [(x, None)]
  end.

Definition plain_form (form : FunctionForm) : bool :=
  match form with
  | Declared fname ps => word fname && forallb plain_param ps
  | Parenthesised ps => forallb plain_param ps
  | Single x => plain_param (x, None)
  end.

(** The source text of a function of the form [form], [async] or not;
    [body] is what follows the signature. *)
Definition render_function (async : bool) (form : FunctionForm) (body : string)
  : string :=
  (if async then "async " else EmptyString)
  +:+ match form with
      | Declared fname ps =>
          "function " +:+ fname +:+ "(" +:+ parameter_list ps +:+ ")" +:+ body
      | Parenthesised ps => "(" +:+ parameter_list ps +:+ ")" +:+ body
      | Single x => x +:+ " => " +:+ body
      end.

(** The entry [parseFunction] is to make of a parameter. *)
Definition declared (p : string * option string) : Parser.Param :=
  {| Parser.p_name := p.1;
     Parser.p_optional := match p.2 with Some _ => true | None => false end |}.

(** The source text of a method, [async] or not: its name, and what
    follows from the opening parenthesis on. *)
Definition render_method (async : bool) (mname rest : string) : string :=
  (if async then "async " else EmptyString) +:+ mname +:+ "(" +:+ rest.


(** The names the loop over [options.args] gives the properties, for the
    entries from index [i] on. *)
Definition described_names (parsedParams : list Parser.Param) (i : nat)
    (arr : list Tool.ArgDescriptor) : list string :=
  imap (fun j elem =>
          Tool.descriptor_name (parsedParams !! (i + j)%nat) (i + j) elem) arr.


(** The metadata of a function that has been made a tool. *)
Definition metadata_of (fn : Tool.JsFunction) : ToolMetadata :=
  default {| name := EmptyString; description := EmptyString;
             parameters := string_params [] |}
          (Tool.fn_tool fn).


(* ===================================================================== *)
(** ** JSON texts and the values they stand for                          *)
(* ===================================================================== *)

(** The text stops a number literal: it is empty, or begins with a comma,
    a closing bracket or a closing brace. *)
Definition number_stop (rest : string) : bool :=
  match rest with
  | EmptyString => true
  | String c _ =>
      let n := N_of_ascii c in ((n =? 44) || (n =? 93) || (n =? 125))%N
  end.

(** The stages of [parse_number]: the sign, the fraction, the exponent,
    and the value made of the parts. *)
Definition sign_of (s : string) : bool * string :=
  match s with
  | String "-"%char r => (true, r)
  | _ => (false, s)
  end.

Definition fraction_of (s2 : string) : option string * string :=
  match s2 with
  | String "."%char r => let '(d, r') := span_digits r in (Some d, r')
  | _ => (None, s2)
  end.

Definition exponent_sign (r : string) : string * string :=
  match r with
  | String "+"%char r' => ("+", r')
  | String "-"%char r' => ("-", r')
  | _ => (EmptyString, r)
  end.

Definition exponent_of (s3 : string) : option (string * string) * string :=
  match s3 with
  | String e r =>
      if (N_of_ascii e =? 101)%N || (N_of_ascii e =? 69)%N then
        let '(sign, r1) := exponent_sign r in
        let '(d, r2) := span_digits r1 in
        (Some (String e sign, d), r2)
      else (None, s3)
  | EmptyString => (None, s3)
  end.

Definition number_of (neg : bool) (int : string) (frac : option string)
    (exp : option (string * string)) (s4 : string) : option (JsValue * string) :=
  let integer := if neg then - digits_val int else digits_val int in
  match frac, exp with
  | None, None => Some (VNum integer, s4)
  | Some EmptyString, _ | _, Some (_, EmptyString) => None
  | _, _ =>
      if all_zero int && all_zero (default EmptyString frac)
      then Some (VNum 0, s4)
      else if all_zero (default EmptyString frac)
              && match exp with None => true | Some _ => false end
      then Some (VNum integer, s4)
      else
        Some (VFloat ((if neg then "-" else EmptyString) +:+ int +:+
                      match frac with
                      | Some d => "." +:+ d
                      | None => EmptyString
                      end +:+
                      match exp with
                      | Some (e, d) => e +:+ d
                      | None => EmptyString
                      end),
              s4)
  end.

(** The digits of a number literal are acceptable: there is one, and no
    zero in front of another. *)
Definition integer_digits (int : string) : bool :=
  match int with
  | EmptyString => false
  | String "0"%char (String _ _) => false
  | _ => true
  end.

(** A value as [JSON.parse] returns them: no [undefined] and no iterator
    in it, the keys of every object distinct, and every number that is
    kept by its text kept by the text [JSON.parse] reads it from. *)
Fixpoint json_value (v : JsValue) : bool :=
  match v with
  | VUndef | VIter _ _ => false
  | VNull | VBool _ | VNum _ | VStr _ => true
  | VFloat lit =>
      match parse_number lit with
      | Some (VFloat l, EmptyString) => String.eqb l lit
      | _ => false
      end
  | VArr items => forallb json_value items
  | VObj props =>
      bool_decide (NoDup (map fst props))
      && forallb (fun kv => json_value (snd kv)) props
  end.

(** An object among these values. *)
Definition json_object (v : JsValue) : bool :=
  match v with
  | VObj _ => json_value v
  | _ => false
  end.

(** A character the text of a value may begin with. *)
Definition value_start (c : ascii) : bool :=
  let n := N_of_ascii c in
  ((n =? 34) || (n =? 91) || (n =? 123) || (n =? 110) || (n =? 116)
   || (n =? 102) || (n =? 45) || is_digit c)%N.

(** A character a number literal may begin with. *)
Definition number_start (c : ascii) : bool :=
  ((N_of_ascii c =? 45)%N || is_digit c).

(** The text [JSON.stringify] makes of an element of an array. *)
Definition element_text (x : JsValue) : string := default "null" (stringify x).

(** The text [JSON.stringify] makes of a property of an object whose value
    is not [undefined]. *)
Definition member_text (kv : string * JsValue) : string :=
  quote kv.1 +:+ ":" +:+ element_text kv.2.

(** The text of a value is read back as the value, whatever follows it
    that stops a number, and with any fuel that is not below the length of
    the text. *)
Definition read_back (v : JsValue) : Prop :=
  exists c t,
    stringify v = Some (String c t)
    /\ value_start c = true
    /\ forall rest f,
         number_stop rest = true ->
         (String.length (String c t) <= f)%nat ->
         parse_value f (String c t +:+ rest) = Some (v, rest).

(** A [tool_use] block of a response of Anthropic that the loop
    dispatches: it has an id and a name. *)
Definition Anthropic_dispatched (b : Anthropic.WireBlock) : bool :=
  String.eqb (Anthropic.b_type b) "tool_use"
  && truthy_str (Anthropic.b_id b) && truthy_str (Anthropic.b_name b).

(** The block of an assistant turn that hands a [tool_use] block back as
    it came. *)
Definition Anthropic_echo (b : Anthropic.WireBlock) : JsValue :=
  VObj [("type", VStr "tool_use");
        ("id", VStr (default EmptyString (Anthropic.b_id b)));
        ("name", VStr (default EmptyString (Anthropic.b_name b)));
        ("input", Anthropic.b_input b)].

(** A tool call of a response of Ollama that the loop dispatches: it has
    a name. *)
Definition Ollama_named (tc : Ollama.WireToolCall) : bool :=
  truthy_str (Ollama.w_function tc ≫= Ollama.f_name).

(** The arguments of a tool call of Ollama, [undefined] when it has no
    function. *)
Definition Ollama_arguments (tc : Ollama.WireToolCall) : JsValue :=
  default VUndef (Ollama.f_arguments <$> Ollama.w_function tc).

(** The entry of an assistant turn that hands a tool call back as it
    came. *)
Definition Ollama_echo (tc : Ollama.WireToolCall) : JsValue :=
  VObj [("function",
         VObj [("name",
                VStr (default EmptyString (Ollama.w_function tc ≫= Ollama.f_name)));
               ("arguments", Ollama_arguments tc)])].

(** A response of Anthropic, not streamed, with a text and the call
    [get_weather({"city":"Paris","days":3})]. *)
Definition weather_blocks : list Anthropic.WireBlock :=
  [ {| Anthropic.b_type := "text"; Anthropic.b_text := Some "Let me check.";
       Anthropic.b_id := None; Anthropic.b_name := None;
       Anthropic.b_input := VUndef |};
    {| Anthropic.b_type := "tool_use"; Anthropic.b_text := None;
       Anthropic.b_id := Some "toolu_1"; Anthropic.b_name := Some "get_weather";
       Anthropic.b_input := VObj [("city", VStr "Paris"); ("days", VNum 3)] |} ].

(** The same call in a response of Ollama. *)
Definition weather_calls : list Ollama.WireToolCall :=
  [ {| Ollama.w_function :=
         Some {| Ollama.f_name := Some "get_weather";
                 Ollama.f_arguments :=
                   VObj [("city", VStr "Paris"); ("days", VNum 3)] |} |} ].

(* ===================================================================== *)
(** ** factory.ts: the tools of a template                               *)
(* ===================================================================== *)

Module Prompt.

(** A value interpolated in a template, by the cases the loop of [prompt]
    tells apart.  A function is an object: it is given by its place in the
    store of functions, and two places of a template may hold the same
    function. *)
Inductive Value : Type :=
| Sentinel                  (* an object that has RETURN_SYMBOL *)
| Function (l : nat)        (* a function, by its place in the store *)
| Other.                    (* any other value *)

(** What the loop reads and writes: the functions (which [tool] marks in
    place), the counter of tool.ts, [tools] (the functions pushed, by
    their places), [returnIndices], and the warnings written with
    [console.warn]. *)
Record State : Type := {
  functions : list Tool.JsFunction;
  anonymousCounter : nat;
  tools : list nat;
  returnIndices : list nat;
  warnings : list string
}.

(** [s.slice(-n)] *)
Definition slice_last (n : nat) (s : string) : string :=
  String.substring (String.length s - n) n s.

(** [s.slice(0, n)] *)
Definition slice_first (n : nat) (s : string) : string :=
  String.substring 0 n s.

(** The warning sign and its variation selector, U+26A0 U+FE0F, in
    UTF-8. *)
Definition warning_sign : string :=
  String (ascii_of_N 226) (String (ascii_of_N 154) (String (ascii_of_N 160)
    (String (ascii_of_N 239) (String (ascii_of_N 184)
       (String (ascii_of_N 143) EmptyString))))).

Definition warning (assignedName before after : string) : string :=
  warning_sign +:+ "  Anonymous function detected (assigned name: "
  +:+ assignedName +:+ ")" +:+ newline
  +:+ "    Location: ..." +:+ before +:+ " ${} " +:+ after +:+ "..." +:+ newline
  +:+ "    Tip: Use tool({ myFunc }) to provide a name".

(** [tool(fn)] on the function at the place [l]: the function is marked in
    place, [tools.push(wrapped)]. *)
Definition wrap (st : State) (l : nat) (fn : Tool.JsFunction)
    (warn : string -> list string) : Exc State :=
  '(wrapped, counter) ← Tool.tool (Tool.Direct fn) None None (anonymousCounter st);
  Ok {| functions := <[l := wrapped]> (functions st);
        anonymousCounter := counter;
        tools := tools st ++ [l];
        returnIndices := returnIndices st;
        warnings := warnings st ++ warn (name (metadata_of wrapped)) |}.

(** The body of the [for] loop of [prompt] at index [i].  Reading
    [strings[i].slice] throws when the template has no string at [i]. *)
Definition step (E : Engine) (strings : list string) (st : State) (i : nat)
    (value : Value) : Exc State :=
  match value with
  | Sentinel =>
      Ok {| functions := functions st;
            anonymousCounter := anonymousCounter st;
            tools := tools st;
            returnIndices := returnIndices st ++ [i];
            warnings := warnings st |}
  | Function l =>
      match functions st !! l with
      | Some fn =>
          match Tool.fn_tool fn with
          | Some _ =>
              Ok {| functions := functions st;
                    anonymousCounter := anonymousCounter st;
                    tools := tools st ++ [l];
                    returnIndices := returnIndices st;
                    warnings := warnings st |}
          | None =>
              if negb (nonempty (Tool.fn_name fn)) then
                match strings !! i with
                | Some s =>
                    let before := trim (slice_last 20 s) in
                    let after :=
                      str_or (default EmptyString
                                ((fun s' => trim (slice_first 20 s'))
                                   <$> strings !! S i))
                             EmptyString in
                    wrap st l fn
                      (fun assignedName => [warning assignedName before after])
                | None => Err (typeErrorMessage E "slice")
                end
              else wrap st l fn (fun _ => [])
          end
      | None => Ok st       (* no function is missing from the store *)
      end
  | Other => Ok st
  end.

(** The [for] loop from index [i] on. *)
Fixpoint collect_from (E : Engine) (strings : list string) (i : nat)
    (values : list Value) (st : State) : Exc State :=
  match values with
  | [] => Ok st
  | value :: rest =>
      st' ← step E strings st i value;
      collect_from E strings (S i) rest st'
  end.

(** The loop of [prompt(strings, ...values)], entered with empty [tools]
    and [returnIndices]. *)
Definition collect (E : Engine) (strings : list string) (values : list Value)
    (functions : list Tool.JsFunction) (anonymousCounter : nat) : Exc State :=
  collect_from E strings 0 values
    {| functions := functions; anonymousCounter := anonymousCounter;
       tools := []; returnIndices := []; warnings := [] |}.

End Prompt.

(** The places of the functions among the values of a template, in their
    order. *)
Definition function_places (values : list Prompt.Value) : list nat :=
  omap (fun v => match v with Prompt.Function l => Some l | _ => None end) values.

(** The function at a place has no name and is not a tool. *)
Definition anonymous_at (fs : list Tool.JsFunction) (l : nat) : bool :=
  match fs !! l with
  | Some fn =>
      negb (nonempty (Tool.fn_name fn))
      && match Tool.fn_tool fn with Some _ => false | None => true end
  | None => false
  end.

(** The places of the functions without a name that are not tools, each
    at the first place of the template that holds it; [seen] are the places
    met before. *)
Fixpoint fresh_anonymous (fs : list Tool.JsFunction) (seen places : list nat)
  : list nat :=
  match places with
  | [] => []
  | l :: rest =>
      if anonymous_at fs l && negb (bool_decide (l ∈ seen))
      then l :: fresh_anonymous fs (l :: seen) rest
      else fresh_anonymous fs seen rest
  end.

(** The name of the tool at a place. *)
Definition tool_name_at (fs : list Tool.JsFunction) (l : nat) : option string :=
  fn ← fs !! l; name <$> Tool.fn_tool fn.

(** Two arrow functions without a name and a named function. *)
Definition sample_functions : list Tool.JsFunction :=
  [ {| Tool.fn_name := EmptyString; Tool.fn_source := "(a) => a";
       Tool.fn_tool := None |};
    {| Tool.fn_name := "greet"; Tool.fn_source := "function greet(name) { }";
       Tool.fn_tool := None |};
    {| Tool.fn_name := EmptyString; Tool.fn_source := "(b) => b";
       Tool.fn_tool := None |} ].

(* ===================================================================== *)
(** * Properties                                                          *)
(* ===================================================================== *)

(** ** Arrays in the heap *)

Module HeapFacts.
Import Heap.

Lemma alloc_fresh (h : t) items : (alloc h items).1 ∉ dom h.
Proof. unfold alloc; simpl. apply is_fresh. Qed.

Lemma lookup_alloc_old (h : t) items l :
  l ∈ dom h -> (alloc h items).2 !! l = h !! l.
Proof.
  intros Hl. unfold alloc; simpl.
  apply lookup_insert_ne. intros <-. by apply (is_fresh (dom h)).
Qed.

Lemma read_alloc_new (h : t) items :
  read (alloc h items).2 (alloc h items).1 = items.
Proof. unfold read, alloc; simpl. by rewrite lookup_insert_eq. Qed.

Lemma read_push (h : t) l items : read (push h l items) l = read h l ++ items.
Proof. unfold read at 1, push. by rewrite lookup_insert_eq. Qed.

Lemma read_unshift (h : t) l item : read (unshift h l item) l = item :: read h l.
Proof. unfold read at 1, unshift. by rewrite lookup_insert_eq. Qed.

Lemma lookup_unshift_ne (h : t) l l' item :
  l ≠ l' -> unshift h l item !! l' = h !! l'.
Proof. intros. unfold unshift. by rewrite lookup_insert_ne. Qed.

End HeapFacts.

(** ** The adapters and the history array *)

Ltac copy_then_unshift params h :=
  let copy := fresh "copy" in
  let h1 := fresh "h1" in
  let Ha := fresh "Ha" in
  destruct (Heap.alloc h (Heap.read h (messages params))) as [copy h1] eqn:Ha;
  pose proof (HeapFacts.alloc_fresh h (Heap.read h (messages params))) as Hfresh;
  pose proof (HeapFacts.read_alloc_new h (Heap.read h (messages params))) as Hnew;
  pose proof (HeapFacts.lookup_alloc_old h (Heap.read h (messages params))) as Hold;
  rewrite Ha in Hfresh, Hnew, Hold; simpl in Hfresh, Hnew, Hold;
  split;
  [ intros l Hl; simpl; destruct (systemPrompt params); [|by apply Hold];
    rewrite HeapFacts.lookup_unshift_ne; [by apply Hold|]; by intros ->
  | unfold body_messages, body_field, system_message; simpl;
    destruct (systemPrompt params); simpl;
    [ by rewrite HeapFacts.read_unshift, Hnew | by rewrite Hnew ] ].

Lemma OpenAI_builds_on_copy :
  builds_on_copy OpenAI.buildRequest (system_message content_json).
Proof.
  intros params h Hin. unfold OpenAI.buildRequest. copy_then_unshift params h.
Qed.

Lemma Ollama_builds_on_copy :
  builds_on_copy Ollama.buildRequest
    (system_message (fun sp => VStr (Ollama.extractText sp))).
Proof.
  intros params h Hin. unfold Ollama.buildRequest. copy_then_unshift params h.
Qed.

(** Anthropic hands the caller's array itself to the body and touches no
    array at all. *)
Lemma Anthropic_builds_in_place params h :
  (Anthropic.buildRequest params h).2 = h
  /\ body_messages h (body (Anthropic.buildRequest params h).1)
     = VArr (Heap.read h (messages params)).
Proof. split; reflexivity. Qed.

(** The adapters of the registry. *)
Lemma getProvider_cases name P :
  getProvider name = Ok P ->
  (name = "openai" /\ P = OpenAI.provider)
  \/ (name = "anthropic" /\ P = Anthropic.provider)
  \/ (name = "ollama" /\ P = Ollama.provider).
Proof.
  unfold getProvider. intros H.
  destruct (String.eqb_spec name "openai") as [-> | _]; [inversion H; auto|].
  destruct (String.eqb_spec name "anthropic") as [-> | _]; [inversion H; auto|].
  destruct (String.eqb_spec name "ollama") as [-> | _]; [inversion H; auto|].
  discriminate.
Qed.

(** No adapter touches an array that exists when [buildRequest] is
    called. *)
Lemma buildRequest_frame name P params h l :
  getProvider name = Ok P ->
  messages params ∈ dom h ->
  l ∈ dom h ->
  (buildRequest P params h).2 !! l = h !! l.
Proof.
  intros HP Hm Hl.
  destruct (getProvider_cases _ _ HP) as [[_ ->] | [[_ ->] | [_ ->]]]; simpl.
  - by apply OpenAI_builds_on_copy.
  - reflexivity.
  - by apply Ollama_builds_on_copy.
Qed.

(** ** Objects *)

Lemma obj_get_notin (o : list (string * JsValue)) k :
  k ∉ Object_keys o -> obj_get o k = VUndef.
Proof.
  induction o as [|[k' v] o IH]; simpl; [done|].
  intros Hk. apply not_elem_of_cons in Hk as [Hne Hk].
  destruct (String.eqb_spec k' k); [congruence|auto].
Qed.

Lemma obj_get_in (o : list (string * JsValue)) k v :
  NoDup (Object_keys o) -> (k, v) ∈ o -> obj_get o k = v.
Proof.
  induction o as [|[k' v'] o IH]; simpl; intros Hnd Hin.
  - by apply elem_of_nil in Hin.
  - apply NoDup_cons in Hnd as [Hk' Hnd].
    apply elem_of_cons in Hin as [Heq | Hin].
    + inversion Heq; subst. by rewrite String.eqb_refl.
    + destruct (String.eqb_spec k' k) as [-> | Hne]; [|auto].
      exfalso. apply Hk'. unfold Object_keys.
      apply list_elem_of_fmap. by exists (k, v).
Qed.


(** *** Objects read by [JSON.parse] have no repeated key *)


Lemma obj_set_keys_in (acc : list (string * JsValue)) k v :
  k ∈ Object_keys acc -> Object_keys (obj_set acc k v) = Object_keys acc.
Proof.
  induction acc as [|[k' v'] acc IH]; simpl; intros Hin.
  - by apply elem_of_nil in Hin.
  - destruct (String.eqb_spec k' k) as [-> | Hne]; simpl; [done|].
    apply elem_of_cons in Hin as [-> | Hin]; [done|]. by rewrite IH.
Qed.

Lemma obj_set_fresh (o : list (string * JsValue)) k v :
  k ∉ Object_keys o -> obj_set o k v = o ++ [(k, v)].
Proof.
  induction o as [|[k' v'] o IH]; simpl; [done|].
  intros Hk. apply not_elem_of_cons in Hk as [Hne Hk].
  destruct (String.eqb_spec k' k); [congruence|]. by rewrite IH.
Qed.

Lemma obj_set_NoDup (acc : list (string * JsValue)) k v :
  NoDup (Object_keys acc) -> NoDup (Object_keys (obj_set acc k v)).
Proof.
  intros Hnd. destruct (decide (k ∈ Object_keys acc)) as [Hin | Hout].
  - by rewrite obj_set_keys_in.
  - rewrite obj_set_fresh by done. unfold Object_keys. rewrite map_app. simpl.
    apply NoDup_app. split; [done|]. split.
    + intros x Hx Hx'. apply list_elem_of_singleton in Hx'. by subst.
    + apply NoDup_singleton.
Qed.






Lemma mapM_Ok {A B} (f : A -> B) (l : list A) :
  mapM (M := Exc) (fun x => Ok (f x)) l = Ok (map f l).
Proof. induction l as [|x l IH]; simpl; [done|]. by rewrite IH. Qed.

(** ** The dispatch of one call *)

Section Dispatch.

Context {W : Type}.
Variable E : Engine.
Variable tools : list (ToolFunction W).
Variable config : Config.

Lemma positional_object (toolFn : ToolFunction W) o :
  positional E toolFn (VObj o) = Ok (map (obj_get o) (paramNames_of (meta toolFn))).
Proof. unfold positional. simpl. apply mapM_Ok. Qed.


End Dispatch.


(** ** C10: [buildRequest] and the caller's history *)

Lemma Anthropic_system_field params h :
  body_field h (body (Anthropic.buildRequest params h).1) "system"
  = match systemPrompt params with
    | Some sp => anthropic_system sp
    | None => VUndef
    end.
Proof.
  unfold body_field, Anthropic.buildRequest; simpl.
  destruct (stream params), (temperature params), (systemPrompt params);
    simpl; try reflexivity;
    destruct (tools params); simpl; try reflexivity;
    destruct (schema params); simpl; try reflexivity;
    match goal with
    | |- context [truthy_str ?x] => destruct (truthy_str x); reflexivity
    end.
Qed.

(** C10. For each adapter of the registry, [buildRequest] leaves the
    history array it is given as it was, with the same length and the same
    elements, and every other array that existed.  OpenAI and Ollama send a
    copy with the system message in front; Anthropic sends the array itself
    and puts the system prompt in the field [system] of the body. *)
Theorem C10_buildRequest_leaves_history (name : string) (P : ProviderAdapter)
    (params : BuildRequestParams) (h : Heap.t) :
  getProvider name = Ok P ->
  messages params ∈ dom h ->
  let request := (buildRequest P params h).1 in
  let h' := (buildRequest P params h).2 in
  let history := Heap.read h (messages params) in
  Heap.read h' (messages params) = history
  /\ length (Heap.read h' (messages params)) = length history
  /\ (forall l, l ∈ dom h -> h' !! l = h !! l)
  /\ (name = "openai" ->
      body_messages h' (body request)
      = VArr (system_message content_json params ++ history))
  /\ (name = "ollama" ->
      body_messages h' (body request)
      = VArr (system_message (fun sp => VStr (Ollama.extractText sp)) params
              ++ history))
  /\ (name = "anthropic" ->
      h' = h
      /\ body_messages h' (body request) = VArr history
      /\ body_field h' (body request) "system"
         = match systemPrompt params with
           | Some sp => anthropic_system sp
           | None => VUndef
           end).
Proof.
  intros HP Hm request h' history.
  assert (forall l, l ∈ dom h -> h' !! l = h !! l) as Hframe.
  { intros l Hl. by apply (buildRequest_frame name). }
  assert (Heap.read h' (messages params) = history) as Hread.
  { unfold Heap.read, history. by rewrite Hframe. }
  split; [done|]. split; [by rewrite Hread|]. split; [done|].
  subst request h'.
  destruct (getProvider_cases _ _ HP) as [[-> ->] | [[-> ->] | [-> ->]]];
    (split; [intros Hn|split; [intros Hn|intros Hn]]); try discriminate Hn.
  - by apply OpenAI_builds_on_copy.
  - split; [reflexivity|]. split; [reflexivity|]. apply Anthropic_system_field.
  - by apply Ollama_builds_on_copy.
Qed.

(** With a system prompt, OpenAI's request carries two messages and the
    caller's array still holds its one message. *)
Lemma C10_example_openai :
  let h : Heap.t := {[ 0%nat := [user_hello] ]} in
  let params := sample_params (Some (PlainText "Be brief")) in
  Heap.read (OpenAI.buildRequest params h).2 0%nat = [user_hello]
  /\ body_messages (OpenAI.buildRequest params h).2
       (body (OpenAI.buildRequest params h).1)
     = VArr [VObj [("role", VStr "system"); ("content", VStr "Be brief")];
             user_hello].
Proof.
  intros h params.
  assert (messages params ∈ dom h) as Hm.
  { subst h params. simpl. rewrite dom_singleton_L. by apply elem_of_singleton. }
  destruct (C10_buildRequest_leaves_history "openai" OpenAI.provider params h
              eq_refl Hm) as (Hread & _ & _ & Hopenai & _).
  split; [exact Hread | exact (Hopenai eq_refl)].
Defined.

(** ** C8: the string made of a tool's return value *)




(** ** C4: the structured-output store *)

Lemma Object_keys_app {A} (a b : list (string * A)) :
  Object_keys (a ++ b) = Object_keys a ++ Object_keys b.
Proof. unfold Object_keys. apply map_app. Qed.

Lemma reconstruct_spec (propKeys : list string) :
  forall args acc,
    NoDup propKeys ->
    (forall k, k ∈ propKeys -> k ∉ Object_keys acc) ->
    Store.reconstruct propKeys args acc = acc ++ reconstructed propKeys args.
Proof.
  induction propKeys as [|k ks IH]; intros args acc Hnd Hdisj; simpl.
  - by rewrite app_nil_r.
  - destruct args as [|a rest]; simpl; [by rewrite app_nil_r|].
    apply NoDup_cons in Hnd as [Hk Hnd].
    unfold reconstructed; simpl. destruct (is_undefined a) eqn:Ha.
    + rewrite IH; [done|done|]. intros k' Hk'. apply Hdisj. by right.
    + rewrite IH; [|done|].
      * rewrite obj_set_fresh by (apply Hdisj; by left).
        by rewrite <- app_assoc.
      * intros k' Hk'. rewrite obj_set_fresh by (apply Hdisj; by left).
        rewrite Object_keys_app. simpl. intros Hin.
        apply elem_of_app in Hin as [Hin | Hin].
        -- revert Hin. apply Hdisj. by right.
        -- apply list_elem_of_singleton in Hin. by subst.
Qed.

(** C4. Invoking a store made by [createStore] maps the positional
    arguments onto the keys of its schema's [properties], in their order and
    leaving out the [undefined] ones, and hands that object to the schema's
    [parse].  On success the parsed value is written to the slot and the
    call returns ['Value stored successfully']; on failure the call throws
    the validation error and [get()] returns what it returned before. *)
Theorem C4_store_invocation (storeName : string) (schema : ResolvedSchema)
    (args : list JsValue) (stored : Store.Slot) :
  let store := Store.createStore storeName schema in
  let propKeys := Object_keys (default [] (properties (jsonSchema schema))) in
  let obj := VObj (Store.reconstruct propKeys args []) in
  paramNames_of (meta store) = propKeys
  /\ (NoDup propKeys ->
      Store.reconstruct propKeys args [] = reconstructed propKeys args)
  /\ (forall parsed, parse schema obj = Ok parsed ->
        call store args stored = (Ok (VStr "Value stored successfully"), Some parsed)
        /\ Store.get (call store args stored).2 = parsed)
  /\ (forall e, parse schema obj = Err e ->
        call store args stored = (Err e, stored)
        /\ Store.get (call store args stored).2 = Store.get stored).
Proof.
  intros store propKeys obj.
  split; [reflexivity|]. split; [|split].
  - intros Hnd. rewrite reconstruct_spec; [done|done|].
    intros k _. apply not_elem_of_nil.
  - intros parsed Hp. simpl. unfold Store.fn. fold propKeys. fold obj.
    by rewrite Hp.
  - intros e He. simpl. unfold Store.fn. fold propKeys. fold obj.
    by rewrite He.
Qed.

(** The schema has the keys [title] and [note]: the arguments (Hi,
    undefined) store [{"title":"Hi"}]; the arguments (undefined, n) are
    rejected and the slot keeps its value. *)
Lemma C4_example_store :
  let store := Store.createStore "return_value" sample_schema in
  let saved := Some (VObj [("title", VStr "Hi")]) in
  call store [VStr "Hi"; VUndef] Store.initial
    = (Ok (VStr "Value stored successfully"), saved)
  /\ call store [VUndef; VStr "n"] saved
    = (Err ("Missing required field: " +:+ in_quotes "title"), saved)
  /\ Store.reconstruct ["title"; "note"] [VUndef; VStr "n"] []
    = [("note", VStr "n")].
Proof.
  intros store saved.
  split; [|split].
  - destruct (C4_store_invocation "return_value" sample_schema
                [VStr "Hi"; VUndef] Store.initial) as (_ & _ & Hok & _).
    exact (proj1 (Hok (VObj [("title", VStr "Hi")]) eq_refl)).
  - destruct (C4_store_invocation "return_value" sample_schema
                [VUndef; VStr "n"] saved) as (_ & _ & _ & Herr).
    exact (proj1 (Herr _ eq_refl)).
  - destruct (C4_store_invocation "return_value" sample_schema
                [VUndef; VStr "n"] saved) as (_ & Hrec & _).
    apply Hrec. apply (bool_decide_unpack _). by vm_compute.
Defined.

(** ** C9: the parser of a flat string-map schema *)

Lemma obj_get_set_eq (r : list (string * JsValue)) k v :
  obj_get (obj_set r k v) k = v.
Proof.
  induction r as [|[k' v'] r IH]; simpl.
  - by rewrite String.eqb_refl.
  - destruct (String.eqb_spec k' k) as [-> | Hne]; simpl.
    + by rewrite String.eqb_refl.
    + destruct (String.eqb_spec k' k); [congruence|done].
Qed.

Lemma obj_get_set_ne (r : list (string * JsValue)) k k' v :
  k ≠ k' -> obj_get (obj_set r k v) k' = obj_get r k'.
Proof.
  intros Hne. induction r as [|[k0 v0] r IH]; simpl.
  - destruct (String.eqb_spec k k'); [congruence|done].
  - destruct (String.eqb_spec k0 k) as [-> | Hne0]; simpl.
    + destruct (String.eqb_spec k k'); [congruence|done].
    + by rewrite IH.
Qed.

Lemma keys_obj_set (r : list (string * JsValue)) k v k' :
  k' ∈ Object_keys (obj_set r k v) <-> k' = k \/ k' ∈ Object_keys r.
Proof.
  induction r as [|[k0 v0] r IH]; simpl.
  - rewrite list_elem_of_singleton. split; [auto|].
    intros [-> | H]; [done|]. by apply elem_of_nil in H.
  - destruct (String.eqb_spec k0 k) as [-> | Hne]; simpl.
    + rewrite !elem_of_cons. tauto.
    + rewrite !elem_of_cons, IH. tauto.
Qed.

Section SimpleParser.

Variable E : Engine.
Variable o : list (string * JsValue).

Lemma parse_fields_accepts (fields : list Field) :
  forall acc,
    Forall (fun f => field_ok o f = true) fields ->
    parse_fields E fields (VObj o) acc = Ok (VObj (collect o fields acc)).
Proof.
  induction fields as [|f fields IH]; intros acc Hall; simpl; [done|].
  apply Forall_cons in Hall as [Hf Hall]. unfold field_ok in Hf.
  destruct (obj_get o (cleanKey f)) eqn:Hv; simpl in *;
    rewrite ?orb_false_r, ?andb_false_r, ?andb_true_r in Hf;
    try discriminate Hf; try (rewrite Hf; simpl);
    rewrite IH by done; unfold collect; simpl; by rewrite ?Hv.
Qed.


Lemma parse_fields_rejects (pre : list Field) :
  forall f post acc,
    Forall (fun f => field_ok o f = true) pre ->
    field_ok o f = false ->
    parse_fields E (pre ++ f :: post) (VObj o) acc = Err (field_error o f).
Proof.
  induction pre as [|g pre IH]; intros f post acc Hpre Hf; simpl.
  - unfold field_ok in Hf. unfold field_error.
    destruct (obj_get o (cleanKey f)) eqn:Hv; simpl in *;
      rewrite ?orb_false_r, ?andb_false_r, ?andb_true_r in Hf;
      try discriminate Hf; try (rewrite Hf; simpl); reflexivity.
  - apply Forall_cons in Hpre as [Hg Hpre]. unfold field_ok in Hg.
    destruct (obj_get o (cleanKey g)) eqn:Hv; simpl in *;
      rewrite ?orb_false_r, ?andb_false_r, ?andb_true_r in Hg;
      try discriminate Hg; try (rewrite Hg; simpl); by apply IH.
Qed.

Lemma collect_cons (f : Field) (fields : list Field) acc :
  collect o (f :: fields) acc
  = collect o fields
      (if is_string (obj_get o (cleanKey f))
       then obj_set acc (cleanKey f) (obj_get o (cleanKey f))
       else acc).
Proof. reflexivity. Qed.

Lemma collect_keys (fields : list Field) :
  forall acc k,
    k ∈ Object_keys (collect o fields acc)
    <-> k ∈ Object_keys acc
        \/ exists f, f ∈ fields /\ cleanKey f = k
                     /\ is_string (obj_get o k) = true.
Proof.
  induction fields as [|f fields IH]; intros acc k.
  - unfold collect; simpl. split; [auto|].
    intros [H | (f & Hf & _)]; [done|by apply elem_of_nil in Hf].
  - rewrite collect_cons, IH. clear IH.
    destruct (is_string (obj_get o (cleanKey f))) eqn:Hs.
    + rewrite keys_obj_set. split.
      * intros [[-> | H] | (g & Hg & Hk & Hgs)]; eauto.
        -- right. exists f. split; [by left|done].
        -- right. exists g. split; [by right|done].
      * intros [H | (g & Hg & Hk & Hgs)]; [auto|].
        apply elem_of_cons in Hg as [-> | Hg]; [auto|].
        right. by exists g.
    + split.
      * intros [H | (g & Hg & Hk & Hgs)]; [auto|].
        right. exists g. split; [by right|done].
      * intros [H | (g & Hg & Hk & Hgs)]; [auto|].
        apply elem_of_cons in Hg as [-> | Hg]; [congruence|].
        right. by exists g.
Qed.

Lemma collect_values (fields : list Field) :
  forall acc,
    (forall k, k ∈ Object_keys acc -> obj_get acc k = obj_get o k) ->
    forall k, k ∈ Object_keys (collect o fields acc) ->
              obj_get (collect o fields acc) k = obj_get o k.
Proof.
  induction fields as [|f fields IH]; intros acc Hacc k.
  - apply Hacc.
  - rewrite collect_cons. apply IH. clear IH k.
    destruct (is_string (obj_get o (cleanKey f))); [|done].
    intros k Hk. apply keys_obj_set in Hk.
    destruct (decide (cleanKey f = k)) as [<- | Hne].
    + apply obj_get_set_eq.
    + rewrite obj_get_set_ne by done. destruct Hk as [-> | Hk]; [done|auto].
Qed.

End SimpleParser.

Lemma first_failing {A} (P : A -> bool) (l : list A) :
  ~ Forall (fun x => P x = true) l ->
  exists pre x post,
    l = pre ++ x :: post /\ Forall (fun x => P x = true) pre /\ P x = false.
Proof.
  induction l as [|x l IH]; intros Hn.
  - destruct Hn. constructor.
  - destruct (P x) eqn:Hx.
    + destruct IH as (pre & y & post & -> & Hpre & Hy).
      { intros Hl. apply Hn. by constructor. }
      exists (x :: pre), y, post. split; [done|]. split; [by constructor|done].
    + exists [], x, l. split; [done|]. split; [constructor|done].
Qed.





(** ** C5: responses without a usable choice *)




(** ** The loop *)

Section LoopFacts.

Context {W : Type}.
Variable E : Engine.
Variable provider : ProviderAdapter.
Variable tools : list (ToolFunction W).
Variable config : Config.
Variable schema : option ResolvedSchema.
Variable returnStore : option (W -> JsValue).
Variable systemPrompt : option PromptContent.

#[local] Abbreviation send :=
  (Executor.send provider tools config schema systemPrompt).
#[local] Abbreviation runBatch :=
  (Executor.runBatch E provider tools config returnStore).
#[local] Abbreviation finish :=
  (Executor.finish E provider schema).
#[local] Abbreviation handleParsed :=
  (Executor.handleParsed E provider tools config schema returnStore).
#[local] Abbreviation iteration :=
  (Executor.iteration E provider tools config schema returnStore systemPrompt).
#[local] Abbreviation loop :=
  (Executor.loop E provider tools config schema returnStore systemPrompt).
#[local] Abbreviation executeToolCalls :=
  (Executor.executeToolCalls E tools config).
#[local] Abbreviation executeToolCall :=
  (Executor.executeToolCall E tools config).

Lemma send_state mloc (st : LoopState) :
  world (send mloc st) = world st
  /\ events (send mloc st) = events st
  /\ iterations (send mloc st) = iterations st
  /\ exists request, sent (send mloc st) = sent st ++ [request].
Proof.
  unfold Executor.send. destruct (buildRequest provider _ (heap st)) as [request h].
  simpl. repeat split. eauto.
Qed.

(** Between two passes the history array holds what the adapters of the
    registry found in it. *)
Lemma send_history name mloc (st : LoopState) :
  getProvider name = Ok provider ->
  mloc ∈ dom (heap st) ->
  Heap.read (heap (send mloc st)) mloc = Heap.read (heap st) mloc.
Proof.
  intros HP Hm. unfold Executor.send.
  destruct (buildRequest provider _ (heap st)) as [request h] eqn:Hb. simpl.
  assert (h = (buildRequest provider
                 (Build_BuildRequestParams (cfg_apiUrl config) (cfg_apiKey config)
                    (cfg_modelName config) mloc (map meta tools)
                    (cfg_stream config) (cfg_temperature config)
                    (cfg_maxTokens config) systemPrompt (jsonSchema <$> schema))
                 (heap st)).2) as -> by (by rewrite Hb).
  unfold Heap.read. by rewrite (buildRequest_frame name).
Qed.

(** *** A batch of calls *)

Lemma executeToolCalls_cons toolCall rest w :
  executeToolCalls (toolCall :: rest) w
  = let '(r, w1, ev1) := executeToolCall toolCall w in
    let '(rs, w2, ev2) := executeToolCalls rest w1 in
    (r :: rs, w2, ev1 ++ ev2).
Proof. reflexivity. Qed.

Lemma executeToolCalls_app pre post w :
  executeToolCalls (pre ++ post) w
  = let '(r1, w1, ev1) := executeToolCalls pre w in
    let '(r2, w2, ev2) := executeToolCalls post w1 in
    (r1 ++ r2, w2, ev1 ++ ev2).
Proof.
  revert w. induction pre as [|tc pre IH]; intros w; simpl.
  - by destruct (executeToolCalls post w) as [[r2 w2] ev2].
  - destruct (executeToolCall tc w) as [[r w1] ev1]. rewrite IH.
    destruct (executeToolCalls pre w1) as [[r1 w1'] ev1'].
    destruct (executeToolCalls post w1') as [[r2 w2] ev2].
    by rewrite app_assoc.
Qed.

Lemma executeToolCall_id toolCall w :
  tr_id (executeToolCall toolCall w).1.1 = tc_id toolCall
  /\ tr_name (executeToolCall toolCall w).1.1 = tc_name toolCall.
Proof.
  unfold Executor.executeToolCall.
  destruct (findTool tools (tc_name toolCall)); [|done].
  destruct (JSON_parse E (tc_arguments toolCall)); [|done].
  destruct (positional E t a); [|done].
  by destruct (call t a0 w) as [[raw | msg] w'].
Qed.

(** One result for each call, in the order of the calls, carrying the id
    and the name of its call. *)
Lemma executeToolCalls_ids toolCalls w :
  map tr_id (executeToolCalls toolCalls w).1.1 = map tc_id toolCalls
  /\ map tr_name (executeToolCalls toolCalls w).1.1 = map tc_name toolCalls
  /\ length (executeToolCalls toolCalls w).1.1 = length toolCalls.
Proof.
  revert w. induction toolCalls as [|tc rest IH]; intros w; [done|].
  rewrite executeToolCalls_cons.
  pose proof (executeToolCall_id tc w) as [Hid Hname].
  destruct (executeToolCall tc w) as [[r w1] ev1].
  specialize (IH w1). destruct (executeToolCalls rest w1) as [[rs w2] ev2].
  simpl in *. destruct IH as (-> & -> & ->). by rewrite Hid, Hname.
Qed.

(** *** One pass *)

Lemma filter_complete_idem raw :
  filter_complete (map Some (filter_complete raw)) = filter_complete raw.
Proof.
  induction raw as [|[tc|] raw IH]; simpl; [done| |done].
  destruct (complete tc) eqn:Hc; simpl; [|done]. by rewrite Hc, IH.
Qed.

Lemma filter_complete_spec raw tc :
  tc ∈ filter_complete raw <-> Some tc ∈ raw /\ complete tc = true.
Proof.
  unfold filter_complete. rewrite list_elem_of_omap. split.
  - intros ([tc'|] & Hin & Hsome); [|done].
    destruct (complete tc') eqn:Hc; [|done]. by inversion Hsome; subst.
  - intros [Hin Hc]. exists (Some tc). by rewrite Hc.
Qed.

Lemma handleParsed_batch mloc parsed st :
  filter_complete (toolCalls parsed) <> [] ->
  handleParsed mloc parsed st
  = runBatch mloc (content parsed) (filter_complete (toolCalls parsed)) st.
Proof.
  intros Hne. unfold Executor.handleParsed.
  by destruct (filter_complete (toolCalls parsed)).
Qed.

Lemma iteration_parsed mloc response parsed evs st :
  ok response = true ->
  parseResponse provider response (cfg_stream config) = (Ok parsed, evs) ->
  iteration mloc (Fetched response) st
  = handleParsed mloc parsed (emit (send mloc st) evs).
Proof.
  intros Hok Hp. unfold Executor.iteration. by rewrite Hok, Hp.
Qed.

(** A batch ends in the early exit through the store, or in the next pass
    with [iterations] incremented; it never throws. *)
Lemma runBatch_cases mloc content toolCalls st :
  let '(toolResults, w, evs) := executeToolCalls toolCalls (world st) in
  let h := Heap.push
             (Heap.push (heap st) mloc
                [formatAssistantMessage provider content toolCalls])
             mloc (formatToolResults provider toolResults) in
  let st1 := {| heap := h; world := w; events := events st ++ evs;
                iterations := iterations st; sent := sent st |} in
  let st2 := {| heap := h; world := w; events := events st ++ evs;
                iterations := S (iterations st); sent := sent st |} in
  match returnStore with
  | Some get =>
      if is_undefined (get w)
      then runBatch mloc content toolCalls st = Continue st2
      else runBatch mloc content toolCalls st
           = Done (Returned (get w) (Heap.read h mloc)) st1
  | None => runBatch mloc content toolCalls st = Continue st2
  end.
Proof.
  unfold Executor.runBatch.
  destruct (executeToolCalls toolCalls (world st)) as [[toolResults w] evs].
  destruct returnStore as [get|]; [|done].
  by destruct (is_undefined (get w)).
Qed.

Lemma runBatch_history mloc content toolCalls st :
  let '(toolResults, w, evs) := executeToolCalls toolCalls (world st) in
  Heap.read
    (Heap.push
       (Heap.push (heap st) mloc
          [formatAssistantMessage provider content toolCalls])
       mloc (formatToolResults provider toolResults)) mloc
  = Heap.read (heap st) mloc
    ++ [formatAssistantMessage provider content toolCalls]
    ++ formatToolResults provider toolResults.
Proof.
  destruct (executeToolCalls toolCalls (world st)) as [[toolResults w] evs].
  by rewrite !HeapFacts.read_push, <- app_assoc.
Qed.


Lemma loop_cons mloc fetched rest st :
  may_iterate config st = true ->
  loop mloc (fetched :: rest) st
  = match iteration mloc fetched st with
    | Done o st' => (o, st')
    | Continue st' => loop mloc rest st'
    end.
Proof. intros Hm. simpl. by rewrite Hm. Qed.




(** C3. When a store is active and, after the calls of a response have all
    been executed and the assistant turn and the results pushed onto the
    history, [get()] is not [undefined], the loop returns that value with
    that history at once: [iterations] is not incremented, nothing further
    is requested, whatever responses would have followed.  The value is
    read in the state the whole batch leaves. *)
Theorem C3_store_early_exit (mloc : Heap.loc)
    (response : Response (WireJson provider) (WireStream provider))
    (parsed : ParsedResponse) (evs : list Event) (get : W -> JsValue)
    (rest : list (FetchOutcome (WireJson provider) (WireStream provider)))
    (st : LoopState) :
  returnStore = Some get ->
  may_iterate config st = true ->
  ok response = true ->
  parseResponse provider response (cfg_stream config) = (Ok parsed, evs) ->
  filter_complete (toolCalls parsed) <> [] ->
  let toolCalls := filter_complete (toolCalls parsed) in
  let batch := executeToolCalls toolCalls (world st) in
  let toolResults := batch.1.1 in
  let w := batch.1.2 in
  let history :=
    Heap.read (heap (send mloc st)) mloc
    ++ [formatAssistantMessage provider (content parsed) toolCalls]
    ++ formatToolResults provider toolResults in
  is_undefined (get w) = false ->
  length toolResults = length toolCalls
  /\ map tr_id toolResults = map tc_id toolCalls
  /\ (exists st',
        loop mloc (Fetched response :: rest) st = (Returned (get w) history, st')
        /\ world st' = w
        /\ Heap.read (heap st') mloc = history
        /\ events st' = events st ++ evs ++ batch.2
        /\ iterations st' = iterations st
        /\ length (sent st') = S (length (sent st)))
  /\ (forall name, getProvider name = Ok provider -> mloc ∈ dom (heap st) ->
        Heap.read (heap (send mloc st)) mloc = Heap.read (heap st) mloc).
Proof.
  intros Hstore Hiter Hok Hparse Hne toolCalls batch toolResults w history Hfilled.
  pose proof (executeToolCalls_ids toolCalls (world st)) as (Hids & _ & Hlen).
  split; [done|]. split; [done|]. split.
  - rewrite loop_cons by done.
    rewrite (iteration_parsed mloc response parsed evs st Hok Hparse).
    rewrite handleParsed_batch by done. fold toolCalls.
    pose proof (send_state mloc st) as (Hw & Hev & Hit & request & Hsent).
    pose proof (runBatch_cases mloc (content parsed) toolCalls
                  (emit (send mloc st) evs)) as Hcases.
    pose proof (runBatch_history mloc (content parsed) toolCalls
                  (emit (send mloc st) evs)) as Hhist.
    simpl in Hcases, Hhist. rewrite Hw in Hcases, Hhist.
    subst history toolResults w batch.
    destruct (executeToolCalls toolCalls (world st)) as [[rs w'] tevs].
    simpl in *. rewrite Hstore in Hcases |- *. rewrite Hfilled in Hcases.
    rewrite Hcases.
    eexists. split; [by rewrite Hhist|]. simpl.
    split; [done|]. split; [done|]. split; [by rewrite Hev, <- app_assoc|].
    split; [done|]. by rewrite Hsent, length_app, Nat.add_1_r.
  - intros name HP Hm. by apply (send_history name).
Qed.

(** C6. The loop works on the calls of a parsed response that have a
    non-empty id and a non-empty name, and on no other: a pass over a
    response is the pass over the same response without its incomplete
    calls (and without the holes of the array), so these leave no event, no
    result and no history entry.  When no call is left the response is
    treated as the final answer; otherwise there is one result for each
    call that is left, with its id. *)
Theorem C6_incomplete_calls_dropped (mloc : Heap.loc) (parsed : ParsedResponse)
    (st : LoopState) :
  let raw := toolCalls parsed in
  let kept := filter_complete raw in
  handleParsed mloc parsed st
  = handleParsed mloc {| content := content parsed; toolCalls := map Some kept |} st
  /\ (forall tc, tc ∈ kept
        <-> Some tc ∈ raw /\ nonempty (tc_id tc) = true
            /\ nonempty (tc_name tc) = true)
  /\ (kept = [] -> handleParsed mloc parsed st = finish mloc (content parsed) st)
  /\ (kept <> [] ->
      handleParsed mloc parsed st = runBatch mloc (content parsed) kept st
      /\ map tr_id (executeToolCalls kept (world st)).1.1 = map tc_id kept
      /\ length (executeToolCalls kept (world st)).1.1 = length kept).
Proof.
  intros raw kept. split; [|split; [|split]].
  - subst kept raw. unfold Executor.handleParsed. simpl.
    by rewrite filter_complete_idem.
  - intros tc. subst kept. rewrite filter_complete_spec. unfold complete.
    by rewrite andb_true_iff.
  - intros Hnil. unfold Executor.handleParsed. fold raw. fold kept.
    by rewrite Hnil.
  - intros Hne. split; [by apply handleParsed_batch|].
    by pose proof (executeToolCalls_ids kept (world st)) as (? & _ & ?).
Qed.


(** *** The iteration cap *)

Lemma loop_exhausted mloc script st :
  may_iterate config st = false ->
  loop mloc script st
  = (Thrown (max_iterations_error (default 0 (maxIterations config))), st).
Proof. intros Hm. destruct script; simpl; by rewrite Hm. Qed.

Lemma loop_nil mloc st :
  may_iterate config st = true -> loop mloc [] st = (Awaiting, st).
Proof. intros Hm. simpl. by rewrite Hm. Qed.

(** A response that asks for tools costs one request and leads to the next
    pass, or to the early exit through the store. *)
Lemma iteration_requests_tools mloc fetched st :
  requests_tools provider config fetched ->
  (exists st',
     iteration mloc fetched st = Continue st'
     /\ iterations st' = S (iterations st)
     /\ length (sent st') = S (length (sent st)))
  \/ (exists o st',
        iteration mloc fetched st = Done o st'
        /\ store_filled returnStore o st'
        /\ iterations st' = iterations st
        /\ length (sent st') = S (length (sent st))).
Proof.
  intros (response & parsed & evs & -> & Hok & Hparse & Hne).
  rewrite (iteration_parsed mloc response parsed evs st Hok Hparse).
  rewrite handleParsed_batch by done.
  pose proof (send_state mloc st) as (Hw & Hev & Hit & request & Hsent).
  pose proof (runBatch_cases mloc (content parsed)
                (filter_complete (toolCalls parsed))
                (emit (send mloc st) evs)) as Hcases.
  destruct (executeToolCalls _ (world (emit (send mloc st) evs)))
    as [[rs w] tevs].
  simpl in Hcases.
  assert (length (sent (send mloc st)) = S (length (sent st))) as Hlen.
  { by rewrite Hsent, length_app, Nat.add_1_r. }
  destruct returnStore as [get|] eqn:Hstore.
  - destruct (is_undefined (get w)) eqn:Hu.
    + left. eexists. split; [exact Hcases|]. simpl. by rewrite Hit.
    + right. do 2 eexists. split; [exact Hcases|]. simpl.
      split; [|by rewrite Hit]. exists get. eexists.
      split; [done|]. split; [exact Hu|reflexivity].
  - left. eexists. split; [exact Hcases|]. simpl. by rewrite Hit.
Qed.

(** A pass ends the run only on a response without tool calls, on a
    filled store, or on an error of the request or of its parsing. *)
Lemma iteration_Done_cases mloc fetched st o st' :
  iteration mloc fetched st = Done o st' ->
  tool_free provider config fetched
  \/ store_filled returnStore o st'
  \/ (fails provider config fetched /\ exists message, o = Thrown message).
Proof.
  unfold Executor.iteration.
  destruct fetched as [|message|response].
  - intros H. inversion H. right. right. split; [by left|eauto].
  - intros H. inversion H. right. right. split; [right; left; eauto|eauto].
  - destruct (ok response) eqn:Hok; simpl.
    + destruct (parseResponse provider response (cfg_stream config))
        as [[parsed|message] evs] eqn:Hparse.
      * destruct (filter_complete (toolCalls parsed)) as [|tc tcs] eqn:Hf.
        -- intros _. left. exists response, parsed, evs. by rewrite Hf.
        -- rewrite handleParsed_batch by (by rewrite Hf).
           pose proof (runBatch_cases mloc (content parsed)
                         (filter_complete (toolCalls parsed))
                         (emit (send mloc st) evs)) as Hcases.
           destruct (executeToolCalls _ (world (emit (send mloc st) evs)))
             as [[rs w] tevs].
           simpl in Hcases. intros Hstep. rewrite Hstep in Hcases.
           right. left.
           destruct returnStore as [get|] eqn:Hstore; [|discriminate].
           destruct (is_undefined (get w)) eqn:Hu; [discriminate|].
           inversion Hcases; subst. exists get. eexists.
           split; [done|]. split; [exact Hu|reflexivity].
      * intros H. inversion H. right. right. split; [|eauto].
        right. right. exists response. split; [done|]. right. eauto.
    + intros H. inversion H. right. right. split; [|eauto].
      right. right. exists response. split; [done|]. by left.
Qed.

Lemma loop_capped mloc (n : Z) :
  maxIterations config = Some n ->
  forall (k : nat) script st,
    Z.of_nat (iterations st) + Z.of_nat k = n ->
    (k <= length script)%nat ->
    Forall (requests_tools provider config) script ->
    (((loop mloc script st).1 = Thrown (max_iterations_error n)
      /\ length (sent (loop mloc script st).2) = (length (sent st) + k)%nat
      /\ Z.of_nat (iterations (loop mloc script st).2) = n)
     \/ (store_filled returnStore (loop mloc script st).1 (loop mloc script st).2
         /\ (length (sent (loop mloc script st).2) <= length (sent st) + k)%nat
         /\ (length (sent st) < length (sent (loop mloc script st).2))%nat)).
Proof.
  intros Hcap. induction k as [|k IH]; intros script st Hit Hlen Hall.
  - left. rewrite loop_exhausted.
    + rewrite Hcap. simpl. split; [done|]. split; lia.
    + unfold may_iterate. rewrite Hcap. apply Z.ltb_ge. lia.
  - destruct script as [|fetched rest]; [simpl in Hlen; lia|].
    apply Forall_cons in Hall as [Hreq Hall].
    rewrite loop_cons by (unfold may_iterate; rewrite Hcap; apply Z.ltb_lt; lia).
    destruct (iteration_requests_tools mloc fetched st Hreq)
      as [(st' & -> & Hi & Hs) | (o & st' & -> & Hfilled & Hi & Hs)].
    + destruct (IH rest st') as [(Ho & Hsent & Hiter) | (Hf & Hle & Hlt)].
      * rewrite Hi. lia.
      * simpl in Hlen. lia.
      * done.
      * left. split; [done|]. split; [lia|done].
      * right. split; [done|]. split; lia.
    + right. simpl. split; [done|]. split; lia.
Qed.

Lemma loop_unbounded mloc :
  maxIterations config = None ->
  forall script st,
    Forall (requests_tools provider config) script ->
    (((loop mloc script st).1 = Awaiting
      /\ length (sent (loop mloc script st).2)
         = (length (sent st) + length script)%nat
      /\ iterations (loop mloc script st).2
         = (iterations st + length script)%nat)
     \/ store_filled returnStore (loop mloc script st).1 (loop mloc script st).2).
Proof.
  intros Hcap.
  assert (forall st : @LoopState W, may_iterate config st = true) as Hm.
  { intros st. unfold may_iterate. by rewrite Hcap. }
  induction script as [|fetched rest IH]; intros st Hall.
  - left. rewrite loop_nil by done. simpl. split; [done|]. split; lia.
  - apply Forall_cons in Hall as [Hreq Hall]. rewrite loop_cons by done.
    destruct (iteration_requests_tools mloc fetched st Hreq)
      as [(st' & -> & Hi & Hs) | (o & st' & -> & Hfilled & Hi & Hs)].
    + destruct (IH st' Hall) as [(Ho & Hsent & Hiter) | Hf].
      * left. split; [done|]. rewrite Hsent, Hiter, Hs, Hi.
        rewrite length_cons. split; lia.
      * by right.
    + by right.
Qed.

Lemma loop_unbounded_ends mloc :
  maxIterations config = None ->
  forall script st,
    (loop mloc script st).1 = Awaiting
    \/ exists fetched,
         fetched ∈ script
         /\ (tool_free provider config fetched
             \/ store_filled returnStore (loop mloc script st).1
                  (loop mloc script st).2
             \/ (fails provider config fetched
                 /\ exists message, (loop mloc script st).1 = Thrown message)).
Proof.
  intros Hcap.
  assert (forall st : @LoopState W, may_iterate config st = true) as Hm.
  { intros st. unfold may_iterate. by rewrite Hcap. }
  induction script as [|fetched rest IH]; intros st.
  - left. by rewrite loop_nil.
  - rewrite loop_cons by done.
    destruct (iteration mloc fetched st) as [o st'|st'] eqn:Hstep.
    + right. exists fetched. split; [by left|].
      by apply (iteration_Done_cases mloc fetched st).
    + destruct (IH st') as [Ha | (f & Hin & Hf)]; [by left|].
      right. exists f. split; [by right|done].
Qed.

Lemma string_length_app (s t : string) :
  String.length (s +:+ t) = (String.length s + String.length t)%nat.
Proof. induction s as [|c s IH]; simpl; [done|]. by rewrite IH. Qed.

Lemma string_app_inj_r (s1 s2 t : string) : s1 +:+ t = s2 +:+ t -> s1 = s2.
Proof.
  revert s2. induction s1 as [|c s1 IH]; intros [|d s2] H; simpl in *.
  - done.
  - apply (f_equal String.length) in H.
    rewrite ?string_length_app in H. simpl in H.
    rewrite ?string_length_app in H. lia.
  - apply (f_equal String.length) in H.
    rewrite ?string_length_app in H. simpl in H.
    rewrite ?string_length_app in H. lia.
  - inversion H. f_equal. by apply IH.
Qed.

(** The error of the cap names the cap. *)
Lemma max_iterations_error_inj (n m : Z) :
  max_iterations_error n = max_iterations_error m -> n = m.
Proof.
  unfold max_iterations_error. intros H.
  apply (inj (String.app "Max iterations (")) in H.
  apply string_app_inj_r in H. by apply (inj pretty).
Qed.

(** C2 (amended). The cap counts passes through the loop, one request and
    one response each, however many tool calls a response holds.  With a
    cap [n >= 1], if every response asks for at least one complete tool
    call, the loop sends exactly [n] requests and then throws
    "Max iterations (n) reached without completion", unless a store is
    found filled after one of the batches, in which case the loop returns
    the stored value after at most [n] requests; without a store the error
    is certain.  Without a cap the loop never throws that error: fed
    responses that ask for tools it keeps requesting, and it ends only on a
    response without tool calls, on a filled store, or on an error. *)
Theorem C2_iteration_cap (mloc : Heap.loc) (st : LoopState) :
  (forall (n : Z) script,
     maxIterations config = Some n ->
     1 <= n ->
     iterations st = 0%nat ->
     n <= Z.of_nat (length script) ->
     Forall (requests_tools provider config) script ->
     let r := loop mloc script st in
     ((r.1 = Thrown (max_iterations_error n)
       /\ Z.of_nat (length (sent r.2)) = Z.of_nat (length (sent st)) + n
       /\ Z.of_nat (iterations r.2) = n)
      \/ (store_filled returnStore r.1 r.2
          /\ Z.of_nat (length (sent r.2)) <= Z.of_nat (length (sent st)) + n
          /\ (length (sent st) < length (sent r.2))%nat))
     /\ (returnStore = None ->
         r.1 = Thrown (max_iterations_error n)
         /\ Z.of_nat (length (sent r.2)) = Z.of_nat (length (sent st)) + n))
  /\ (forall n m, max_iterations_error n = max_iterations_error m -> n = m)
  /\ (forall script,
        maxIterations config = None ->
        Forall (requests_tools provider config) script ->
        let r := loop mloc script st in
        (r.1 = Awaiting
         /\ length (sent r.2) = (length (sent st) + length script)%nat
         /\ iterations r.2 = (iterations st + length script)%nat)
        \/ store_filled returnStore r.1 r.2)
  /\ (forall script,
        maxIterations config = None ->
        let r := loop mloc script st in
        r.1 = Awaiting
        \/ exists fetched,
             fetched ∈ script
             /\ (tool_free provider config fetched
                 \/ store_filled returnStore r.1 r.2
                 \/ (fails provider config fetched
                     /\ exists message, r.1 = Thrown message))).
Proof.
  split; [|split; [|split]].
  - intros n script Hcap Hn Hit Hlen Hall r. subst r.
    assert (Z.of_nat (iterations st) + Z.of_nat (Z.to_nat n) = n) as Hk
      by (rewrite Hit; lia).
    assert (Z.to_nat n <= length script)%nat as Hlen' by lia.
    destruct (loop_capped mloc n Hcap (Z.to_nat n) script st Hk Hlen' Hall)
      as [(Ho & Hsent & Hiter) | (Hf & Hle & Hlt)].
    + split; [left; split; [done|split; [lia|done]]|].
      intros _. split; [done|lia].
    + split; [right; split; [done|split; [lia|done]]|].
      intros Hnone. destruct Hf as (get & ? & Hsome & _). congruence.
  - apply max_iterations_error_inj.
  - intros script Hcap Hall. by apply loop_unbounded.
  - intros script Hcap. by apply loop_unbounded_ends.
Qed.

End LoopFacts.

(** ** Sample runs *)

(** [runToolLoop] for the prompt [Hello], no history and the OpenAI
    adapter enters its loop in [start_state], with the history at
    location 0. *)
Lemma runToolLoop_start {W : Type} E (tools : list (ToolFunction W)) config
    schema returnStore systemPrompt script (w : W) :
  runToolLoop E OpenAI.provider tools config schema returnStore systemPrompt
    (PlainText "Hello") None None script w
  = loop E OpenAI.provider tools config schema returnStore systemPrompt
      0%nat script (start_state w).
Proof. reflexivity. Qed.

Lemma asks_loop_requests_tools cap :
  requests_tools OpenAI.provider (sample_config cap) asks_loop.
Proof.
  unfold requests_tools, asks_loop, openai_response.
  eexists _, _, _. split; [reflexivity|]. split; [reflexivity|].
  split; [reflexivity|]. discriminate.
Qed.

(** The test of the specification: a tool that is always asked for again,
    a cap of 2; the loop throws the error that names 2 after exactly two
    requests. *)
Lemma C2_example_cap_2 :
  let r := loop sample_engine OpenAI.provider [loop_tool]
             (sample_config (Some 2)) None None None 0%nat
             [asks_loop; asks_loop; asks_loop] (start_state tt) in
  r.1 = Thrown "Max iterations (2) reached without completion"
  /\ Z.of_nat (length (sent r.2)) = 2.
Proof.
  intros r.
  destruct (C2_iteration_cap sample_engine OpenAI.provider [loop_tool]
              (sample_config (Some 2)) None None None 0%nat (start_state tt))
    as (Hcap & _).
  destruct (Hcap 2 [asks_loop; asks_loop; asks_loop] eq_refl) as (_ & Hnone).
  - lia.
  - reflexivity.
  - simpl. lia.
  - repeat constructor; apply asks_loop_requests_tools.
  - exact (Hnone eq_refl).
Defined.

(** The same run from [runToolLoop]. *)
Lemma runToolLoop_cap_2 :
  let r := runToolLoop sample_engine OpenAI.provider [loop_tool]
             (sample_config (Some 2)) None None None (PlainText "Hello") None None
             [asks_loop; asks_loop; asks_loop] tt in
  r.1 = Thrown "Max iterations (2) reached without completion"
  /\ length (sent r.2) = 2%nat
  /\ events r.2 = [EStart; EToolCall "loop" (VObj []); EToolResult "loop" "continue";
                   EToolCall "loop" (VObj []); EToolResult "loop" "continue"].
Proof. vm_compute. repeat split. Qed.

(** The claim as first stated fails when a store is active: with a cap of
    2 and responses that all ask for a tool, the loop returns the stored
    value after one request and throws nothing. *)
Lemma C2_store_exit_before_the_cap :
  let script := [stores_then_more; stores_then_more; stores_then_more] in
  let r := runToolLoop sample_engine OpenAI.provider [return_value; noop_tool]
             (sample_config (Some 2)) None (Some Store.get) None
             (PlainText "Hello") None None script Store.initial in
  Forall (requests_tools OpenAI.provider (sample_config (Some 2))) script
  /\ (exists history, r.1 = Returned (VObj [("title", VStr "Done")]) history)
  /\ length (sent r.2) = 1%nat
  /\ r.1 <> Thrown (max_iterations_error 2).
Proof.
  intros script r. split; [|split; [|split]].
  - repeat constructor;
      (eexists _, _, _; split; [reflexivity|]; split; [reflexivity|];
       split; [reflexivity|]; discriminate).
  - eexists. vm_compute. reflexivity.
  - by vm_compute.
  - by vm_compute.
Qed.

(** A store filled by the first call of a turn: the second call of the
    turn is still executed, then the loop returns the stored value, with no
    further response to come. *)
Lemma C3_example_store_and_more :
  let r := loop sample_engine OpenAI.provider [return_value; noop_tool]
             (sample_config None) None (Some Store.get) None 0%nat
             [stores_then_more] (start_state Store.initial) in
  (exists history, r.1 = Returned (VObj [("title", VStr "Done")]) history
                   /\ length history = 4%nat)
  /\ events r.2
     = [EStart;
        EToolCall "return_value" (VObj [("title", VStr "Done")]);
        EToolResult "return_value" "Value stored successfully";
        EToolCall "noop" (VObj []);
        EToolResult "noop" "OK"].
Proof.
  intros r.
  pose (response := json_response (C := list OpenAI.Chunk)
          {| OpenAI.choices :=
               Some [ {| OpenAI.w_content := Some EmptyString;
                         OpenAI.w_tool_calls :=
                           Some [ {| OpenAI.w_id := "call_a";
                                     OpenAI.w_function_name := "return_value";
                                     OpenAI.w_function_arguments := title_done |};
                                  {| OpenAI.w_id := "call_b";
                                     OpenAI.w_function_name := "noop";
                                     OpenAI.w_function_arguments := "{}" |} ] |} ] |}).
  pose (parsed := {| content := EmptyString;
                     toolCalls :=
                       [Some {| tc_id := "call_a"; tc_name := "return_value";
                                tc_arguments := title_done |};
                        Some {| tc_id := "call_b"; tc_name := "noop";
                                tc_arguments := "{}" |}] |}).
  assert (filter_complete (toolCalls parsed) <> []) as Hne by discriminate.
  destruct (C3_store_early_exit sample_engine OpenAI.provider
              [return_value; noop_tool] (sample_config None) None
              (Some Store.get) None 0%nat response parsed [] Store.get []
              (start_state Store.initial)
              eq_refl eq_refl eq_refl eq_refl Hne eq_refl)
    as (_ & _ & (st' & Hloop & _ & _ & Hev & _) & _).
  split.
  - eexists. split; [exact (f_equal fst Hloop)|]. by vm_compute.
  - transitivity (events st'); [exact (f_equal (fun x => events x.2) Hloop)|].
    rewrite Hev. by vm_compute.
Defined.

(** A streamed OpenAI response with one complete call at index 0, nothing
    at index 1, and a call without a name at index 2: the loop works on the
    complete call alone. *)
Lemma C6_example_streamed_incomplete_call :
  let chunk :=
    {| OpenAI.c_choices :=
         Some [Some {| OpenAI.d_thinking := None;
                       OpenAI.d_reasoning_content := None;
                       OpenAI.d_reasoning := None;
                       OpenAI.d_content := None;
                       OpenAI.d_tool_calls :=
                         Some [ {| OpenAI.d_index := Some 0%nat;
                                   OpenAI.d_id := Some "call_1";
                                   OpenAI.d_function :=
                                     Some {| OpenAI.df_name := Some "loop";
                                             OpenAI.df_arguments := Some "{}" |} |};
                                {| OpenAI.d_index := Some 2%nat;
                                   OpenAI.d_id := Some "call_3";
                                   OpenAI.d_function :=
                                     Some {| OpenAI.df_name := None;
                                             OpenAI.df_arguments := Some "{}" |} |}
                              ] |}] |} in
  let call_1 := {| tc_id := "call_1"; tc_name := "loop"; tc_arguments := "{}" |} in
  let call_3 := {| tc_id := "call_3"; tc_name := EmptyString;
                   tc_arguments := "{}" |} in
  let raw := [Some call_1; None; Some call_3] in
  OpenAI.parseResponse
    (stream_response {| OpenAI.choices := None |} [chunk]) true
  = (Ok {| content := EmptyString; toolCalls := raw |}, [])
  /\ filter_complete raw = [call_1]
  /\ handleParsed sample_engine OpenAI.provider [loop_tool] (sample_config None)
       None None 0%nat {| content := EmptyString; toolCalls := raw |}
       (start_state tt)
     = handleParsed sample_engine OpenAI.provider [loop_tool] (sample_config None)
         None None 0%nat {| content := EmptyString; toolCalls := [Some call_1] |}
         (start_state tt).
Proof.
  intros chunk call_1 call_3 raw.
  split; [reflexivity|]. split; [reflexivity|].
  exact (proj1 (C6_incomplete_calls_dropped sample_engine OpenAI.provider
                  [loop_tool] (sample_config None) None None 0%nat
                  {| content := EmptyString; toolCalls := raw |}
                  (start_state tt))).
Defined.


(** The test of the specification: the model asks for a tool that does not
    exist, is told so, and answers; the loop makes a second request, whose
    messages carry the error, and returns the answer. *)
Lemma runToolLoop_unknown_tool :
  let r := runToolLoop (W := unit) sample_engine OpenAI.provider []
             (sample_config None) None None None (PlainText "Hello") None None
             [openai_response EmptyString [("call1", "unknownTool", "{}")];
              openai_response "Unknown tool error" []] tt in
  (exists history, r.1 = Returned (VStr "Unknown tool error") history)
  /\ length (sent r.2) = 2%nat
  /\ events r.2 = [EStart; EConsoleWarn "Unknown tool: unknownTool";
                   EContent ("Unknown tool error" +:+ newline)]
  /\ (req_body <$> sent r.2 !! 1%nat)
     = Some (VObj
         [("model", VStr "model");
          ("messages",
           VArr [user_hello;
                 VObj [("role", VStr "assistant"); ("content", VNull);
                       ("tool_calls",
                        VArr [VObj [("id", VStr "call1");
                                    ("type", VStr "function");
                                    ("function",
                                     VObj [("name", VStr "unknownTool");
                                           ("arguments", VStr "{}")])]])];
                 VObj [("role", VStr "tool"); ("tool_call_id", VStr "call1");
                       ("content",
                        VStr (error_payload "Unknown tool: unknownTool"))]]);
          ("stream", VBool false)]).
Proof.
  intros r. split; [|split; [|split]].
  - eexists. by vm_compute.
  - by vm_compute.
  - by vm_compute.
  - by vm_compute.
Qed.

(** With a system prompt, every request of a run carries one system
    message, whatever the number of passes, and the history that is
    returned carries none. *)
Lemma runToolLoop_system_prompt_once :
  let r := runToolLoop sample_engine OpenAI.provider [loop_tool]
             (sample_config None) None None (Some (PlainText "Be brief"))
             (PlainText "Hello") None None
             [asks_loop; asks_loop; openai_response "Done" []] tt in
  (exists history,
     r.1 = Returned (VStr "Done") history
     /\ length history = 6%nat
     /\ system_count history = 0%nat)
  /\ map (fun request => system_count (request_messages request)) (sent r.2)
     = [1; 1; 1]%nat
  /\ map (fun request => length (request_messages request)) (sent r.2)
     = [2; 4; 6]%nat.
Proof.
  intros r. split; [|split].
  - eexists. split; [by vm_compute|]. split; by vm_compute.
  - by vm_compute.
  - by vm_compute.
Qed.

(** ** Texts *)

Lemma string_app_assoc (a b c : string) : (a +:+ b) +:+ c = a +:+ (b +:+ c).
Proof.
  induction a as [|x a IH]; [done|].
  change (String x ((a +:+ b) +:+ c) = String x (a +:+ (b +:+ c))).
  by rewrite IH.
Qed.

Lemma string_app_nil_r (a : string) : a +:+ EmptyString = a.
Proof.
  induction a as [|x a IH]; [done|].
  change (String x (a +:+ EmptyString) = String x a). by rewrite IH.
Qed.

Lemma string_app_cons (c : ascii) (a b : string) :
  String c a +:+ b = String c (a +:+ b).
Proof. reflexivity. Qed.


Lemma substring_0_all (s : string) : String.substring 0 (String.length s) s = s.
Proof. induction s as [|c s IH]; [done|]. simpl. by rewrite IH. Qed.
(** ** Further properties of the loop *)

Section LoopBounds.

Context {W : Type}.
Variable E : Engine.
Variable provider : ProviderAdapter.
Variable tools : list (ToolFunction W).
Variable config : Config.
Variable schema : option ResolvedSchema.
Variable returnStore : option (W -> JsValue).
Variable systemPrompt : option PromptContent.

#[local] Abbreviation iteration' :=
  (Executor.iteration E provider tools config schema returnStore systemPrompt).
#[local] Abbreviation loop' :=
  (Executor.loop E provider tools config schema returnStore systemPrompt).
#[local] Abbreviation send' :=
  (Executor.send provider tools config schema systemPrompt).
#[local] Abbreviation handleParsed' :=
  (Executor.handleParsed E provider tools config schema returnStore).





End LoopBounds.


(** ** The history only grows *)

Section History.

Context {W : Type}.
Variable E : Engine.
Variable provider : ProviderAdapter.
Variable tools : list (ToolFunction W).
Variable config : Config.
Variable schema : option ResolvedSchema.
Variable returnStore : option (W -> JsValue).
Variable systemPrompt : option PromptContent.
Variable providerName : string.
Hypothesis registered : getProvider providerName = Ok provider.

#[local] Abbreviation iteration'' :=
  (Executor.iteration E provider tools config schema returnStore systemPrompt).
#[local] Abbreviation loop'' :=
  (Executor.loop E provider tools config schema returnStore systemPrompt).
#[local] Abbreviation send'' :=
  (Executor.send provider tools config schema systemPrompt).
#[local] Abbreviation handleParsed'' :=
  (Executor.handleParsed E provider tools config schema returnStore).

Lemma push_dom (h : Heap.t) l items : l ∈ dom h -> l ∈ dom (Heap.push h l items).
Proof. intros _. unfold Heap.push. rewrite dom_insert. set_solver. Qed.

Lemma send_dom mloc (st : LoopState) :
  mloc ∈ dom (heap st) -> mloc ∈ dom (heap (send'' mloc st)).
Proof.
  intros Hm. unfold Executor.send.
  destruct (buildRequest provider _ (heap st)) as [request h] eqn:Hb. simpl.
  apply elem_of_dom.
  replace h with (buildRequest provider
                    (Build_BuildRequestParams (cfg_apiUrl config) (cfg_apiKey config)
                       (cfg_modelName config) mloc (map meta tools)
                       (cfg_stream config) (cfg_temperature config)
                       (cfg_maxTokens config) systemPrompt (jsonSchema <$> schema))
                    (heap st)).2 by (by rewrite Hb).
  rewrite (buildRequest_frame providerName) by done.
  by apply elem_of_dom.
Qed.

(** What a parsed response does to the history: it is extended, and a
    returned [messages] is the array itself. *)
Lemma handleParsed_history mloc parsed st :
  mloc ∈ dom (heap st) ->
  match handleParsed'' mloc parsed st with
  | Done o st' =>
      mloc ∈ dom (heap st')
      /\ (exists suffix, suffix <> []
            /\ Heap.read (heap st') mloc = Heap.read (heap st) mloc ++ suffix)
      /\ (forall result msgs, o = Returned result msgs ->
                              msgs = Heap.read (heap st') mloc)
  | Continue st' =>
      mloc ∈ dom (heap st')
      /\ (exists suffix, suffix <> []
            /\ Heap.read (heap st') mloc = Heap.read (heap st) mloc ++ suffix)
  end.
Proof.
  intros Hm. unfold Executor.handleParsed.
  destruct (filter_complete (toolCalls parsed)) as [|tc tcs].
  - unfold Executor.finish.
    assert (exists suffix, suffix <> [] /\
              Heap.read (Heap.push (heap st) mloc
                           [formatAssistantMessage provider (content parsed) []]) mloc
              = Heap.read (heap st) mloc ++ suffix) as Hsuf.
    { eexists. split; [|apply HeapFacts.read_push]. done. }
    destruct schema as [sch|].
    + destruct (JSON_parse E (content parsed)) as [v|msg]; simpl.
      * destruct (parse sch v); simpl;
          (split; [by apply push_dom|]; split; [done|]);
          intros result msgs Ho; by inversion Ho.
      * split; [by apply push_dom|]. split; [done|]. intros ?? Ho. inversion Ho.
    + simpl. split; [by apply push_dom|]. split; [done|].
      intros ?? Ho. by inversion Ho.
  - unfold Executor.runBatch.
    destruct (executeToolCalls E tools config (tc :: tcs) (world st))
      as [[rs w] evs].
    assert (exists suffix, suffix <> [] /\
              Heap.read (Heap.push
                           (Heap.push (heap st) mloc
                              [formatAssistantMessage provider (content parsed)
                                 (tc :: tcs)])
                           mloc (formatToolResults provider rs)) mloc
              = Heap.read (heap st) mloc ++ suffix) as Hsuf.
    { eexists. split; [|by rewrite !HeapFacts.read_push, <- app_assoc]. done. }
    destruct returnStore as [get|].
    + destruct (is_undefined (get w)); simpl.
      * split; [by do 2 apply push_dom|done].
      * split; [by do 2 apply push_dom|]. split; [done|].
        intros ?? Ho. by inversion Ho.
    + simpl. split; [by do 2 apply push_dom|done].
Qed.

Lemma iteration_history mloc fetched st :
  mloc ∈ dom (heap st) ->
  match iteration'' mloc fetched st with
  | Done o st' =>
      mloc ∈ dom (heap st')
      /\ (exists suffix,
            Heap.read (heap st') mloc = Heap.read (heap st) mloc ++ suffix)
      /\ (forall result msgs, o = Returned result msgs ->
            msgs = Heap.read (heap st') mloc
            /\ Heap.read (heap st') mloc <> Heap.read (heap st) mloc)
  | Continue st' =>
      mloc ∈ dom (heap st')
      /\ (exists suffix,
            Heap.read (heap st') mloc = Heap.read (heap st) mloc ++ suffix)
  end.
Proof.
  intros Hm.
  pose proof (send_dom mloc st Hm) as Hd.
  pose proof (send_history provider tools config schema systemPrompt
                providerName mloc st registered Hm) as Hr.
  assert (exists suffix : list JsValue,
            Heap.read (heap (send'' mloc st)) mloc
            = Heap.read (heap st) mloc ++ suffix) as Hnil.
  { exists []. by rewrite app_nil_r. }
  unfold Executor.iteration. destruct fetched as [|message|response].
  - split; [done|]. split; [done|]. intros ?? Ho. inversion Ho.
  - split; [done|]. split; [done|]. intros ?? Ho. inversion Ho.
  - destruct (ok response); simpl.
    2:{ split; [done|]. split; [done|]. intros ?? Ho. inversion Ho. }
    destruct (parseResponse provider response (cfg_stream config))
      as [[parsed|message] evs].
    2:{ simpl. split; [done|]. split; [done|]. intros ?? Ho. inversion Ho. }
    pose proof (handleParsed_history mloc parsed (emit (send'' mloc st) evs)) as H.
    simpl in H. specialize (H Hd).
    destruct (handleParsed'' mloc parsed (emit (send'' mloc st) evs))
      as [o st'|st'].
    + destruct H as (Hd' & (suffix & Hne & Hs) & Hret). rewrite Hr in Hs.
      split; [done|]. split; [eauto|].
      intros result msgs Ho. split; [eauto|].
      rewrite Hs. intros Heq.
      rewrite <- (app_nil_r (Heap.read (heap st) mloc)) in Heq at 2.
      by apply app_inv_head in Heq.
    + destruct H as (Hd' & (suffix & Hne & Hs)). rewrite Hr in Hs. eauto.
Qed.

Lemma loop_history mloc script :
  forall st,
    mloc ∈ dom (heap st) ->
    (exists suffix,
       Heap.read (heap (loop'' mloc script st).2) mloc
       = Heap.read (heap st) mloc ++ suffix)
    /\ (forall result msgs,
          (loop'' mloc script st).1 = Returned result msgs ->
          msgs = Heap.read (heap (loop'' mloc script st).2) mloc
          /\ msgs <> Heap.read (heap st) mloc).
Proof.
  induction script as [|fetched rest IH]; intros st Hm; simpl.
  - destruct (may_iterate config st); simpl;
      (split; [exists []; by rewrite app_nil_r | intros ?? Ho; inversion Ho]).
  - destruct (may_iterate config st); simpl.
    2:{ split; [exists []; by rewrite app_nil_r | intros ?? Ho; inversion Ho]. }
    pose proof (iteration_history mloc fetched st Hm) as H.
    destruct (iteration'' mloc fetched st) as [o st'|st']; simpl.
    + destruct H as (_ & Hs & Hret). split; [done|].
      intros result msgs Ho. destruct (Hret result msgs Ho) as [-> Hne]. done.
    + destruct H as (Hd & suffix & Hs).
      destruct (IH st' Hd) as [(suffix' & Hs') Hret]. split.
      * exists (suffix ++ suffix'). by rewrite Hs', Hs, app_assoc.
      * intros result msgs Ho. destruct (Hret result msgs Ho) as [-> Hne].
        split; [done|]. intros Heq. apply Hne.
        pose proof (f_equal length Heq) as Hl.
        rewrite Hs', Hs, !length_app in Hl.
        assert (suffix' = []) as -> by (destruct suffix'; simpl in *; [done|lia]).
        rewrite Hs'. by rewrite app_nil_r.
Qed.

(** X5. With an adapter of the registry, the messages a run returns are
    the history it was given, followed by the user message of the prompt,
    followed by at least one further message: the history is only ever
    appended to. *)
Theorem X5_returned_messages_extend_history (promptText : PromptContent)
    (systemImages : option (list ContentPart)) (history : option (list JsValue))
    (script : list (FetchOutcome (WireJson provider) (WireStream provider)))
    (w : W) (result : JsValue) (msgs : list JsValue) :
  (runToolLoop E provider tools config schema returnStore systemPrompt
     promptText systemImages history script w).1 = Returned result msgs ->
  exists suffix,
    suffix <> []
    /\ msgs = default [] history
              ++ [formatUserMessage provider promptText systemImages]
              ++ suffix.
Proof.
  unfold runToolLoop.
  pose proof (HeapFacts.read_alloc_new ∅
                (default [] history
                 ++ [formatUserMessage provider promptText systemImages])) as Hread.
  destruct (Heap.alloc ∅ _) as [mloc h] eqn:Ha. simpl in Hread.
  intros Ho.
  assert (mloc ∈ dom h) as Hm.
  { unfold Heap.alloc in Ha. inversion Ha; subst. rewrite dom_insert. set_solver. }
  destruct (loop_history mloc script
              {| heap := h; world := w; events := [EStart]; iterations := 0;
                 sent := [] |} Hm) as [(suffix & Hs) Hret].
  destruct (Hret result msgs Ho) as [-> Hne]. simpl in *.
  exists suffix. rewrite Hs, Hread, <- app_assoc. split; [|done].
  intros ->. rewrite app_nil_r in Hs. by rewrite Hs in Hne.
Qed.

End History.

Lemma X5_example_history :
  (runToolLoop sample_engine OpenAI.provider [loop_tool]
     (sample_config None) None None None (PlainText "Hello") None
     (Some [user_hello]) [openai_response "Hi" []] tt).1
  = Returned (VStr "Hi")
      [user_hello; user_hello;
       VObj [("role", VStr "assistant"); ("content", VStr "Hi");
             ("tool_calls", VUndef)]]
  /\ exists suffix,
       suffix <> []
       /\ [user_hello; user_hello;
           VObj [("role", VStr "assistant"); ("content", VStr "Hi");
                 ("tool_calls", VUndef)]]
          = default [] (Some [user_hello])
            ++ [formatUserMessage OpenAI.provider (PlainText "Hello") None]
            ++ suffix.
Proof.
  split; [vm_compute; reflexivity|].
  apply (X5_returned_messages_extend_history sample_engine OpenAI.provider
           [loop_tool] (sample_config None) None None None "openai" eq_refl
           (PlainText "Hello") None (Some [user_hello])
           [openai_response "Hi" []] tt (VStr "Hi")).
  vm_compute; reflexivity.
Defined.

(** ** A batch of tool calls *)


Section Batch.

Context {W : Type}.
Variable E : Engine.
Variable tools : list (ToolFunction W).
Variable config : Config.

#[local] Abbreviation executeToolCalls' :=
  (Executor.executeToolCalls E tools config).
#[local] Abbreviation executeToolCall' :=
  (Executor.executeToolCall E tools config).

(** X1. A call of a registered tool whose arguments are not JSON is
    answered with an error payload and a [tool_error] event; the callable
    is not invoked, no [tool_call] event is emitted, and the calls before
    and after it in the batch are executed as if it were not there. *)
Theorem X1_invalid_arguments_are_reported (toolFn : ToolFunction W)
    (pre post : list ToolCallInfo) (bad : ToolCallInfo) (w : W) :
  findTool tools (tc_name bad) = Some toolFn ->
  JSON_parse_opt (tc_arguments bad) = None ->
  let error := "Invalid JSON arguments: "
               +:+ syntaxErrorMessage E (tc_arguments bad) in
  executeToolCalls' (pre ++ bad :: post) w
  = let '(r1, w1, ev1) := executeToolCalls' pre w in
    let '(r2, w2, ev2) := executeToolCalls' post w1 in
    (r1 ++ result_of bad (error_payload error) :: r2,
     w2,
     ev1 ++ EToolError (tc_name bad) error :: ev2).
Proof.
  intros Hfind Hparse error.
  rewrite executeToolCalls_app.
  destruct (executeToolCalls' pre w) as [[r1 w1] ev1].
  rewrite executeToolCalls_cons.
  unfold Executor.executeToolCall at 1. rewrite Hfind.
  unfold JSON_parse. rewrite Hparse.
  by destruct (executeToolCalls' post w1) as [[r2 w2] ev2].
Qed.



End Batch.

(** [{"a":] is not JSON. *)
Lemma X1_example_broken_arguments :
  findTool [recorder "log" ["a"]] "log" = Some (recorder "log" ["a"])
  /\ JSON_parse_opt ("{" +:+ quote "a" +:+ ":") = None
  /\ executeToolCalls sample_engine [recorder "log" ["a"]] (sample_config None)
       ([] ++ {| tc_id := "c1"; tc_name := "log";
                 tc_arguments := "{" +:+ quote "a" +:+ ":" |} :: []) []
     = ([ {| tr_id := "c1"; tr_name := "log";
             tr_result :=
               error_payload
                 "Invalid JSON arguments: Unexpected token in JSON" |} ],
        [],
        [EToolError "log" "Invalid JSON arguments: Unexpected token in JSON"]).
Proof.
  split; [reflexivity|]. split; [vm_compute; reflexivity|].
  exact (X1_invalid_arguments_are_reported sample_engine
           [recorder "log" ["a"]] (sample_config None) (recorder "log" ["a"])
           [] []
           {| tc_id := "c1"; tc_name := "log";
              tc_arguments := "{" +:+ quote "a" +:+ ":" |} []
           eq_refl eq_refl).
Defined.



Section BatchHistory.

Context {W : Type}.
Variable E : Engine.
Variable provider : ProviderAdapter.
Variable tools : list (ToolFunction W).
Variable config : Config.
Variable returnStore : option (W -> JsValue).

(** X6. Every call of a batch is answered: when the batch is over,
    whether the loop goes on or returns through the store, the history
    holds what it held, then the assistant turn with the calls, then the
    adapter's rendering of exactly one result per call, the results
    carrying the ids and the names of the calls in the order of the
    calls. *)
Theorem X6_one_result_per_call (mloc : Heap.loc) (content : string)
    (toolCalls : list ToolCallInfo) (st : LoopState (W := W)) :
  exists results : list ToolResultInfo,
    map tr_id results = map tc_id toolCalls
    /\ map tr_name results = map tc_name toolCalls
    /\ match Executor.runBatch E provider tools config returnStore mloc content
               toolCalls st with
       | Done _ st' | Continue st' =>
           Heap.read (heap st') mloc
           = Heap.read (heap st) mloc
             ++ formatAssistantMessage provider content toolCalls
             :: formatToolResults provider results
       end.
Proof.
  pose proof (executeToolCalls_ids E tools config toolCalls (world st))
    as (Hid & Hname & _).
  unfold Executor.runBatch.
  destruct (executeToolCalls E tools config toolCalls (world st))
    as [[results w] evs].
  exists results. split; [done|]. split; [done|].
  assert (Heap.read
            (Heap.push
               (Heap.push (heap st) mloc
                  [formatAssistantMessage provider content toolCalls])
               mloc (formatToolResults provider results)) mloc
          = Heap.read (heap st) mloc
            ++ formatAssistantMessage provider content toolCalls
            :: formatToolResults provider results) as Hh.
  { by rewrite !HeapFacts.read_push, <- app_assoc. }
  destruct returnStore as [get|]; [|done].
  by destruct (is_undefined (get w)).
Qed.

End BatchHistory.

(** ** The adapters *)



Lemma content_text_app (evs evs' : list Event) :
  content_text (evs ++ evs') = content_text evs +:+ content_text evs'.
Proof.
  induction evs as [|e evs IH]; [done|]. simpl. rewrite IH.
  destruct e; try done. by rewrite string_app_assoc.
Qed.

Lemma content_text_content (evs : list Event) (chunk : string) :
  content_text (evs ++ [EContent chunk]) = content_text evs +:+ chunk.
Proof. rewrite content_text_app. simpl. by rewrite string_app_nil_r. Qed.

Lemma content_text_thinking (evs : list Event) (chunk : string) :
  content_text (evs ++ [EThinking chunk]) = content_text evs.
Proof. rewrite content_text_app. simpl. by rewrite string_app_nil_r. Qed.

Lemma shown_stream (content : string) (evs : list Event) :
  content_text evs = content ->
  content_text (if nonempty content then evs ++ [EContent newline] else evs)
  = shown content.
Proof.
  intros <-. unfold shown. destruct (nonempty (content_text evs)) eqn:Hn.
  - by rewrite content_text_content.
  - by destruct (content_text evs).
Qed.

Lemma shown_whole (content : string) :
  content_text (if nonempty content then [EContent (content +:+ newline)] else [])
  = shown content.
Proof.
  unfold shown. destruct (nonempty content); [|done].
  simpl. by rewrite string_app_nil_r.
Qed.

Lemma OpenAI_on_chunk_text (st : OpenAI.StreamState) (chunk : OpenAI.Chunk) :
  content_text st.2 = st.1.1 ->
  content_text (OpenAI.on_chunk st chunk).2 = (OpenAI.on_chunk st chunk).1.1.
Proof.
  destruct st as [[content toolCalls] events]. simpl. intros Hinv.
  unfold OpenAI.on_chunk.
  destruct (mjoin (OpenAI.c_choices chunk ≫= head)) as [delta|]; [|done].
  set (thinking := opt_or _ _).
  destruct (nonempty thinking), (truthy_str (OpenAI.d_content delta)); simpl;
    rewrite ?content_text_content, ?content_text_thinking; by rewrite ?Hinv.
Qed.

Lemma OpenAI_stream_text (chunks : list OpenAI.Chunk) :
  forall st : OpenAI.StreamState,
    content_text st.2 = st.1.1 ->
    content_text (fold_left OpenAI.on_chunk chunks st).2
    = (fold_left OpenAI.on_chunk chunks st).1.1.
Proof.
  induction chunks as [|chunk chunks IH]; intros st Hinv; [done|].
  simpl. apply IH. by apply OpenAI_on_chunk_text.
Qed.

Lemma Anthropic_on_event_text (st : Anthropic.StreamState)
    (parsed : Anthropic.StreamEvent) :
  content_text st.2 = st.1.1.1 ->
  content_text (Anthropic.on_event st parsed).2
  = (Anthropic.on_event st parsed).1.1.1.
Proof.
  destruct st as [[[content toolCalls] cur] events]. simpl. intros Hinv.
  unfold Anthropic.on_event.
  repeat match goal with
         | |- context [if ?b then _ else _] => destruct b; simpl
         | |- context [match ?o with Some _ => _ | None => _ end] =>
             destruct o; simpl
         end;
    rewrite ?content_text_content, ?content_text_thinking; by rewrite ?Hinv.
Qed.

Lemma Anthropic_stream_text (stream_events : list Anthropic.StreamEvent) :
  forall st : Anthropic.StreamState,
    content_text st.2 = st.1.1.1 ->
    content_text (fold_left Anthropic.on_event stream_events st).2
    = (fold_left Anthropic.on_event stream_events st).1.1.1.
Proof.
  induction stream_events as [|e es IH]; intros st Hinv; [done|].
  simpl. apply IH. by apply Anthropic_on_event_text.
Qed.

Lemma Ollama_on_line_text (st : Ollama.StreamState)
    (parsed : Ollama.OllamaStreamChunk) :
  content_text st.2 = st.1.1 ->
  content_text (Ollama.on_line st parsed).2 = (Ollama.on_line st parsed).1.1.
Proof.
  destruct st as [[content toolCalls] events]. simpl. intros Hinv.
  unfold Ollama.on_line.
  destruct (truthy_str (Ollama.c_message parsed ≫= Ollama.m_content)); simpl;
    rewrite ?content_text_content; by rewrite ?Hinv.
Qed.

Lemma Ollama_on_lines_text (lines : list Ollama.OllamaStreamChunk) :
  forall st : Ollama.StreamState,
    content_text st.2 = st.1.1 ->
    content_text (Ollama.on_lines st lines).2 = (Ollama.on_lines st lines).1.1.
Proof.
  induction lines as [|parsed lines IH]; intros st Hinv; [done|].
  simpl. pose proof (Ollama_on_line_text st parsed Hinv).
  destruct (default false (Ollama.done parsed)); [done|]. by apply IH.
Qed.

Lemma Ollama_stream_text (reads : list (list Ollama.OllamaStreamChunk)) :
  forall st : Ollama.StreamState,
    content_text st.2 = st.1.1 ->
    content_text (fold_left Ollama.on_lines reads st).2
    = (fold_left Ollama.on_lines reads st).1.1.
Proof.
  induction reads as [|lines reads IH]; intros st Hinv; [done|].
  simpl. apply IH. by apply Ollama_on_lines_text.
Qed.

(** X7. Whichever adapter of the registry parses a response, streamed or
    not, the [content] events it emits carry, put together, the text it
    returns followed by one line break, and nothing when that text is
    empty. *)
Theorem X7_content_events_spell_the_content (providerName : string)
    (P : ProviderAdapter) (response : Response (WireJson P) (WireStream P))
    (streaming : bool) (parsed : ParsedResponse) (evs : list Event) :
  getProvider providerName = Ok P ->
  parseResponse P response streaming = (Ok parsed, evs) ->
  content_text evs = shown (content parsed).
Proof.
  intros HP.
  destruct (getProvider_cases _ _ HP) as [[_ ->] | [[_ ->] | [_ ->]]]; simpl in *.
  - unfold OpenAI.parseResponse.
    destruct (if streaming then stream_body response else None) as [chunks|].
    + pose proof (OpenAI_stream_text chunks (EmptyString, [], []) eq_refl) as H.
      destruct (fold_left OpenAI.on_chunk chunks _) as [[content toolCalls] events].
      intros Hp. inversion Hp; subst. simpl in *. by apply shown_stream.
    + destruct (json response) as [data|]; [|done].
      destruct (OpenAI.choices data ≫= head) as [message|]; [|done].
      intros Hp. inversion Hp; subst. simpl. apply shown_whole.
  - unfold Anthropic.parseResponse.
    destruct (if streaming then stream_body response else None) as [es|].
    + pose proof (Anthropic_stream_text es (EmptyString, [], None, []) eq_refl) as H.
      destruct (fold_left Anthropic.on_event es _)
        as [[[content toolCalls] cur] events].
      intros Hp. inversion Hp; subst. simpl in *. by apply shown_stream.
    + destruct (json response) as [data|]; [|done].
      destruct (Anthropic.w_content data) as [blocks|]; [|done].
      destruct (fold_left Anthropic.on_block blocks _) as [content toolCalls].
      intros Hp. inversion Hp; subst. simpl. apply shown_whole.
  - unfold Ollama.parseResponse.
    destruct (if streaming then stream_body response else None) as [reads|].
    + pose proof (Ollama_stream_text reads (EmptyString, [], []) eq_refl) as H.
      destruct (fold_left Ollama.on_lines reads _) as [[content toolCalls] events].
      intros Hp. inversion Hp; subst. simpl in *. by apply shown_stream.
    + destruct (json response) as [data|]; [|done].
      destruct (Ollama.r_message data) as [message|]; [|done].
      intros Hp. inversion Hp; subst. simpl. apply shown_whole.
Qed.

Lemma X7_example_streamed_hello :
  getProvider "openai" = Ok OpenAI.provider
  /\ content_text [EContent "Hel"; EContent "lo"; EContent newline]
     = shown "Hello".
Proof.
  split; [reflexivity|].
  exact (X7_content_events_spell_the_content "openai" OpenAI.provider
           (@stream_response OpenAI.WireData (list OpenAI.Chunk)
              {| OpenAI.choices := None |} [text_chunk "Hel"; text_chunk "lo"])
           true {| content := "Hello"; toolCalls := [] |}
           [EContent "Hel"; EContent "lo"; EContent newline]
           eq_refl eq_refl).
Defined.

(** *** Arrays with holes *)

Lemma sparse_get_set_eq {A} (l : list (option A)) (i : nat) (v : A) :
  sparse_get (sparse_set l i v) i = Some v.
Proof.
  revert l. induction i as [|i IH]; intros [|x l]; simpl; try done.
  - apply (IH []).
  - apply IH.
Qed.

Lemma sparse_get_nil {A} (j : nat) : sparse_get (@nil (option A)) j = None.
Proof. by destruct j. Qed.

Lemma sparse_get_set_ne {A} (l : list (option A)) (i j : nat) (v : A) :
  i <> j -> sparse_get (sparse_set l i v) j = sparse_get l j.
Proof.
  revert l j. induction i as [|i IH]; intros [|x l] [|j] Hne; simpl; try done.
  - change (sparse_get (sparse_set [] i v) j = None).
    rewrite IH by lia. apply sparse_get_nil.
  - change (sparse_get (sparse_set l i v) j = sparse_get l j).
    apply IH. lia.
Qed.

(** *** OpenAI: calls put together from a stream *)

Lemma accrete_other (toolCalls : list (option ToolCallInfo))
    (tc : OpenAI.DeltaToolCall) (j : nat) :
  delta_index tc <> j ->
  sparse_get (OpenAI.accrete toolCalls tc) j = sparse_get toolCalls j.
Proof. intros Hne. unfold OpenAI.accrete. by apply sparse_get_set_ne. Qed.

Lemma accrete_fragment (toolCalls : list (option ToolCallInfo)) (idx : nat)
    (piece : string) (cur : ToolCallInfo) :
  sparse_get toolCalls idx = Some cur ->
  sparse_get (OpenAI.accrete toolCalls (fragment idx piece)) idx
  = Some (with_more_arguments cur piece).
Proof.
  intros Hcur. unfold OpenAI.accrete. simpl. rewrite Hcur.
  rewrite sparse_get_set_eq. f_equal. unfold with_more_arguments.
  destruct cur as [id nm args]. simpl.
  destruct piece; simpl; [by rewrite string_app_nil_r | done].
Qed.

Lemma accrete_opening (toolCalls : list (option ToolCallInfo)) (idx : nat)
    (id toolName first : string) :
  sparse_get toolCalls idx = None ->
  sparse_get (OpenAI.accrete toolCalls (opening idx id toolName first)) idx
  = Some {| tc_id := id; tc_name := toolName; tc_arguments := first |}.
Proof.
  intros Hcur. unfold OpenAI.accrete. simpl. rewrite Hcur.
  rewrite sparse_get_set_eq. f_equal.
  by destruct id, toolName, first.
Qed.

Lemma accrete_fragments (idx : nat) (deltas : list OpenAI.DeltaToolCall) :
  forall (pieces : list string) (toolCalls : list (option ToolCallInfo))
         (cur : ToolCallInfo),
    sparse_get toolCalls idx = Some cur ->
    filter (fun tc => delta_index tc = idx) deltas = map (fragment idx) pieces ->
    sparse_get (fold_left OpenAI.accrete deltas toolCalls) idx
    = Some (with_more_arguments cur (concat_strings pieces)).
Proof.
  induction deltas as [|d deltas IH]; intros pieces toolCalls cur Hcur Hf.
  - destruct pieces; [|done]. simpl. rewrite Hcur. f_equal.
    destruct cur. unfold with_more_arguments. simpl. by rewrite string_app_nil_r.
  - simpl. destruct (decide (delta_index d = idx)) as [Hd|Hd].
    + rewrite filter_cons_True in Hf by done.
      destruct pieces as [|piece pieces]; [done|]. simpl in Hf.
      inversion Hf as [[Hd' Hf']]. subst d.
      rewrite (IH pieces _ (with_more_arguments cur piece)
                 (accrete_fragment _ _ _ _ Hcur) Hf').
      f_equal. unfold with_more_arguments. simpl. by rewrite string_app_assoc.
    + rewrite filter_cons_False in Hf by done.
      apply (IH pieces); [|done]. by rewrite accrete_other.
Qed.

Lemma accrete_stream (deltas : list OpenAI.DeltaToolCall)
    (toolCalls : list (option ToolCallInfo)) (idx : nat)
    (id toolName first : string) (pieces : list string) :
  sparse_get toolCalls idx = None ->
  filter (fun tc => delta_index tc = idx) deltas
  = opening idx id toolName first :: map (fragment idx) pieces ->
  sparse_get (fold_left OpenAI.accrete deltas toolCalls) idx
  = Some {| tc_id := id; tc_name := toolName;
            tc_arguments := first +:+ concat_strings pieces |}.
Proof.
  revert toolCalls. induction deltas as [|d deltas IH]; intros toolCalls Hcur Hf;
    [done|].
  simpl. destruct (decide (delta_index d = idx)) as [Hd|Hd].
  - rewrite filter_cons_True in Hf by done.
    inversion Hf as [[Hd' Hf']]. subst d.
    by rewrite (accrete_fragments idx deltas pieces _ _
                  (accrete_opening _ _ _ _ _ Hcur) Hf').
  - rewrite filter_cons_False in Hf by done.
    apply IH; [|done]. by rewrite accrete_other.
Qed.


Lemma OpenAI_stream_calls (chunks : list OpenAI.Chunk) :
  forall st : OpenAI.StreamState,
    (fold_left OpenAI.on_chunk chunks st).1.2
    = fold_left OpenAI.accrete (stream_tool_calls chunks) st.1.2.
Proof.
  induction chunks as [|chunk chunks IH]; intros st; [done|].
  simpl. rewrite IH. clear IH.
  destruct st as [[content toolCalls] events].
  unfold OpenAI.on_chunk, stream_tool_calls. simpl.
  destruct (mjoin (OpenAI.c_choices chunk ≫= head)) as [delta|]; simpl; [|done].
  destruct (OpenAI.d_tool_calls delta) as [tcs|]; simpl.
  - rewrite fold_left_app.
    repeat match goal with
           | |- context [if ?b then _ else _] => destruct b; simpl
           end; done.
  - repeat match goal with
           | |- context [if ?b then _ else _] => destruct b; simpl
           end; done.
Qed.

(** X8. Parallel tool calls of an OpenAI stream do not disturb each other.
    If the entries the stream carries for index [idx] are an opening entry
    with the id, the name and the beginning of the arguments, followed by
    further pieces, then, however these entries are spread over the chunks
    and interleaved with the entries for other indexes, the parsed response
    has at [idx] the call with that id, that name, and the pieces of the
    arguments joined in their order. *)
Theorem X8_streamed_call_is_put_together
    (response : Response OpenAI.WireData (list OpenAI.Chunk))
    (chunks : list OpenAI.Chunk) (idx : nat)
    (id toolName first : string) (pieces : list string) :
  stream_body response = Some chunks ->
  filter (fun tc => delta_index tc = idx) (stream_tool_calls chunks)
  = opening idx id toolName first :: map (fragment idx) pieces ->
  exists parsed evs,
    OpenAI.parseResponse response true = (Ok parsed, evs)
    /\ sparse_get (toolCalls parsed) idx
       = Some {| tc_id := id; tc_name := toolName;
                 tc_arguments := first +:+ concat_strings pieces |}.
Proof.
  intros Hbody Hf. unfold OpenAI.parseResponse. rewrite Hbody.
  pose proof (OpenAI_stream_calls chunks (EmptyString, [], [])) as Hcalls.
  destruct (fold_left OpenAI.on_chunk chunks _) as [[content toolCalls] events].
  simpl in Hcalls. subst toolCalls. eexists _, _. split; [reflexivity|]. simpl.
  by apply accrete_stream.
Qed.

Lemma X8_example_two_calls :
  let chunks :=
    [tool_chunk [opening 0 "a" "first" EmptyString; opening 1 "b" "second" "{"];
     tool_chunk [fragment 0 "{}"];
     tool_chunk [fragment 1 "}"]] in
  let response :=
    @stream_response OpenAI.WireData (list OpenAI.Chunk)
      {| OpenAI.choices := None |} chunks in
  stream_body response = Some chunks
  /\ exists parsed evs,
       OpenAI.parseResponse response true = (Ok parsed, evs)
       /\ sparse_get (toolCalls parsed) 1
          = Some {| tc_id := "b"; tc_name := "second";
                    tc_arguments := "{" +:+ concat_strings ["}"] |}.
Proof.
  intros chunks response. split; [reflexivity|].
  exact (X8_streamed_call_is_put_together response chunks 1 "b" "second" "{"
           ["}"] eq_refl eq_refl).
Defined.

(** *** Anthropic: a streamed [tool_use] block *)

Lemma append_arguments_last (toolCalls : list ToolCallInfo) (cur : ToolCallInfo)
    (piece : string) :
  append_arguments (toolCalls ++ [cur]) (length toolCalls) piece
  = toolCalls ++ [with_more_arguments cur piece].
Proof.
  unfold append_arguments.
  replace (length toolCalls) with (length toolCalls + 0)%nat by lia.
  by rewrite alter_app_r.
Qed.

Lemma Anthropic_input_pieces (pieces : list string) :
  forall (content : string) (toolCalls : list ToolCallInfo) (cur : ToolCallInfo)
         (events : list Event),
    fold_left Anthropic.on_event (map input_json_delta pieces)
      (content, toolCalls ++ [cur], Some (length toolCalls), events)
    = (content,
       toolCalls ++ [with_more_arguments cur (concat_strings pieces)],
       Some (length toolCalls), events).
Proof.
  induction pieces as [|piece pieces IH]; intros content toolCalls cur events.
  - simpl. destruct cur. unfold with_more_arguments. simpl.
    by rewrite string_app_nil_r.
  - simpl. rewrite append_arguments_last, IH.
    unfold with_more_arguments. simpl. by rewrite string_app_assoc.
Qed.

(** X9. A [tool_use] block of an Anthropic stream, its start, the pieces
    of its input and its stop, adds exactly one call to the calls gathered
    so far: the id and the name of the start, and the pieces joined in
    their order as arguments.  The text gathered and the events are left as
    they are, and once the block has stopped a further piece of input
    changes nothing. *)
Theorem X9_streamed_block_is_one_call (content : string)
    (toolCalls : list ToolCallInfo) (current : option nat) (events : list Event)
    (id toolName : string) (pieces : list string) :
  let after :=
    fold_left Anthropic.on_event
      (block_start id toolName :: map input_json_delta pieces ++ [block_stop])
      (content, toolCalls, current, events) in
  after
  = (content,
     toolCalls ++ [{| tc_id := id; tc_name := toolName;
                      tc_arguments := concat_strings pieces |}],
     None, events)
  /\ forall piece, Anthropic.on_event after (input_json_delta piece) = after.
Proof.
  intros after.
  assert (after
          = (content,
             toolCalls ++ [{| tc_id := id; tc_name := toolName;
                              tc_arguments := concat_strings pieces |}],
             None, events)) as ->.
  { subst after. simpl. rewrite fold_left_app.
    replace (str_or id EmptyString) with id by (by destruct id).
    replace (str_or toolName EmptyString) with toolName
      by (by destruct toolName).
    by rewrite Anthropic_input_pieces. }
  split; [done|]. intros piece. reflexivity.
Qed.

(** *** Ollama: the ids of the calls *)

Lemma push_calls_ids (tcs : list Ollama.WireToolCall) :
  forall toolCalls : list ToolCallInfo,
    (forall i tc, toolCalls !! i = Some tc -> tc_id tc = "ollama_" +:+ pretty i) ->
    forall i tc,
      fold_left Ollama.push_call tcs toolCalls !! i = Some tc ->
      tc_id tc = "ollama_" +:+ pretty i.
Proof.
  induction tcs as [|wtc tcs IH]; intros toolCalls Hinv; [done|].
  simpl. apply IH. intros i tc. unfold Ollama.push_call.
  destruct (decide (i < length toolCalls)%nat) as [Hlt|Hge].
  - rewrite lookup_app_l by done. apply Hinv.
  - rewrite lookup_app_r by lia.
    destruct (i - length toolCalls)%nat as [|k] eqn:Hk; simpl; [|done].
    intros H. inversion H; subst. simpl. do 2 f_equal. lia.
Qed.

Lemma Ollama_on_lines_ids (lines : list Ollama.OllamaStreamChunk) :
  forall st : Ollama.StreamState,
    (forall i tc, st.1.2 !! i = Some tc -> tc_id tc = "ollama_" +:+ pretty i) ->
    forall i tc,
      (Ollama.on_lines st lines).1.2 !! i = Some tc ->
      tc_id tc = "ollama_" +:+ pretty i.
Proof.
  induction lines as [|parsed lines IH]; intros st Hinv; [done|].
  simpl.
  assert (forall i tc, (Ollama.on_line st parsed).1.2 !! i = Some tc ->
                       tc_id tc = "ollama_" +:+ pretty i) as Hstep.
  { destruct st as [[content toolCalls] events]. unfold Ollama.on_line.
    destruct (truthy_str _); simpl;
      (destruct (Ollama.c_message parsed ≫= Ollama.m_tool_calls) as [tcs|];
       [by apply push_calls_ids | done]). }
  destruct (default false (Ollama.done parsed)); [done|]. by apply IH.
Qed.

Lemma Ollama_stream_ids (reads : list (list Ollama.OllamaStreamChunk)) :
  forall st : Ollama.StreamState,
    (forall i tc, st.1.2 !! i = Some tc -> tc_id tc = "ollama_" +:+ pretty i) ->
    forall i tc,
      (fold_left Ollama.on_lines reads st).1.2 !! i = Some tc ->
      tc_id tc = "ollama_" +:+ pretty i.
Proof.
  induction reads as [|lines reads IH]; intros st Hinv; [done|].
  simpl. apply IH. by apply Ollama_on_lines_ids.
Qed.

Lemma ollama_id_inj (i j : nat) :
  "ollama_" +:+ pretty i = "ollama_" +:+ pretty j -> i = j.
Proof. intros H. apply (inj _) in H. by apply (inj pretty) in H. Qed.

Lemma ids_by_position_NoDup (l : list ToolCallInfo) :
  (forall i tc, l !! i = Some tc -> tc_id tc = "ollama_" +:+ pretty i) ->
  NoDup (map tc_id l).
Proof.
  intros Hinv. apply NoDup_alt. intros i j id Hi Hj.
  rewrite list_lookup_fmap in Hi, Hj.
  destruct (l !! i) as [a|] eqn:Ha; [|done].
  destruct (l !! j) as [b|] eqn:Hb; [|done].
  simpl in *. inversion Hi; inversion Hj; subst.
  apply ollama_id_inj. rewrite <- (Hinv i a Ha), <- (Hinv j b Hb). congruence.
Qed.

(** X10. Ollama sends no ids, the adapter makes them: in every response
    it parses, streamed or not, the call at position [i] has the id
    [ollama_i].  So there is no hole, the ids of one response are pairwise
    distinct and never empty, and a call is dispatched by the loop exactly
    when it has a name. *)
Theorem X10_ollama_ids_number_the_calls
    (response : Response Ollama.OllamaResponse (list (list Ollama.OllamaStreamChunk)))
    (streaming : bool) (parsed : ParsedResponse) (evs : list Event) :
  Ollama.parseResponse response streaming = (Ok parsed, evs) ->
  exists calls : list ToolCallInfo,
    toolCalls parsed = map Some calls
    /\ (forall i tc, calls !! i = Some tc -> tc_id tc = "ollama_" +:+ pretty i)
    /\ NoDup (map tc_id calls)
    /\ filter_complete (toolCalls parsed)
       = filter (fun tc => nonempty (tc_name tc) = true) calls.
Proof.
  intros Hp.
  assert (exists calls : list ToolCallInfo,
            toolCalls parsed = map Some calls
            /\ (forall i tc, calls !! i = Some tc ->
                             tc_id tc = "ollama_" +:+ pretty i))
    as (calls & Hcalls & Hids).
  { unfold Ollama.parseResponse in Hp.
    destruct (if streaming then stream_body response else None) as [reads|].
    - pose proof (Ollama_stream_ids reads (EmptyString, [], [])) as H.
      destruct (fold_left Ollama.on_lines reads _) as [[content calls] events].
      inversion Hp; subst. exists calls. split; [done|]. by apply H.
    - destruct (json response) as [data|]; [|done].
      destruct (Ollama.r_message data) as [message|]; [|done].
      inversion Hp; subst. eexists. split; [reflexivity|].
      by apply push_calls_ids. }
  exists calls. split; [done|]. split; [done|].
  split; [by apply ids_by_position_NoDup|].
  rewrite Hcalls. clear Hp Hcalls.
  revert Hids. induction calls as [|tc calls IH] using rev_ind; intros Hids;
    [done|].
  rewrite map_app, filter_app. unfold filter_complete in *.
  rewrite omap_app, IH.
  2:{ intros i c Hi. apply Hids. by apply lookup_app_l_Some. }
  f_equal. simpl. unfold complete.
  assert (tc_id tc = "ollama_" +:+ pretty (length calls)) as ->.
  { apply Hids. rewrite lookup_app_r by lia. by rewrite Nat.sub_diag. }
  change (nonempty ("ollama_" +:+ pretty (length calls))) with true. simpl.
  destruct (nonempty (tc_name tc)) eqn:Hn.
  - by rewrite filter_cons_True.
  - rewrite filter_cons_False; [done|]. by rewrite Hn.
Qed.

Lemma X10_example_two_calls :
  Ollama.parseResponse (json_response ollama_two_calls) false
  = (Ok ollama_two_calls_parsed, [])
  /\ exists calls : list ToolCallInfo,
       toolCalls ollama_two_calls_parsed = map Some calls
       /\ (forall i tc, calls !! i = Some tc -> tc_id tc = "ollama_" +:+ pretty i)
       /\ NoDup (map tc_id calls)
       /\ filter_complete (toolCalls ollama_two_calls_parsed)
          = filter (fun tc => nonempty (tc_name tc) = true) calls.
Proof.
  split; [reflexivity|].
  exact (X10_ollama_ids_number_the_calls (json_response ollama_two_calls) false
           ollama_two_calls_parsed [] eq_refl).
Defined.

(** ** Server-sent events *)

Lemma split_lines_nonempty (s : string) : split_lines s <> [].
Proof.
  induction s as [|c s IH]; simpl; [done|].
  destruct (N_of_ascii c =? 10)%N; [done|]. by destruct (split_lines s).
Qed.


Lemma split_lines_cons (c : ascii) (s : string) :
  split_lines (String c s)
  = if (N_of_ascii c =? 10)%N then EmptyString :: split_lines s
    else match split_lines s with
         | l :: ls => String c l :: ls
         | [] => [String c EmptyString]
         end.
Proof. reflexivity. Qed.

(** Splitting a text that is continued: the lines the first part has
    completed, then the split of its last piece with the continuation. *)
Lemma split_lines_app (a b : string) :
  split_lines (a +:+ b)
  = List.removelast (split_lines a)
    ++ split_lines (List.last (split_lines a) EmptyString +:+ b).
Proof.
  induction a as [|c a IH]; [done|].
  rewrite string_app_cons, !split_lines_cons, IH.
  pose proof (split_lines_nonempty a) as Hne.
  destruct (split_lines a) as [|l ls] eqn:Hs; [done|]. clear Hne.
  destruct (N_of_ascii c =? 10)%N eqn:Hc; [done|].
  destruct ls as [|l' ls'].
  - cbn [List.removelast List.last app].
    rewrite string_app_cons, split_lines_cons, Hc. done.
  - done.
Qed.

Lemma Streaming_on_lines_app (l1 l2 : list string) :
  Streaming.on_lines (l1 ++ l2)
  = let '(vs, stopped) := Streaming.on_lines l1 in
    if stopped then (vs, true)
    else let '(vs', stopped') := Streaming.on_lines l2 in (vs ++ vs', stopped').
Proof.
  induction l1 as [|line l1 IH]; simpl.
  - by destruct (Streaming.on_lines l2).
  - destruct (Streaming.on_line line); [done| |done].
    rewrite IH. destruct (Streaming.on_lines l1) as [vs [|]]; [done|].
    by destruct (Streaming.on_lines l2).
Qed.

(** A piece of a split holds no line feed. *)
Lemma split_lines_pieces (s : string) :
  Forall (fun l => split_lines l = [l]) (split_lines s).
Proof.
  induction s as [|c s IH]; [by constructor|].
  rewrite split_lines_cons.
  destruct (N_of_ascii c =? 10)%N eqn:Hc; [by constructor|].
  pose proof (split_lines_nonempty s) as Hne.
  destruct (split_lines s) as [|l ls]; [done|].
  apply Forall_cons in IH as [Hl Hls]. constructor; [|done].
  by rewrite split_lines_cons, Hc, Hl.
Qed.

Lemma split_lines_last (s : string) :
  split_lines (List.last (split_lines s) EmptyString)
  = [List.last (split_lines s) EmptyString].
Proof.
  pose proof (split_lines_pieces s) as H.
  pose proof (split_lines_nonempty s) as Hne.
  induction (split_lines s) as [|l ls IH]; [done|].
  apply Forall_cons in H as [Hl Hls].
  destruct ls as [|l' ls']; [done|]. by apply IH.
Qed.

Lemma split_lines_line (l : string) :
  split_lines l = [l] -> split_lines (l +:+ newline) = [l; EmptyString].
Proof.
  induction l as [|c l IH]; [done|].
  rewrite string_app_cons, !split_lines_cons.
  destruct (N_of_ascii c =? 10)%N; [done|].
  pose proof (split_lines_nonempty l) as Hne.
  destruct (split_lines l) as [|h t] eqn:Hs; [done|].
  intros Heq. inversion Heq; subst. by rewrite IH.
Qed.

(** The values yielded are those of the complete lines of the whole text,
    up to the line that ends the stream. *)
Lemma parseSSEStream_from_closed (reads : list string) :
  forall buffer,
    split_lines buffer = [buffer] ->
    Streaming.parseSSEStream_from buffer reads
    = (Streaming.on_lines
         (Streaming.complete_lines (buffer +:+ concat_strings reads))).1.
Proof.
  unfold Streaming.complete_lines.
  induction reads as [|value rest IH]; intros buffer Hb.
  - simpl. by rewrite string_app_nil_r, Hb.
  - simpl. rewrite <- string_app_assoc, (split_lines_app (buffer +:+ value)).
    rewrite List.removelast_app by apply split_lines_nonempty.
    rewrite Streaming_on_lines_app.
    rewrite (IH _ (split_lines_last (buffer +:+ value))).
    destruct (Streaming.on_lines (List.removelast (split_lines (buffer +:+ value))))
      as [vs [|]]; [done|].
    by destruct (Streaming.on_lines _).
Qed.

(** X11. What [parseSSEStream] yields depends on the text of the stream
    only, not on how the text is cut into reads. *)
Theorem X11_sse_reads_may_be_cut_anywhere (reads reads' : list string) :
  concat_strings reads = concat_strings reads' ->
  Streaming.parseSSEStream reads = Streaming.parseSSEStream reads'.
Proof.
  intros Heq. unfold Streaming.parseSSEStream.
  rewrite !parseSSEStream_from_closed by done. by rewrite Heq.
Qed.

(** X12. Only a line that is ended by a line feed is delivered: text
    after the last line feed of the stream is dropped when the reads are
    over, and nothing that follows the line [data: [DONE]] is delivered. *)
Theorem X12_sse_delivers_complete_lines (reads : list string) :
  Streaming.parseSSEStream reads
  = (Streaming.on_lines (Streaming.complete_lines (concat_strings reads))).1
  /\ (forall text tail : string,
        split_lines tail = [tail] ->
        Streaming.complete_lines (text +:+ newline +:+ tail)
        = Streaming.complete_lines (text +:+ newline))
  /\ Streaming.on_line "data: [DONE]" = Streaming.Stop
  /\ (forall (before after : list string) (line : string),
        Streaming.on_line line = Streaming.Stop ->
        (Streaming.on_lines (before ++ line :: after)).1
        = (Streaming.on_lines before).1).
Proof.
  split; [|split; [|split; [reflexivity|]]].
  - unfold Streaming.parseSSEStream. by rewrite parseSSEStream_from_closed.
  - intros text tail Htail. unfold Streaming.complete_lines.
    rewrite <- !string_app_assoc.
    rewrite (split_lines_app (text +:+ newline) tail).
    assert (List.last (split_lines (text +:+ newline)) EmptyString = EmptyString)
      as ->.
    { rewrite split_lines_app, (split_lines_line _ (split_lines_last text)).
      change [List.last (split_lines text) EmptyString; EmptyString]
        with ([List.last (split_lines text) EmptyString] ++ [EmptyString]).
      rewrite app_assoc. apply List.last_last. }
    change (EmptyString +:+ tail) with tail. rewrite Htail.
    apply List.removelast_last.
  - intros before after line Hstop. rewrite Streaming_on_lines_app.
    destruct (Streaming.on_lines before) as [vs [|]]; [done|].
    simpl. rewrite Hstop. simpl. by rewrite app_nil_r.
Qed.

Lemma X11_example_cut_in_a_line :
  concat_strings ["data: {}" +:+ newline +:+ "da"; "ta: 1" +:+ newline]
  = concat_strings ["data: {}" +:+ newline +:+ "data: 1" +:+ newline]
  /\ Streaming.parseSSEStream
       ["data: {}" +:+ newline +:+ "data: 1" +:+ newline]
     = [VObj []; VNum 1]
  /\ Streaming.parseSSEStream
       ["data: {}" +:+ newline +:+ "da"; "ta: 1" +:+ newline]
     = Streaming.parseSSEStream
         ["data: {}" +:+ newline +:+ "data: 1" +:+ newline].
Proof.
  split; [reflexivity|]. split; [vm_compute; reflexivity|].
  apply (X11_sse_reads_may_be_cut_anywhere
           ["data: {}" +:+ newline +:+ "da"; "ta: 1" +:+ newline]
           ["data: {}" +:+ newline +:+ "data: 1" +:+ newline]).
  reflexivity.
Defined.

(** ** Configuration *)

Module FactoryFacts.
Import Factory.

Lemma fill_first {A} (field : TooledPromptConfig -> Field A)
    (configs : list TooledPromptConfig) (acc : option A) (c : TooledPromptConfig) :
  or_else (fill acc (field c)) (first_given field configs)
  = or_else acc (first_given field (c :: configs)).
Proof.
  unfold first_given, fill. simpl. destruct acc; [done|].
  by destruct (defined (field c)).
Qed.

Lemma merge_fold (configs : list TooledPromptConfig) :
  forall acc,
    fold_left merge_one configs acc
    = {| m_apiUrl := or_else (m_apiUrl acc) (first_given apiUrl configs);
         m_modelName := or_else (m_modelName acc) (first_given modelName configs);
         m_apiKey := or_else (m_apiKey acc) (first_given apiKey configs);
         m_maxIterations :=
           or_else (m_maxIterations acc) (first_given maxIterations configs);
         m_temperature :=
           or_else (m_temperature acc) (first_given temperature configs);
         m_stream := or_else (m_stream acc) (first_given stream configs);
         m_timeout := or_else (m_timeout acc) (first_given timeout configs);
         m_silent := or_else (m_silent acc) (first_given silent configs);
         m_showThinking :=
           or_else (m_showThinking acc) (first_given showThinking configs) |}.
Proof.
  induction configs as [|c configs IH]; intros acc.
  - destruct acc as [a b c d e f g h i]. simpl.
    by destruct a, b, c, d, e, f, g, h, i.
  - simpl fold_left. rewrite IH. unfold merge_one. simpl.
    by rewrite !fill_first.
Qed.

Lemma over_assoc {A} (a b c : Field A) : over (over a b) c = over a (over b c).
Proof. by destruct c. Qed.

Lemma spread_assoc (a b c : TooledPromptConfig) :
  spread (spread a b) c = spread a (spread b c).
Proof. unfold spread. simpl. by rewrite !over_assoc. Qed.

Lemma validateConfig_spread (a b : TooledPromptConfig) :
  validateConfig a = Ok tt -> validateConfig b = Ok tt ->
  validateConfig (spread a b) = Ok tt.
Proof.
  unfold validateConfig, spread. simpl.
  destruct (temperature b), (maxIterations b), (timeout b); simpl;
    intros Ha Hb;
    repeat match goal with
           | H : (if ?x then _ else _) = Ok tt |- _ =>
               destruct x eqn:?; [discriminate|]
           end; try done;
    repeat match goal with
           | H : ?x = false |- context [?x] => rewrite H
           end; done.
Qed.

End FactoryFacts.

(** X13. [mergeConfigs] gives every property the value of the first
    configuration of the list that has one, [undefined] values passed
    over, and the default when none has: an earlier configuration takes
    priority over all later ones, for lists of any length. *)
Theorem X13_first_configuration_wins (configs : list Factory.TooledPromptConfig) :
  let r := Factory.mergeConfigs configs in
  Factory.r_apiUrl r
  = default EmptyString (Factory.first_given Factory.apiUrl configs)
  /\ Factory.r_modelName r
     = default EmptyString (Factory.first_given Factory.modelName configs)
  /\ Factory.r_apiKey r = Factory.first_given Factory.apiKey configs
  /\ Factory.r_maxIterations r
     = Factory.first_given Factory.maxIterations configs
  /\ Factory.r_temperature r = Factory.first_given Factory.temperature configs
  /\ Factory.r_stream r
     = default true (Factory.first_given Factory.stream configs)
  /\ Factory.r_timeout r
     = default (Factory.of_Z 60000)
         (Factory.first_given Factory.timeout configs)
  /\ Factory.r_silent r
     = default false (Factory.first_given Factory.silent configs)
  /\ Factory.r_showThinking r
     = default false (Factory.first_given Factory.showThinking configs).
Proof.
  intros r. subst r. unfold Factory.mergeConfigs.
  rewrite FactoryFacts.merge_fold. simpl.
  repeat split;
    match goal with
    | |- context [Factory.first_given ?f configs] =>
        by destruct (Factory.first_given f configs)
    end.
Qed.

Module FactoryInvariant.
Import Factory.

Lemma validateConfig_fields (c : TooledPromptConfig) :
  validateConfig c = Ok tt ->
  (forall n, maxIterations c = Given n -> positive_integer n)
  /\ (forall t, timeout c = Given t -> finite_not_negative t)
  /\ (forall t, temperature c = Given t ->
                lt t (of_Z 0) = false /\ lt (of_Z 2) t = false).
Proof.
  unfold validateConfig, positive_integer, finite_not_negative.
  intros H.
  repeat match type of H with
         | (if ?x then _ else _) = Ok tt => destruct x eqn:?; [discriminate|]
         end.
  split; [|split]; intros x Hx; rewrite Hx in *;
    match goal with
    | H : (_ || _) = false |- _ => apply orb_false_iff in H as [? ?]
    end; split; try done; by apply negb_false_iff.
Qed.

Lemma setConfig_valid (c : TooledPromptConfig) (inst : Instance) :
  valid_instance inst -> valid_instance (setConfig c inst).2.
Proof.
  intros [Hi Hs]. unfold setConfig.
  destruct (validateConfig c) as [[]|e] eqn:Hc; [|done].
  split; [done|]. by apply FactoryFacts.validateConfig_spread.
Qed.

Lemma after_setConfigs_valid (configs : list TooledPromptConfig) :
  forall inst, valid_instance inst -> valid_instance (after_setConfigs configs inst).
Proof.
  induction configs as [|c configs IH]; intros inst Hv; [done|].
  apply IH. by apply setConfig_valid.
Qed.

End FactoryInvariant.

(** X14. [setConfig] is all or nothing and accumulates.  A configuration
    that does not validate throws and leaves the instance as it was.  Two
    valid calls in a row do what one call with the second configuration
    spread over the first does.  For a property such as [apiUrl]: a value
    given replaces what earlier calls gave, a property left out keeps it,
    and an explicit [undefined] clears it, so that the initial
    configuration shows again. *)
Theorem X14_setConfig_accumulates (c1 c2 : Factory.TooledPromptConfig)
    (inst : Factory.Instance) :
  (forall e, Factory.validateConfig c1 = Err e ->
             Factory.setConfig c1 inst = (Err e, inst))
  /\ (Factory.validateConfig c1 = Ok tt ->
      Factory.validateConfig c2 = Ok tt ->
      Factory.setConfig c2 (Factory.setConfig c1 inst).2
      = Factory.setConfig (Factory.spread c1 c2) inst)
  /\ (Factory.validateConfig c1 = Ok tt ->
      let inst' := (Factory.setConfig c1 inst).2 in
      let cleared := {| Factory.initialConfig := Factory.initialConfig inst;
                        Factory.instanceConfig := Factory.empty |} in
      Factory.r_apiUrl (Factory.resolveConfig inst' Factory.empty)
      = match Factory.apiUrl c1 with
        | Factory.Given u => u
        | Factory.Absent =>
            Factory.r_apiUrl (Factory.resolveConfig inst Factory.empty)
        | Factory.Undefined =>
            Factory.r_apiUrl (Factory.resolveConfig cleared Factory.empty)
        end).
Proof.
  split; [|split].
  - intros e He. unfold Factory.setConfig. by rewrite He.
  - intros H1 H2. unfold Factory.setConfig. rewrite H1, H2.
    rewrite (FactoryFacts.validateConfig_spread c1 c2 H1 H2). simpl.
    by rewrite FactoryFacts.spread_assoc.
  - intros H1 inst' cleared. subst inst' cleared.
    unfold Factory.setConfig. rewrite H1. simpl.
    unfold Factory.resolveConfig, Factory.mergeConfigs. simpl.
    destruct (Factory.apiUrl c1); simpl; done.
Qed.

(** X15. Whatever calls of [setConfig] an instance has seen, thrown or
    not, the configuration it resolves for a call without options has a
    [maxIterations] that is [undefined] or an integer not below 1, and a
    [timeout] that is finite and not below 0.  The options of a call are
    not validated: a [maxIterations] given there is resolved whatever it
    is. *)
Theorem X15_instance_configuration_stays_valid
    (config : Factory.TooledPromptConfig) (inst : Factory.Instance)
    (updates : list Factory.TooledPromptConfig) :
  Factory.createTooledPrompt config = Ok inst ->
  let r := Factory.resolveConfig (after_setConfigs updates inst) Factory.empty in
  (forall n, Factory.r_maxIterations r = Some n -> positive_integer n)
  /\ finite_not_negative (Factory.r_timeout r)
  /\ (forall n : Z,
        Factory.r_maxIterations
          (Factory.resolveConfig (after_setConfigs updates inst)
             (only_maxIterations n))
        = Some (Factory.of_Z n)).
Proof.
  intros Hc r.
  assert (valid_instance inst) as Hv.
  { unfold Factory.createTooledPrompt in Hc.
    destruct (Factory.validateConfig config) as [[]|e] eqn:Hval; [|done].
    inversion Hc; subst. by split. }
  apply (FactoryInvariant.after_setConfigs_valid updates) in Hv.
  destruct Hv as [Hi Hs].
  apply FactoryInvariant.validateConfig_fields in Hi as (Him & Hit & _).
  apply FactoryInvariant.validateConfig_fields in Hs as (Hsm & Hst & _).
  subst r. set (final := after_setConfigs updates inst) in *.
  unfold Factory.resolveConfig, Factory.mergeConfigs. simpl.
  split; [|split; [|done]].
  - intros n.
    destruct (Factory.maxIterations (Factory.instanceConfig final)) as [| |a] eqn:Ha;
      destruct (Factory.maxIterations (Factory.initialConfig final)) as [| |b] eqn:Hb;
      simpl; intros Hn; inversion Hn; subst; eauto.
  - destruct (Factory.timeout (Factory.instanceConfig final)) as [| |a] eqn:Ha;
      destruct (Factory.timeout (Factory.initialConfig final)) as [| |b] eqn:Hb;
      simpl; eauto; by split.
Qed.

Lemma X15_example_cap_5 :
  Factory.createTooledPrompt (only_maxIterations 5)
  = Ok {| Factory.initialConfig := only_maxIterations 5;
          Factory.instanceConfig := Factory.empty |}
  /\ Factory.r_maxIterations
       (Factory.resolveConfig
          (after_setConfigs [only_maxIterations 0; only_maxIterations 3]
             {| Factory.initialConfig := only_maxIterations 5;
                Factory.instanceConfig := Factory.empty |})
          Factory.empty)
     = Some (Factory.of_Z 3)
  /\ positive_integer (Factory.of_Z 3).
Proof.
  split; [reflexivity|]. split; [reflexivity|].
  destruct (X15_instance_configuration_stays_valid (only_maxIterations 5)
              {| Factory.initialConfig := only_maxIterations 5;
                 Factory.instanceConfig := Factory.empty |}
              [only_maxIterations 0; only_maxIterations 3] eq_refl)
    as (Hmax & _ & _).
  apply Hmax. reflexivity.
Defined.

(** ** The default handlers *)

Module EventsFacts.
Import Events.

Lemma stdout_text_app (a b : list Output) :
  stdout_text (a ++ b) = stdout_text a +:+ stdout_text b.
Proof.
  induction a as [|o a IH]; [done|]. simpl. rewrite IH.
  destruct o; try done. by rewrite string_app_assoc.
Qed.

(** Further chunks of an answer that has begun are written as they are. *)
Lemma content_run (f : Flags) (chunks : list string) :
  silent f = false ->
  forall st,
    hasContent st = true ->
    run st (under f (map EContent chunks))
    = (st, map Stdout chunks, false).
Proof.
  intros Hs. induction chunks as [|c chunks IH]; intros st Hc; [done|].
  simpl. rewrite Hc, Hs. simpl.
  replace {| inThinking := inThinking st; hasContent := true |} with st
    by (destruct st; simpl in *; by subst).
  by rewrite IH.
Qed.

(** Further thoughts, when thinking is not shown, are not written. *)
Lemma thinking_run (f : Flags) (thoughts : list string) :
  showThinking f = false ->
  forall st,
    inThinking st = true ->
    run st (under f (map EThinking thoughts)) = (st, [], false).
Proof.
  intros Hs. induction thoughts as [|t thoughts IH]; intros st Hc; [done|].
  simpl. rewrite Hc, Hs, andb_false_r. simpl.
  replace {| inThinking := true; hasContent := hasContent st |} with st
    by (destruct st; simpl in *; by subst).
  by rewrite IH.
Qed.

Lemma stdout_text_chunks (chunks : list string) :
  stdout_text (map Stdout chunks) = concat_strings chunks.
Proof. induction chunks as [|c chunks IH]; [done|]. simpl. by rewrite IH. Qed.

End EventsFacts.

(** X16. While [isSilent] returns [true] the default handlers write
    nothing and throw nothing, whatever events arrive. *)
Theorem X16_silent_handlers_write_nothing (st : Events.State)
    (events : list (Events.Flags * Event)) :
  Forall (fun fe => Events.silent fe.1 = true) events ->
  (Events.run st events).1.2 = [] /\ (Events.run st events).2 = false.
Proof.
  revert st. induction events as [|[f e] events IH]; intros st Hall; [done|].
  apply Forall_cons in Hall as [Hs Hall]. simpl in Hs. simpl.
  assert (exists st', Events.handle f st e = (st', Some [])) as [st' ->].
  { destruct e; simpl; rewrite ?Hs; simpl; eauto;
      repeat match goal with
             | |- context [if ?b then _ else _] => destruct b; simpl
             end; eauto. }
  specialize (IH st' Hall).
  destruct (Events.run st' events) as [[st'' outs] thrown]. simpl in *.
  by destruct IH as [-> ->].
Qed.

(** X17. The labels are written once.  When the handlers are not silent,
    the chunks of an answer that arrive after a [start] or a [tool_call]
    are written to the standard output behind one [[Response]] label, in
    their order; and when thinking is not shown, the thoughts that arrive
    are answered by one [[Thinking]] label and three dots, whatever they
    say. *)
Theorem X17_labels_are_written_once (f : Events.Flags) (st : Events.State)
    (first : string) (more : list string) :
  Events.silent f = false ->
  (Events.hasContent st = false ->
   let '(st', outs, thrown) :=
     Events.run st (Events.under f (map EContent (first :: more))) in
   Events.stdout_text outs
   = (if Events.inThinking st then newline +:+ newline else newline)
     +:+ Events.formatLabel (Events.noColor f) "[Response]" false +:+ " "
     +:+ concat_strings (first :: more)
   /\ st' = {| Events.inThinking := false; Events.hasContent := true |}
   /\ thrown = false)
  /\ (Events.showThinking f = false ->
      Events.inThinking st = false ->
      Events.run st (Events.under f (map EThinking (first :: more)))
      = ({| Events.inThinking := true;
            Events.hasContent := Events.hasContent st |},
         [ Events.Stdout
             (newline +:+ Events.formatLabel (Events.noColor f) "[Thinking]" true
              +:+ " ");
           Events.Stdout "..." ],
         false)).
Proof.
  intros Hs. split.
  - intros Hc. simpl. rewrite Hc, Hs. simpl.
    rewrite (EventsFacts.content_run f more Hs) by done. simpl.
    rewrite EventsFacts.stdout_text_chunks.
    rewrite !string_app_assoc. done.
  - intros Hshow Hin. simpl. rewrite Hin, Hs, Hshow. simpl.
    by rewrite (EventsFacts.thinking_run f more Hshow).
Qed.

Lemma X16_example_silent_run :
  let events :=
    Events.under silent_flags
      [EStart; EThinking "hm"; EContent "Hi"; EToolCall "list" VNull;
       EToolResult "list" "OK"] in
  Forall (fun fe => Events.silent fe.1 = true) events
  /\ (Events.run Events.initial events).1.2 = []
  /\ (Events.run Events.initial events).2 = false.
Proof.
  intros events.
  assert (Forall (fun fe => Events.silent fe.1 = true) events) as Hall.
  { subst events. repeat constructor. }
  split; [exact Hall|].
  exact (X16_silent_handlers_write_nothing Events.initial events Hall).
Defined.

Lemma X17_example_answer_in_two_chunks :
  Events.silent plain_flags = false
  /\ Events.stdout_text
       (Events.run Events.initial
          (Events.under plain_flags (map EContent ["Hel"; "lo"]))).1.2
     = newline +:+ "[Response] Hello".
Proof.
  split; [reflexivity|].
  destruct (X17_labels_are_written_once plain_flags Events.initial "Hel" ["lo"]
              eq_refl) as [Hcontent _].
  specialize (Hcontent eq_refl).
  destruct (Events.run Events.initial
              (Events.under plain_flags (map EContent ["Hel"; "lo"])))
    as [[st' outs] thrown].
  destruct Hcontent as (Hout & _ & _). exact Hout.
Defined.

(** ** The flat schema, its parser and the store *)

Section SimpleSchemaFacts.

Variable E : Engine.

(** The loop of [simpleSchemaToJsonSchema], started with [props] and
    [req]. *)
Lemma simple_schema_fold (simple : SimpleSchema) :
  forall (props : list (string * JsValue)) (req : list string),
    let step (acc : list (string * JsValue) * list string) (kd : string * string) :=
      let '(props, req) := acc in
      let '(key, desc) := kd in
      let f := field_of_key key in
      (obj_set props (cleanKey f)
         (VObj [("type", VStr "string"); ("description", VStr desc)]),
       if optional f then req else req ++ [cleanKey f]) in
    let r := fold_left step simple (props, req) in
    (NoDup (Object_keys props) -> NoDup (Object_keys r.1))
    /\ (forall k, k ∈ Object_keys r.1
          <-> k ∈ Object_keys props
              \/ exists f, f ∈ fields_of simple /\ cleanKey f = k)
    /\ (forall k, k ∈ r.2
          <-> k ∈ req
              \/ exists f, f ∈ fields_of simple /\ cleanKey f = k
                           /\ optional f = false).
Proof.
  induction simple as [|[key desc] simple IH]; intros props req step r.
  - subst r. cbn [fold_left fst snd]. split; [done|].
    split; intros k; (split; [auto|]);
      intros [H | (f & Hf & _)]; try done; by apply elem_of_nil in Hf.
  - subst r. cbn [fold_left].
    specialize (IH (obj_set props (cleanKey (field_of_key key))
                      (VObj [("type", VStr "string"); ("description", VStr desc)]))
                   (if optional (field_of_key key) then req
                    else req ++ [cleanKey (field_of_key key)])).
    cbv zeta in IH. destruct IH as (Hnd & Hkeys & Hreq).
    change (step (props, req) (key, desc))
      with (obj_set props (cleanKey (field_of_key key))
              (VObj [("type", VStr "string"); ("description", VStr desc)]),
            if optional (field_of_key key) then req
            else req ++ [cleanKey (field_of_key key)]).
    fold step in Hnd, Hkeys, Hreq.
    assert (fields_of ((key, desc) :: simple)
            = field_of_key key :: fields_of simple) as Hfields by done.
    split; [|split].
    + intros H. apply Hnd. by apply obj_set_NoDup.
    + intros k. rewrite Hkeys, keys_obj_set, Hfields. split.
      * intros [[-> | H] | (f & Hf & Hk)]; eauto.
        -- right. exists (field_of_key key). split; [by left|done].
        -- right. exists f. split; [by right|done].
      * intros [H | (f & Hf & Hk)]; [auto|].
        apply elem_of_cons in Hf as [-> | Hf]; [auto|].
        right. by exists f.
    + intros k. rewrite Hreq, Hfields. split.
      * intros [H | (f & Hf & Hk & Ho)].
        -- destruct (optional (field_of_key key)) eqn:Hopt; [auto|].
           apply elem_of_app in H as [H | H]; [auto|].
           apply list_elem_of_singleton in H. subst. right.
           exists (field_of_key key). split; [by left|done].
        -- right. exists f. split; [by right|done].
      * intros [H | (f & Hf & Hk & Ho)].
        -- left. destruct (optional (field_of_key key)); [done|].
           apply elem_of_app. by left.
        -- apply elem_of_cons in Hf as [-> | Hf].
           ++ left. rewrite Ho. apply elem_of_app. right.
              by apply list_elem_of_singleton.
           ++ right. by exists f.
Qed.

(** The keys of [properties] and the entries of [required], by the
    declared fields. *)
Lemma simple_schema_keys (simple : SimpleSchema) :
  let js := simpleSchemaToJsonSchema simple in
  NoDup (Object_keys (default [] (properties js)))
  /\ (forall k, k ∈ Object_keys (default [] (properties js))
        <-> exists f, f ∈ fields_of simple /\ cleanKey f = k)
  /\ (forall k, k ∈ default [] (required js)
        <-> exists f, f ∈ fields_of simple /\ cleanKey f = k
                      /\ optional f = false).
Proof.
  intros js. subst js. unfold simpleSchemaToJsonSchema.
  pose proof (simple_schema_fold simple [] []) as H. simpl in H.
  destruct (fold_left _ simple ([], [])) as [props req] eqn:Hfold.
  simpl in *. destruct H as (Hnd & Hkeys & Hreq).
  split; [apply Hnd; constructor|]. split.
  - intros k. rewrite Hkeys. split; [|auto].
    intros [H | H]; [by apply elem_of_nil in H|done].
  - intros k.
    assert (k ∈ default [] match req with [] => None | _ :: _ => Some req end
            <-> k ∈ req) as -> by (by destruct req).
    rewrite Hreq. split; [|auto].
    intros [H | H]; [by apply elem_of_nil in H|done].
Qed.

Lemma parser_accepts_satisfied (simple : SimpleSchema) o r :
  createSimpleSchemaParser E simple (VObj o) = Ok r ->
  Forall (fun f => field_ok o f = true) (fields_of simple)
  /\ r = VObj (collect o (fields_of simple) []).
Proof.
  intros Hr. unfold createSimpleSchemaParser in Hr. simpl in Hr.
  fold (fields_of simple) in Hr.
  destruct (decide (Forall (fun f => field_ok o f = true) (fields_of simple)))
    as [Hall | Hnot].
  - split; [done|]. rewrite (parse_fields_accepts E o _ [] Hall) in Hr.
    by inversion Hr.
  - apply first_failing in Hnot as (pre & f & post & Hfields & Hpre & Hf).
    rewrite Hfields, (parse_fields_rejects E o pre f post [] Hpre Hf) in Hr.
    discriminate.
Qed.

(** X18. What the parser of a flat schema accepts fits the JSON Schema
    made of the same flat schema: the result has a string under every key
    the schema lists as required, and every key of the result is a key of
    the schema's [properties] and holds a string.  The schema lists a key
    as required exactly when the flat schema declares it without the
    optional marker. *)
Theorem X18_parser_and_json_schema_agree (simple : SimpleSchema)
    (o : list (string * JsValue)) (r : JsValue) :
  createSimpleSchemaParser E simple (VObj o) = Ok r ->
  let js := simpleSchemaToJsonSchema simple in
  exists res,
    r = VObj res
    /\ (forall k, k ∈ default [] (required js) ->
                  is_string (obj_get res k) = true)
    /\ (forall k, k ∈ Object_keys res ->
                  k ∈ Object_keys (default [] (properties js))
                  /\ is_string (obj_get res k) = true)
    /\ (forall k, k ∈ default [] (required js)
          <-> exists key desc, (key, desc) ∈ simple
                               /\ endsWith_qmark key = false /\ key = k).
Proof.
  intros Hr js.
  destruct (parser_accepts_satisfied simple o r Hr) as [Hall ->].
  destruct (simple_schema_keys simple) as (_ & Hkeys & Hreq). fold js in Hkeys, Hreq.
  exists (collect o (fields_of simple) []).
  assert (forall k, k ∈ Object_keys (collect o (fields_of simple) []) ->
                    obj_get (collect o (fields_of simple) []) k = obj_get o k)
    as Hval.
  { apply collect_values. intros k H. by apply elem_of_nil in H. }
  assert (forall k, k ∈ Object_keys (collect o (fields_of simple) [])
            <-> exists f, f ∈ fields_of simple /\ cleanKey f = k
                          /\ is_string (obj_get o k) = true) as Hres.
  { intros k. rewrite collect_keys. split; [|auto].
    intros [H | H]; [by apply elem_of_nil in H|done]. }
  split; [done|]. split; [|split].
  - intros k Hk. apply Hreq in Hk as (f & Hf & <- & Hopt).
    rewrite Forall_forall in Hall. specialize (Hall f Hf).
    unfold field_ok in Hall. rewrite Hopt in Hall. simpl in Hall.
    rewrite orb_false_r in Hall.
    rewrite Hval; [done|]. apply Hres. by exists f.
  - intros k Hk. pose proof Hk as Hk'.
    apply Hres in Hk as (f & Hf & <- & Hs). split.
    + apply Hkeys. by exists f.
    + by rewrite Hval.
  - intros k. rewrite Hreq. unfold fields_of, Object_keys. split.
    + intros (f & Hf & <- & Hopt).
      apply list_elem_of_fmap in Hf as (key & -> & Hkey).
      apply list_elem_of_fmap in Hkey as ([key' desc] & -> & Hin).
      exists key', desc. simpl in *. split; [done|].
      unfold field_of_key in *. simpl in *. split; [done|]. by rewrite Hopt.
    + intros (key & desc & Hin & Hq & <-).
      exists (field_of_key key). split.
      * apply list_elem_of_fmap. exists key. split; [done|].
        apply list_elem_of_fmap. by exists (key, desc).
      * unfold field_of_key. simpl. by rewrite Hq.
Qed.

End SimpleSchemaFacts.

Lemma X18_example_name_bio :
  createSimpleSchemaParser sample_engine name_bio
    (VObj [("name", VStr "Alice"); ("age", VNum 3)])
  = Ok (VObj [("name", VStr "Alice")])
  /\ required (simpleSchemaToJsonSchema name_bio) = Some ["name"]
  /\ exists res,
       VObj [("name", VStr "Alice")] = VObj res
       /\ (forall k, k ∈ default [] (required (simpleSchemaToJsonSchema name_bio)) ->
                     is_string (obj_get res k) = true)
       /\ (forall k, k ∈ Object_keys res ->
                     k ∈ Object_keys
                           (default [] (properties (simpleSchemaToJsonSchema name_bio)))
                     /\ is_string (obj_get res k) = true)
       /\ (forall k, k ∈ default [] (required (simpleSchemaToJsonSchema name_bio))
             <-> exists key desc, (key, desc) ∈ name_bio
                                  /\ endsWith_qmark key = false /\ key = k).
Proof.
  split; [reflexivity|]. split; [reflexivity|].
  exact (X18_parser_and_json_schema_agree sample_engine name_bio
           [("name", VStr "Alice"); ("age", VNum 3)]
           (VObj [("name", VStr "Alice")]) eq_refl).
Defined.

Section StoreDispatch.

Variable E : Engine.

(** The parser reads its input under the declared keys only. *)
Lemma parse_fields_ext (fields : list Field) (o o' : list (string * JsValue)) :
  (forall f, f ∈ fields -> obj_get o' (cleanKey f) = obj_get o (cleanKey f)) ->
  forall acc,
    parse_fields E fields (VObj o') acc = parse_fields E fields (VObj o) acc.
Proof.
  induction fields as [|f fields IH]; intros Hext acc; [done|].
  simpl. rewrite (Hext f) by (by left).
  destruct (is_nullish (obj_get o (cleanKey f))).
  - destruct (negb (optional f)); [done|]. apply IH.
    intros g Hg. apply Hext. by right.
  - destruct (negb (is_string (obj_get o (cleanKey f)))); [done|]. apply IH.
    intros g Hg. apply Hext. by right.
Qed.

Lemma reconstructed_get (o : list (string * JsValue)) (propKeys : list string) k :
  NoDup propKeys ->
  k ∈ propKeys ->
  obj_get (reconstructed propKeys (map (obj_get o) propKeys)) k = obj_get o k.
Proof.
  unfold reconstructed. intros Hnd Hk.
  assert (Object_keys
            (omap (fun ka : string * JsValue =>
                     if is_undefined ka.2 then None else Some ka)
                  (zip propKeys (map (obj_get o) propKeys)))
          = filter (fun key => is_undefined (obj_get o key) = false) propKeys)
    as Hkeys.
  { clear. induction propKeys as [|p ps IH]; [done|]. simpl.
    destruct (is_undefined (obj_get o p)) eqn:Hu; simpl.
    - rewrite filter_cons_False by (by rewrite Hu). apply IH.
    - rewrite filter_cons_True by done. unfold Object_keys in *. simpl.
      f_equal. exact IH. }
  destruct (is_undefined (obj_get o k)) eqn:Hu.
  - rewrite obj_get_notin.
    + by destruct (obj_get o k).
    + rewrite Hkeys. intros Hin. apply list_elem_of_filter in Hin as [Hf _].
      congruence.
  - apply obj_get_in.
    + rewrite Hkeys. by apply NoDup_filter.
    + apply list_elem_of_omap. exists (k, obj_get o k). simpl. rewrite Hu.
      split; [|done].
      clear Hkeys Hnd. induction propKeys as [|p ps IH]; [by apply elem_of_nil in Hk|].
      simpl. apply elem_of_cons in Hk as [-> | Hk]; [by left|].
      right. auto.
Qed.

(** X19. Storing through a tool call loses nothing.  When the loop
    dispatches a call of a store made for a flat schema, with the JSON
    object [o] as arguments, the store is handed the values of [o] under
    the keys of the schema, and what happens is what parsing [o] itself
    gives: the parsed value is stored if the parser accepts [o], and if it
    rejects [o] the call throws the parser's error and the slot stays as
    it was. *)
Theorem X19_store_through_dispatch (storeName : string) (simple : SimpleSchema)
    (o : list (string * JsValue)) (stored : Store.Slot) :
  let store := Store.createStore storeName (resolveSchema E simple) in
  exists args,
    positional E store (VObj o) = Ok args
    /\ call store args stored
       = match createSimpleSchemaParser E simple (VObj o) with
         | Ok parsed => (Ok (VStr "Value stored successfully"), Some parsed)
         | Err e => (Err e, stored)
         end.
Proof.
  intros store. eexists. split; [apply positional_object|].
  subst store. simpl. unfold Store.fn, paramNames_of. simpl.
  set (propKeys := Object_keys
                     (default [] (properties (simpleSchemaToJsonSchema simple)))).
  destruct (simple_schema_keys simple) as (Hnd & Hkeys & _). fold propKeys in Hnd, Hkeys.
  rewrite reconstruct_spec; [|done|intros k _; apply not_elem_of_nil].
  simpl.
  assert (createSimpleSchemaParser E simple
            (VObj (reconstructed propKeys (map (obj_get o) propKeys)))
          = createSimpleSchemaParser E simple (VObj o)) as ->.
  { unfold createSimpleSchemaParser. simpl. apply parse_fields_ext.
    intros f Hf. apply reconstructed_get; [done|]. apply Hkeys. by exists f. }
  by destruct (createSimpleSchemaParser E simple (VObj o)).
Qed.

End StoreDispatch.

(** ** JSON schemas for OpenAI *)

Lemma JsValue_induction (P : JsValue -> Prop) :
  P VUndef -> P VNull -> (forall b, P (VBool b)) -> (forall n, P (VNum n)) ->
  (forall lit, P (VFloat lit)) -> (forall s, P (VStr s)) ->
  (forall items, Forall P items -> P (VArr items)) ->
  (forall props, Forall (fun kv => P kv.2) props -> P (VObj props)) ->
  (forall async items, Forall P items -> P (VIter async items)) ->
  forall v, P v.
Proof.
  intros Hu Hn Hb Hz Hf Hs Ha Ho Hi.
  fix IH 1.
  intros [| |b|n|lit|s|items|props|async items];
    [apply Hu|apply Hn|apply Hb|apply Hz|apply Hf|apply Hs|..].
  - apply Ha. induction items as [|x items IHl]; constructor; [apply IH|apply IHl].
  - apply Ho. induction props as [|[k x] props IHl]; constructor;
      [apply IH|apply IHl].
  - apply Hi. induction items as [|x items IHl]; constructor; [apply IH|apply IHl].
Qed.

Lemma enforce_unfold (node : JsValue) :
  enforceAdditionalProperties node
  = VObj (let entries :=
            match node with
            | VObj props => map (fun kv => (kv.1, enforced_value kv.2)) props
            | VArr items =>
                imap (fun i x => (pretty i, x)) (map enforced_value items)
            | _ => []
            end in
          if is_object_type (spread_node node)
          then obj_set entries "additionalProperties" (VBool false)
          else entries).
Proof. by destruct node. Qed.

(** *** Decimal numerals *)

Lemma pretty_N_go_digits (x : N) :
  forall s, digits_only s = true -> digits_only (pretty_N_go x s) = true.
Proof.
  induction (N.lt_wf_0 x) as [x _ IH]; intros s Hs.
  assert (x = 0 \/ 0 < x)%N as [-> | Hpos] by lia.
  - by rewrite pretty_N_go_0.
  - rewrite pretty_N_go_step by done. apply IH.
    + by apply N.div_lt.
    + simpl. rewrite Hs, andb_true_r.
      unfold pretty_N_char. by repeat case_match.
Qed.

Lemma pretty_N_digits (x : N) : digits_only (pretty x) = true.
Proof.
  unfold pretty, pretty_N. case_decide; [done|]. by apply pretty_N_go_digits.
Qed.

Lemma pretty_nat_digits (i : nat) : digits_only (pretty i) = true.
Proof. apply pretty_N_digits. Qed.

(** An array has no property under a key that is not a numeral. *)
Lemma obj_get_indexes (items : list JsValue) (k : string) :
  digits_only k = false ->
  forall g : nat -> nat,
    obj_get (imap (fun i x => (pretty (g i), x)) items) k = VUndef.
Proof.
  intros Hk. induction items as [|x items IH]; intros g; [done|].
  simpl. destruct (String.eqb_spec (pretty (g 0%nat)) k) as [<- | _].
  - by rewrite pretty_nat_digits in Hk.
  - apply (IH (g ∘ S)).
Qed.

Lemma is_object_type_indexes (items : list JsValue) :
  is_object_type (imap (fun i x => (pretty i, x)) items) = false.
Proof.
  unfold is_object_type.
  by rewrite (obj_get_indexes items "type" eq_refl (fun i => i)).
Qed.

Lemma obj_get_map_values (f : JsValue -> JsValue) (props : list (string * JsValue)) k :
  obj_get (map (fun kv => (kv.1, f kv.2)) props) k
  = if decide (k ∈ Object_keys props) then f (obj_get props k) else VUndef.
Proof.
  induction props as [|[k' v] props IH]; simpl; [done|].
  destruct (String.eqb_spec k' k) as [-> | Hne].
  - rewrite decide_True; [done|by left].
  - rewrite IH. destruct (decide (k ∈ Object_keys props)) as [Hin | Hout].
    + rewrite decide_True; [done|by right].
    + rewrite decide_False; [done|].
      intros Hin. by apply elem_of_cons in Hin as [-> | Hin].
Qed.

Lemma is_object_type_enforced (props : list (string * JsValue)) :
  is_object_type (map (fun kv => (kv.1, enforced_value kv.2)) props)
  = is_object_type props.
Proof.
  unfold is_object_type. rewrite obj_get_map_values.
  destruct (decide ("type" ∈ Object_keys props)) as [Hin | Hout].
  - by destruct (obj_get props "type") eqn:Ht.
  - by rewrite (obj_get_notin _ _ Hout).
Qed.

Lemma is_object_type_set (props : list (string * JsValue)) (v : JsValue) :
  is_object_type (obj_set props "additionalProperties" v) = is_object_type props.
Proof. unfold is_object_type. by rewrite obj_get_set_ne. Qed.

Lemma forallb_obj_set (P : JsValue -> bool) (props : list (string * JsValue)) k v :
  forallb (fun kv => match kv with (_, x) => P x end) props = true ->
  P v = true ->
  forallb (fun kv => match kv with (_, x) => P x end) (obj_set props k v) = true.
Proof.
  intros Hall Hv. induction props as [|[k' v'] props IH]; simpl in *.
  - by rewrite Hv.
  - apply andb_true_iff in Hall as [H1 H2].
    destruct (String.eqb k' k); simpl; [by rewrite Hv|]. by rewrite H1, IH.
Qed.

Lemma closed_indexes (l : list JsValue) :
  forallb closed_objects l = true ->
  forall g : nat -> nat,
    forallb (fun kv => match kv with (_, x) => closed_objects x end)
      (imap (fun i x => (pretty (g i), x)) l) = true.
Proof.
  induction l as [|x l IH]; intros Hall g; [done|]. simpl in *.
  apply andb_true_iff in Hall as [-> Hall]. simpl. apply (IH Hall (g ∘ S)).
Qed.

(** Both what the function returns and what it puts in the place of a
    property value have their objects closed. *)
Lemma enforce_closed (v : JsValue) :
  closed_objects (enforceAdditionalProperties v) = true
  /\ closed_objects (enforced_value v) = true.
Proof.
  induction v as [| |b|n|lit|s|items IH|props IH|async items IH]
    using JsValue_induction; try (split; reflexivity).
  - assert (forallb closed_objects (map enforced_value items) = true) as Hwalk.
    { induction IH as [|x l [_ Hx] _ IHl]; [done|]. simpl. by rewrite Hx, IHl. }
    split.
    + rewrite enforce_unfold. cbv zeta.
      change (spread_node (VArr items))
        with (imap (fun i x => (pretty i, x)) items).
      rewrite is_object_type_indexes. simpl.
      rewrite (is_object_type_indexes (map enforced_value items)). simpl.
      apply (closed_indexes _ Hwalk (fun i => i)).
    + simpl. clear Hwalk. induction IH as [|x l [Hx _] _ IHl]; [done|]. simpl.
      rewrite IHl, andb_true_r. by destruct x.
  - assert (closed_objects (enforceAdditionalProperties (VObj props)) = true)
      as Hobj; [|by split].
    rewrite enforce_unfold. cbv zeta.
    change (spread_node (VObj props)) with props.
    assert (forallb (fun kv => match kv with (_, x) => closed_objects x end)
              (map (fun kv => (kv.1, enforced_value kv.2)) props) = true) as Hvals.
    { induction IH as [|[k x] l [_ Hx] _ IHl]; [done|]. simpl in *.
      by rewrite Hx, IHl. }
    destruct (is_object_type props) eqn:Hot.
    + simpl. rewrite is_object_type_set, is_object_type_enforced, Hot.
      rewrite obj_get_set_eq. simpl. by apply forallb_obj_set.
    + simpl. by rewrite is_object_type_enforced, Hot.
Qed.

Lemma obj_set_twice (props : list (string * JsValue)) k v :
  obj_set (obj_set props k v) k v = obj_set props k v.
Proof.
  induction props as [|[k' v'] props IH]; simpl.
  - by rewrite String.eqb_refl.
  - destruct (String.eqb_spec k' k) as [-> | Hne]; simpl.
    + by rewrite String.eqb_refl.
    + destruct (String.eqb_spec k' k); [done|]. by rewrite IH.
Qed.

Lemma map_obj_set (f : JsValue -> JsValue) (props : list (string * JsValue)) k v :
  map (fun kv => (kv.1, f kv.2)) (obj_set props k v)
  = obj_set (map (fun kv => (kv.1, f kv.2)) props) k (f v).
Proof.
  induction props as [|[k' v'] props IH]; simpl; [done|].
  destruct (String.eqb k' k); simpl; [done|]. by rewrite IH.
Qed.

Lemma imap_values (f : JsValue -> JsValue) (l : list JsValue) :
  forall g : nat -> nat,
    map (fun kv : string * JsValue => (kv.1, f kv.2))
      (imap (fun i x => (pretty (g i), x)) l)
    = imap (fun i x => (pretty (g i), x)) (map f l).
Proof.
  induction l as [|x l IH]; intros g; [done|]. simpl. f_equal. apply (IH (g ∘ S)).
Qed.

Lemma enforce_again (v : JsValue) :
  enforceAdditionalProperties (enforceAdditionalProperties v)
  = enforceAdditionalProperties v
  /\ enforced_value (enforced_value v) = enforced_value v.
Proof.
  induction v as [| |b|n|lit|s|items IH|props IH|async items IH]
    using JsValue_induction; try (split; reflexivity).
  - assert (map enforced_value (map enforced_value items)
            = map enforced_value items) as Hwalk.
    { induction IH as [|x l [_ Hx] _ IHl]; [done|]. simpl. by rewrite Hx, IHl. }
    split.
    + rewrite (enforce_unfold (VArr items)). cbv zeta.
      change (spread_node (VArr items))
        with (imap (fun i x => (pretty i, x)) items).
      rewrite is_object_type_indexes.
      rewrite enforce_unfold. cbv zeta.
      change (spread_node (VObj ?p)) with p.
      rewrite is_object_type_indexes.
      by rewrite (imap_values enforced_value _ (fun i => i)), Hwalk.
    + simpl. f_equal. rewrite map_map. clear Hwalk.
      induction IH as [|x l [Hx _] _ IHl]; [done|]. simpl. rewrite IHl. f_equal.
      destruct x; try done; rewrite enforce_unfold; simpl;
        rewrite <- enforce_unfold; by rewrite Hx.
  - assert (enforceAdditionalProperties
              (enforceAdditionalProperties (VObj props))
            = enforceAdditionalProperties (VObj props)) as Hobj; [|by split].
    assert (map (fun kv : string * JsValue => (kv.1, enforced_value kv.2))
              (map (fun kv : string * JsValue => (kv.1, enforced_value kv.2)) props)
            = map (fun kv => (kv.1, enforced_value kv.2)) props) as Hvals.
    { induction IH as [|[k x] l [_ Hx] _ IHl]; [done|]. simpl in *.
      by rewrite Hx, IHl. }
    rewrite (enforce_unfold (VObj props)). cbv zeta.
    change (spread_node (VObj props)) with props.
    rewrite enforce_unfold. cbv zeta.
    change (spread_node (VObj ?p)) with p.
    destruct (is_object_type props) eqn:Hot.
    + rewrite is_object_type_set, is_object_type_enforced, Hot.
      by rewrite map_obj_set, Hvals, obj_set_twice.
    + by rewrite is_object_type_enforced, Hot, Hvals.
Qed.

(** X20. In what [enforceAdditionalProperties] returns, every object of
    type ['object'], at any depth and also inside arrays, says
    [additionalProperties: false]; and applying the function to its own
    result changes nothing. *)
Theorem X20_every_object_is_closed (props : list (string * JsValue)) :
  closed_objects (enforceAdditionalProperties (VObj props)) = true
  /\ enforceAdditionalProperties (enforceAdditionalProperties (VObj props))
     = enforceAdditionalProperties (VObj props).
Proof. split; [apply enforce_closed | apply enforce_again]. Qed.

(** ** Images *)


Lemma strip_prefix_app (p s : string) : strip_prefix p (p +:+ s) = Some s.
Proof.
  unfold strip_prefix.
  assert (String.prefix p (p +:+ s) = true) as ->.
  { induction p as [|c p IH]; [by destruct s|].
    rewrite string_app_cons. simpl.
    destruct (ascii_dec c c); [done|congruence]. }
  f_equal. rewrite string_length_app.
  replace (String.length p + String.length s - String.length p)%nat
    with (String.length s) by lia.
  induction p as [|c p IH]; [apply substring_0_all|].
  by rewrite string_app_cons.
Qed.

Lemma span_until_semicolon_app (m rest : string) :
  no_semicolon m = true ->
  span_until_semicolon (m +:+ String ";"%char rest) = (m, String ";"%char rest).
Proof.
  induction m as [|c m IH]; intros Hm; [done|].
  rewrite string_app_cons. simpl in *.
  apply andb_true_iff in Hm as [Hc Hm].
  destruct (N_of_ascii c =? 59)%N; [done|]. by rewrite IH.
Qed.

Lemma base64_text_single_line (s : string) :
  base64_text s = true -> single_line s = true.
Proof.
  induction s as [|c s IH]; [done|]. simpl.
  intros H. apply andb_true_iff in H as [Hc Hs]. rewrite (IH Hs), andb_true_r.
  destruct (N.eqb_spec (N_of_ascii c) 10) as [Heq|_];
    [rewrite Heq in Hc; discriminate|].
  destruct (N.eqb_spec (N_of_ascii c) 13) as [Heq|_];
    [rewrite Heq in Hc; discriminate|]. done.
Qed.

Lemma parseDataUrl_dataUrl (mime data : string) :
  nonempty mime = true -> no_semicolon mime = true ->
  nonempty data = true -> base64_text data = true ->
  parseDataUrl (Template.dataUrl mime data) = Some (mime, data).
Proof.
  intros Hm Hsemi Hd Hb. unfold parseDataUrl, Template.dataUrl.
  rewrite strip_prefix_app. simpl.
  change (";base64," +:+ data) with (String ";"%char ("base64," +:+ data)).
  rewrite span_until_semicolon_app by done.
  change (String ";"%char ("base64," +:+ data)) with (";base64," +:+ data).
  rewrite strip_prefix_app. simpl.
  by rewrite Hm, Hd, base64_text_single_line.
Qed.

Lemma base64_char_text (n : N) :
  (n < 64)%N -> base64_text (String (Template.base64_char n) EmptyString) = true.
Proof.
  intros Hn. assert (exists k : nat, n = N.of_nat k /\ (k < 64)%nat) as (k & -> & Hk).
  { exists (N.to_nat n). lia. }
  clear Hn. do 64 (destruct k as [|k]; [reflexivity|]). lia.
Qed.

Lemma base64_text_cons (c : ascii) (s : string) :
  base64_text (String c s)
  = base64_text (String c EmptyString) && base64_text s.
Proof. simpl. by rewrite andb_true_r. Qed.

Lemma base64_is_text (bytes : list ascii) :
  base64_text (Template.base64 bytes) = true.
Proof.
  assert (forall n, base64_text
                      (String (Template.base64_char (n mod 64)) EmptyString) = true)
    as Hc.
  { intros n. apply base64_char_text. by apply N.mod_lt. }
  assert (forall n bytes, (length bytes <= n)%nat ->
                          base64_text (Template.base64 bytes) = true) as H.
  { induction n as [|n IH]; intros bs Hlen.
    - destruct bs; [done|simpl in Hlen; lia].
    - destruct bs as [|a [|b [|d rest]]]; [done|..];
        cbn [Template.base64];
        repeat (rewrite base64_text_cons, Hc; cbn [andb]); try done.
      apply IH. simpl in Hlen. lia. }
  by apply (H (length bytes)).
Qed.

Lemma base64_nonempty (bytes : list ascii) :
  bytes <> [] -> nonempty (Template.base64 bytes) = true.
Proof. by destruct bytes as [|a [|b [|d rest]]]. Qed.

(** X21. A data URL made of a media type and base64 text is taken apart
    by [parseDataUrl] into that media type and that text.  So the image
    marker [processImageValues] makes of the bytes of a buffer that is not
    empty reaches Anthropic as a base64 source with the recognised media type
    (or [application/octet-stream]) and Ollama as the base64 text alone;
    for an empty buffer the URL has no data, is not a data URL for
    [parseDataUrl], and Anthropic is handed it as a URL source. *)
Theorem X21_data_url_round_trip
    (fileTypeFromBuffer : list ascii -> option string) (bytes : list ascii) :
  let mime := default "application/octet-stream" (fileTypeFromBuffer bytes) in
  let url := Template.dataUrl mime (Template.base64 bytes) in
  nonempty mime = true ->
  no_semicolon mime = true ->
  Template.processImageValues fileTypeFromBuffer [Template.TBytes bytes]
  = [Template.TImage url]
  /\ (bytes <> [] ->
      parseDataUrl url = Some (mime, Template.base64 bytes)
      /\ Anthropic.convertImagePart (ImagePart url)
         = VObj [("type", VStr "image");
                 ("source", VObj [("type", VStr "base64");
                                  ("media_type", VStr mime);
                                  ("data", VStr (Template.base64 bytes))])]
      /\ Ollama.extractBase64Images [ImagePart url] = [Template.base64 bytes])
  /\ (bytes = [] ->
      parseDataUrl url = None
      /\ Anthropic.convertImagePart (ImagePart url)
         = VObj [("type", VStr "image");
                 ("source", VObj [("type", VStr "url"); ("url", VStr url)])]
      /\ Ollama.extractBase64Images [ImagePart url] = []).
Proof.
  intros mime url Hm Hsemi. split; [done|]. split.
  - intros Hne.
    assert (parseDataUrl url = Some (mime, Template.base64 bytes)) as Hp.
    { apply parseDataUrl_dataUrl; try done.
      - by apply base64_nonempty.
      - apply base64_is_text. }
    split; [done|]. unfold Anthropic.convertImagePart, Ollama.extractBase64Images.
    simpl. by rewrite Hp.
  - intros ->.
    assert (parseDataUrl url = None) as Hp.
    { subst url. unfold parseDataUrl, Template.dataUrl. simpl.
      rewrite strip_prefix_app. simpl.
      change (";base64," +:+ EmptyString) with (String ";"%char "base64,").
      rewrite span_until_semicolon_app by done.
      change (String ";"%char "base64,") with (";base64," +:+ EmptyString).
      rewrite strip_prefix_app. simpl. by rewrite andb_false_r. }
    split; [done|]. unfold Anthropic.convertImagePart, Ollama.extractBase64Images.
    simpl. by rewrite Hp.
Qed.

Lemma X21_example_png_byte :
  let bytes := [ascii_of_N 137; "P"%char; "N"%char; "G"%char] in
  Template.processImageValues png_only [Template.TBytes bytes]
  = [Template.TImage "data:image/png;base64,iVBORw=="]
  /\ parseDataUrl "data:image/png;base64,iVBORw==" = Some ("image/png", "iVBORw==").
Proof.
  intros bytes.
  destruct (X21_data_url_round_trip png_only bytes eq_refl eq_refl)
    as (Hprocess & Hfull & _).
  split; [exact Hprocess|]. by destruct Hfull as (Hparse & _).
Defined.

(** ** The prompt text *)

Module TemplateFacts.
Import Template.

Lemma texts_apart_image (parts : list ContentPart) (url : string) :
  texts_apart parts = true -> texts_apart (parts ++ [ImagePart url]) = true.
Proof.
  induction parts as [|p parts IH]; [done|].
  destruct p as [t|u]; simpl.
  - destruct parts as [|[t'|u'] parts']; simpl in *; auto.
  - auto.
Qed.

Lemma texts_apart_text (parts : list ContentPart) (t : string) :
  texts_apart parts = true ->
  (forall t', last parts <> Some (TextPart t')) ->
  texts_apart (parts ++ [TextPart t]) = true.
Proof.
  induction parts as [|p parts IH]; [done|]. intros Ha Hl.
  assert (texts_apart parts = true) as Ha'.
  { destruct p; [|done]. simpl in Ha. by destruct parts as [|[?|?] ?]. }
  assert (forall t', parts <> [] -> last parts <> Some (TextPart t')) as Hl'.
  { intros t' Hne. specialize (Hl t'). by destruct parts. }
  destruct parts as [|q parts'].
  - simpl. destruct p as [t0|u]; [|done]. by destruct (Hl t0).
  - specialize (IH Ha' (fun t' => Hl' t' ltac:(done))).
    destruct p as [t0|u]; [|exact IH].
    destruct q as [t1|u1]; [done|]. exact IH.
Qed.

Lemma last_image (parts : list ContentPart) (url : string) :
  forall t', last (parts ++ [ImagePart url]) <> Some (TextPart t').
Proof. intros t'. by rewrite last_snoc. Qed.

Lemma part_images_app (a b : list ContentPart) :
  part_images (a ++ b) = part_images a ++ part_images b.
Proof. unfold part_images. apply omap_app. Qed.

Lemma flushText_facts (parts : list ContentPart) (buffer : string) :
  texts_apart parts = true ->
  (forall t', last parts <> Some (TextPart t')) ->
  texts_apart (flushText parts buffer) = true
  /\ part_images (flushText parts buffer) = part_images parts.
Proof.
  intros Ha Hl. unfold flushText. destruct (nonempty buffer); [|done].
  split; [by apply texts_apart_text|].
  rewrite part_images_app. simpl. by rewrite app_nil_r.
Qed.

Lemma image_parts_facts (strings : list string) :
  forall (values : list Value) (parts : list ContentPart) (buffer : string),
    texts_apart parts = true ->
    (forall t', last parts <> Some (TextPart t')) ->
    texts_apart (image_parts strings values parts buffer) = true
    /\ part_images (image_parts strings values parts buffer)
       = part_images parts ++ images_of (length strings) values.
Proof.
  induction strings as [|s strings IH]; intros values parts buffer Ha Hl.
  - simpl. destruct (flushText_facts parts buffer Ha Hl) as [H1 H2].
    split; [done|]. unfold images_of. rewrite take_0. simpl.
    by rewrite app_nil_r.
  - simpl. destruct values as [|value values].
    + destruct (IH [] parts (buffer +:+ s) Ha Hl) as [H1 H2].
      split; [done|]. rewrite H2. unfold images_of. by rewrite !take_nil.
    + assert (forall buffer',
                texts_apart (image_parts strings values parts buffer') = true
                /\ part_images (image_parts strings values parts buffer')
                   = part_images parts ++ images_of (length strings) values)
        as Hother by (intros; by apply IH).
      destruct value as [t| |bytes|url|meta|text]; try apply Hother.
      destruct (flushText_facts parts (buffer +:+ s) Ha Hl) as [H1 H2].
      destruct (IH values (flushText parts (buffer +:+ s) ++ [ImagePart url])
                  EmptyString (texts_apart_image _ url H1) (last_image _ url))
        as [H3 H4].
      split; [done|]. rewrite H4, part_images_app, H2. simpl.
      by rewrite <- app_assoc.
Qed.

Lemma trim_first_facts (parts : list ContentPart) :
  texts_apart (trim_first parts) = texts_apart parts
  /\ part_images (trim_first parts) = part_images parts.
Proof. by destruct parts as [|[t|u] parts]. Qed.

Lemma trim_last_facts (parts : list ContentPart) :
  texts_apart (trim_last parts) = texts_apart parts
  /\ part_images (trim_last parts) = part_images parts.
Proof.
  induction parts as [|p parts [IH1 IH2]]; [done|].
  destruct parts as [|q parts'].
  - by destruct p.
  - assert (trim_last (p :: q :: parts') = p :: trim_last (q :: parts')) as ->
      by (by destruct p).
    split.
    + destruct p as [t|u]; [|exact IH1].
      destruct q as [t'|u'].
      * destruct parts'; [done|]. done.
      * simpl in *. exact IH1.
    + destruct p; simpl in *; by rewrite ?IH2.
Qed.

End TemplateFacts.

(** X22. Images are kept out of the text and in their order.  When a
    value is an image marker, [buildPromptText] returns parts whose images
    are the image markers among the values the template reaches, in their
    order, and no two text parts follow each other; when no value is an
    image marker it returns one text. *)
Theorem X22_images_stay_in_order (strings : list string)
    (values : list Template.Value) :
  if existsb Template.isImageMarker values then
    exists parts,
      Template.buildPromptText strings values = Parts parts
      /\ Template.part_images parts
         = Template.images_of (length strings) values
      /\ Template.texts_apart parts = true
  else
    exists text, Template.buildPromptText strings values = PlainText text.
Proof.
  unfold Template.buildPromptText.
  destruct (existsb Template.isImageMarker values); [|eauto].
  eexists. split; [reflexivity|].
  destruct (TemplateFacts.image_parts_facts strings values [] EmptyString)
    as [H1 H2]; [done|done|].
  destruct (TemplateFacts.trim_first_facts
              (Template.image_parts strings values [] EmptyString)) as [H3 H4].
  destruct (TemplateFacts.trim_last_facts
              (Template.trim_first
                 (Template.image_parts strings values [] EmptyString)))
    as [H5 H6].
  split; [by rewrite H6, H4, H2 | by rewrite H5, H3].
Qed.

(** ** Tools made of functions *)

Module ToolFacts.
Import Tool.


Lemma described_names_cons (parsedParams : list Parser.Param) (i : nat)
    (elem : ArgDescriptor) (arr : list ArgDescriptor) :
  described_names parsedParams i (elem :: arr)
  = descriptor_name (parsedParams !! i) i elem
    :: described_names parsedParams (S i) arr.
Proof.
  unfold described_names. simpl. rewrite Nat.add_0_r. f_equal.
  apply imap_ext. intros j x _. simpl. by rewrite Nat.add_succ_r.
Qed.

Lemma describe_names (parsedParams : list Parser.Param)
    (arr : list ArgDescriptor) :
  forall (i : nat) (props : list (string * JsValue)) (req : list string),
    NoDup (Object_keys props ++ described_names parsedParams i arr) ->
    Object_keys (describe parsedParams i arr (props, req)).1
    = Object_keys props ++ described_names parsedParams i arr.
Proof.
  induction arr as [|elem arr IH]; intros i props req Hnd.
  - simpl. by rewrite app_nil_r.
  - rewrite described_names_cons in *. cbn [describe fst snd].
    apply NoDup_app in Hnd as (Hp & Hdisj & Hnames).
    apply NoDup_cons in Hnames as [Hnotin Hnames].
    rewrite obj_set_fresh by (intros Hin; apply (Hdisj _ Hin); left).
    rewrite IH.
    + rewrite Object_keys_app. simpl. by rewrite <- app_assoc.
    + rewrite Object_keys_app. simpl. rewrite <- app_assoc. simpl.
      apply NoDup_app. split; [done|]. split.
      * intros x Hx Hin. apply elem_of_cons in Hin as [-> | Hin].
        -- apply (Hdisj _ Hx). left.
        -- apply (Hdisj _ Hx). by right.
      * by apply NoDup_cons.
Qed.



End ToolFacts.





(** ** Reading the parameters of a function *)

Module ParserFacts.
Import Parser.

(** A character that is no white space and stands for itself in UTF-8. *)
Lemma strip_space_ascii (c : ascii) (r : string) :
  (33 <=? N_of_ascii c)%N = true ->
  (N_of_ascii c <? 128)%N = true ->
  strip_space (String c r) = None.
Proof.
  intros Hlo Hhi. apply N.leb_le in Hlo. apply N.ltb_lt in Hhi.
  unfold strip_space.
  assert ((N_of_ascii c =? 32)%N = false) as -> by (apply N.eqb_neq; lia).
  assert ((N_of_ascii c <=? 13)%N = false) as -> by (apply N.leb_gt; lia).
  assert ((N_of_ascii c =? 194)%N = false) as -> by (apply N.eqb_neq; lia).
  assert ((N_of_ascii c =? 225)%N = false) as -> by (apply N.eqb_neq; lia).
  assert ((N_of_ascii c =? 226)%N = false) as -> by (apply N.eqb_neq; lia).
  assert ((N_of_ascii c =? 227)%N = false) as -> by (apply N.eqb_neq; lia).
  assert ((N_of_ascii c =? 239)%N = false) as -> by (apply N.eqb_neq; lia).
  rewrite andb_false_r. simpl.
  destruct r as [|c1 [|c2 r2]]; done.
Qed.

Lemma is_word_bounds (c : ascii) :
  is_word c = true ->
  (33 <=? N_of_ascii c)%N = true /\ (N_of_ascii c <? 128)%N = true.
Proof.
  unfold is_word. intros H.
  rewrite !orb_true_iff, !andb_true_iff, !N.leb_le, N.eqb_eq in H.
  rewrite N.leb_le, N.ltb_lt. lia.
Qed.

Lemma is_word_not (c : ascii) (n : N) :
  is_word c = true ->
  is_word (ascii_of_N n) = false -> (n < 256)%N ->
  (N_of_ascii c =? n)%N = false.
Proof.
  intros Hc Hn Hlt. apply N.eqb_neq. intros Heq.
  rewrite <- Heq, ascii_N_embedding in Hn. congruence.
Qed.

Lemma trimStart_keeps (c : ascii) (r : string) :
  strip_space (String c r) = None -> trimStart (String c r) = String c r.
Proof.
  intros H. unfold trimStart. cbn [String.length trimStart_within].
  by rewrite H.
Qed.

Lemma trimStart_space (r : string) : trimStart (String " "%char r) = trimStart r.
Proof. reflexivity. Qed.

Lemma trimEnd_keeps (c : ascii) (r : string) :
  strip_space (String c r) = None ->
  trimEnd (String c r) = String c (trimEnd r).
Proof.
  intros H. cbn [trimEnd]. unfold blank. by rewrite (trimStart_keeps _ _ H).
Qed.

Lemma trimStart_word (w r : string) :
  word w = true -> nonempty w = true -> trimStart (w +:+ r) = w +:+ r.
Proof.
  destruct w as [|c w]; [done|]. simpl. intros H _.
  apply andb_true_iff in H as [Hc _]. apply is_word_bounds in Hc as [Hlo Hhi].
  rewrite string_app_cons. apply trimStart_keeps. by apply strip_space_ascii.
Qed.

Lemma trimEnd_word (w r : string) :
  word w = true -> trimEnd (w +:+ r) = w +:+ trimEnd r.
Proof.
  induction w as [|c w IH]; [done|]. intros H. cbn [word] in H.
  apply andb_true_iff in H as [Hc Hw]. apply is_word_bounds in Hc as [Hlo Hhi].
  rewrite !string_app_cons, trimEnd_keeps by (by apply strip_space_ascii).
  by rewrite IH.
Qed.

Lemma includes_app (c : ascii) (a b : string) :
  includes c (a +:+ b) = includes c a || includes c b.
Proof.
  induction a as [|x a IH]; [done|].
  rewrite string_app_cons. simpl. by rewrite IH, orb_assoc.
Qed.

Lemma includes_word (n : N) (w : string) :
  word w = true -> is_word (ascii_of_N n) = false -> (n < 256)%N ->
  includes (ascii_of_N n) w = false.
Proof.
  intros Hw Hn Hlt. induction w as [|c w IH]; [done|]. simpl in *.
  apply andb_true_iff in Hw as [Hc Hw]. rewrite (IH Hw), orb_false_r.
  apply Ascii.eqb_neq. intros ->. congruence.
Qed.

Lemma before_nil (sep : ascii) : before sep EmptyString = EmptyString.
Proof. reflexivity. Qed.

Lemma before_cons (sep c : ascii) (s : string) :
  before sep (String c s)
  = if Ascii.eqb c sep then EmptyString else String c (before sep s).
Proof.
  unfold before. simpl. destruct (Ascii.eqb c sep); [done|].
  destruct (split_on sep s) eqn:Hs; [|done].
  by destruct s; simpl in Hs; [|destruct (Ascii.eqb _ _), (split_on _ _)].
Qed.

Lemma before_app (sep : ascii) (a b : string) :
  includes sep a = false -> before sep (a +:+ b) = a +:+ before sep b.
Proof.
  induction a as [|x a IH]; [done|]. simpl. intros H.
  apply orb_false_iff in H as [Hx Ha].
  by rewrite string_app_cons, before_cons, Hx, (IH Ha).
Qed.

Lemma before_absent (sep : ascii) (a : string) :
  includes sep a = false -> before sep a = a.
Proof.
  intros H. rewrite <- (string_app_nil_r a) at 1.
  by rewrite (before_app _ _ _ H), before_nil, string_app_nil_r.
Qed.

Lemma endsWith_absent (c : ascii) (s : string) :
  includes c s = false -> endsWith c s = false.
Proof.
  induction s as [|x s IH]; [done|]. simpl. intros H.
  apply orb_false_iff in H as [Hx Hs]. destruct s; [done|]. by apply IH.
Qed.

Lemma remove_first_absent (c : ascii) (s : string) :
  includes c s = false -> remove_first c s = s.
Proof.
  induction s as [|x s IH]; [done|]. simpl. intros H.
  apply orb_false_iff in H as [Hx Hs]. by rewrite Hx, (IH Hs).
Qed.

Lemma split_on_absent (sep : ascii) (a : string) :
  includes sep a = false -> split_on sep a = [a].
Proof.
  induction a as [|x a IH]; [done|]. simpl. intros H.
  apply orb_false_iff in H as [Hx Ha]. by rewrite Hx, (IH Ha).
Qed.

Lemma split_on_app (sep : ascii) (a b : string) :
  includes sep a = false ->
  split_on sep (a +:+ String sep b) = a :: split_on sep b.
Proof.
  induction a as [|x a IH]; intros H.
  - change (EmptyString +:+ String sep b) with (String sep b).
    cbn [split_on]. by rewrite Ascii.eqb_refl.
  - cbn [includes] in H. apply orb_false_iff in H as [Hx Ha].
    rewrite string_app_cons. cbn [split_on]. by rewrite Hx, (IH Ha).
Qed.

(** *** One parameter *)

Lemma word_name_facts (w : string) :
  word w = true ->
  includes "="%char w = false /\ includes ":"%char w = false
  /\ includes "?"%char w = false /\ includes ","%char w = false
  /\ includes ")"%char w = false.
Proof.
  intros Hw. repeat split.
  - by apply (includes_word 61).
  - by apply (includes_word 58).
  - by apply (includes_word 63).
  - by apply (includes_word 44).
  - by apply (includes_word 41).
Qed.

Lemma trim_word (w : string) :
  word w = true -> nonempty w = true -> trim w = w.
Proof.
  intros Hw Hne. unfold trim.
  rewrite <- (string_app_nil_r w) at 1.
  by rewrite (trimStart_word _ _ Hw Hne), (trimEnd_word _ _ Hw), string_app_nil_r.
Qed.

Lemma param_of_name (w : string) :
  word w = true -> nonempty w = true ->
  param_of w = {| p_name := w; p_optional := false |}.
Proof.
  intros Hw Hne. destruct (word_name_facts w Hw) as (He & Hc & Hq & _).
  unfold param_of.
  rewrite (before_absent _ _ Hc), (before_absent _ _ He), (trim_word _ Hw Hne),
    (endsWith_absent _ _ Hq), (remove_first_absent _ _ Hq), He.
  done.
Qed.

Lemma trim_with_default (w value : string) :
  word w = true -> nonempty w = true ->
  exists t, trim (w +:+ " = " +:+ value) = w +:+ " =" +:+ t.
Proof.
  intros Hw Hne. unfold trim.
  rewrite (trimStart_word _ _ Hw Hne), (trimEnd_word _ _ Hw).
  exists (trimEnd (String " "%char value)).
  f_equal. change (" = " +:+ value) with (String " "%char (String "="%char (String " "%char value))).
  assert (strip_space (String "="%char (String " "%char value)) = None) as Heq
    by by apply strip_space_ascii.
  cbn [trimEnd]. unfold blank at 1. rewrite trimStart_space.
  rewrite (trimStart_keeps _ _ Heq). cbn [nonempty negb].
  unfold blank at 1. rewrite (trimStart_keeps _ _ Heq). cbn [nonempty negb].
  done.
Qed.

Lemma param_of_default (w t : string) :
  word w = true -> nonempty w = true ->
  param_of (w +:+ " =" +:+ t) = {| p_name := w; p_optional := true |}.
Proof.
  intros Hw Hne. destruct (word_name_facts w Hw) as (He & Hc & Hq & _).
  unfold param_of.
  rewrite (before_app _ _ _ Hc).
  change (" =" +:+ t) with (String " "%char (String "="%char t)).
  rewrite !before_cons. cbn [Ascii.eqb Bool.eqb andb].
  rewrite (before_app _ _ _ He), !before_cons. cbn [Ascii.eqb Bool.eqb andb].
  assert (trim (w +:+ " ") = w) as ->.
  { unfold trim. by rewrite (trimStart_word _ _ Hw Hne), (trimEnd_word _ _ Hw),
      string_app_nil_r. }
  rewrite (endsWith_absent _ _ Hq), (remove_first_absent _ _ Hq), includes_app.
  simpl. by rewrite orb_true_r.
Qed.

Lemma plain_param_facts (p : string * option string) :
  plain_param p = true ->
  word p.1 = true /\ nonempty p.1 = true
  /\ includes ","%char (render_param p) = false
  /\ includes ")"%char (render_param p) = false.
Proof.
  unfold plain_param, render_param. intros H.
  apply andb_true_iff in H as [H Hv]. apply andb_true_iff in H as [Hne Hw].
  destruct (word_name_facts _ Hw) as (_ & _ & _ & Hcomma & Hparen).
  repeat split; try done.
  - destruct p.2 as [value|]; [|done].
    apply andb_true_iff in Hv as [Hv _]. apply negb_true_iff in Hv.
    by rewrite !includes_app, Hcomma, Hv.
  - destruct p.2 as [value|]; [|done].
    apply andb_true_iff in Hv as [_ Hv]. apply negb_true_iff in Hv.
    by rewrite !includes_app, Hparen, Hv.
Qed.

Lemma param_of_rendered (p : string * option string) :
  plain_param p = true ->
  nonempty (trim (render_param p)) = true
  /\ param_of (trim (render_param p)) = declared p.
Proof.
  intros Hp. destruct (plain_param_facts p Hp) as (Hw & Hne & _).
  unfold render_param, declared. destruct p as [w [value|]]; simpl in *.
  - destruct (trim_with_default w value Hw Hne) as [t ->].
    split; [by destruct w|]. by apply param_of_default.
  - rewrite (trim_word _ Hw Hne). split; [done|]. by apply param_of_name.
Qed.

(** *** The parameter list *)

Lemma parameter_list_cons (p q : string * option string)
    (ps : list (string * option string)) :
  parameter_list (p :: q :: ps)
  = render_param p +:+ String ","%char (String " "%char (parameter_list (q :: ps))).
Proof. reflexivity. Qed.

Lemma parameter_list_pieces (p : string * option string)
    (ps : list (string * option string)) :
  forallb plain_param (p :: ps) = true ->
  split_on ","%char (parameter_list (p :: ps))
  = render_param p :: map (fun q => String " "%char (render_param q)) ps.
Proof.
  revert p. induction ps as [|q ps IH]; intros p Hp.
  - cbn [forallb] in Hp. apply andb_true_iff in Hp as [Hp _].
    destruct (plain_param_facts p Hp) as (_ & _ & Hcomma & _).
    by apply split_on_absent.
  - cbn [forallb] in Hp. apply andb_true_iff in Hp as [Hp Hps].
    destruct (plain_param_facts p Hp) as (_ & _ & Hcomma & _).
    rewrite parameter_list_cons, (split_on_app _ _ _ Hcomma).
    cbn [split_on Ascii.eqb Bool.eqb andb]. by rewrite (IH q Hps).
Qed.

Lemma parameter_list_no_paren (ps : list (string * option string)) :
  forallb plain_param ps = true ->
  includes ")"%char (parameter_list ps) = false.
Proof.
  induction ps as [|p ps IH]; [done|]. intros Hp.
  cbn [forallb] in Hp. apply andb_true_iff in Hp as [Hp Hps].
  destruct (plain_param_facts p Hp) as (_ & _ & _ & Hparen).
  destruct ps as [|q ps]; [done|].
  rewrite parameter_list_cons, includes_app, Hparen.
  cbn [includes Ascii.eqb Bool.eqb andb orb]. by apply IH.
Qed.

Lemma parameter_list_head (p : string * option string)
    (ps : list (string * option string)) :
  exists r, parameter_list (p :: ps) = p.1 +:+ r.
Proof.
  assert (exists r, render_param p = p.1 +:+ r) as [r Hr].
  { unfold render_param. destruct p.2 as [value|]; [by eexists|].
    exists EmptyString. by rewrite string_app_nil_r. }
  destruct ps as [|q ps]; [by exists r|].
  rewrite parameter_list_cons, Hr, string_app_assoc. by eexists.
Qed.

Lemma trim_space (s : string) : trim (String " "%char s) = trim s.
Proof. reflexivity. Qed.

Lemma params_of_parameter_list (ps : list (string * option string)) :
  forallb plain_param ps = true ->
  params_of (parameter_list ps) = map declared ps.
Proof.
  destruct ps as [|p ps]; [done|]. intros Hps. unfold params_of.
  assert (nonempty (trim (parameter_list (p :: ps))) = true) as ->.
  { destruct (parameter_list_head p ps) as [r ->].
    cbn [forallb] in Hps. apply andb_true_iff in Hps as [Hp _].
    destruct (plain_param_facts p Hp) as (Hw & Hne & _).
    unfold trim. rewrite (trimStart_word _ _ Hw Hne), (trimEnd_word _ _ Hw).
    by destruct p.1. }
  rewrite (parameter_list_pieces p ps Hps).
  assert (forall qs : list (string * option string),
            forallb plain_param qs = true ->
            map param_of (List.filter nonempty (map trim (map render_param qs)))
            = map declared qs) as Hall.
  { induction qs as [|q qs IH]; [done|]. intros Hqs.
    cbn [forallb] in Hqs. apply andb_true_iff in Hqs as [Hq Hqs].
    destruct (param_of_rendered q Hq) as [Hne Hparam].
    cbn [map List.filter]. rewrite Hne. cbn [map]. by rewrite Hparam, (IH Hqs). }
  rewrite <- (Hall (p :: ps) Hps). cbn [map]. do 3 f_equal.
  rewrite !map_map. apply map_ext. intros q. apply trim_space.
Qed.

(** *** The two patterns *)

Lemma strip_prefix_nil (s : string) : strip_prefix EmptyString s = Some s.
Proof.
  unfold strip_prefix. destruct s; [done|]. simpl. by rewrite substring_0_all.
Qed.

Lemma strip_prefix_cons (a b : ascii) (p s : string) :
  strip_prefix (String a p) (String b s)
  = if Ascii.eqb a b then strip_prefix p s else None.
Proof.
  unfold strip_prefix. cbn [String.prefix String.length].
  destruct (ascii_dec a b) as [->|Hne].
  - rewrite Ascii.eqb_refl. by destruct (String.prefix p s).
  - by apply Ascii.eqb_neq in Hne as ->.
Qed.

Lemma strip_prefix_short (a : ascii) (p : string) :
  strip_prefix (String a p) EmptyString = None.
Proof. reflexivity. Qed.

Lemma word_not_eqb (a c : ascii) :
  is_word a = true -> is_word c = false -> Ascii.eqb a c = false.
Proof. intros Ha Hc. apply Ascii.eqb_neq. intros ->. congruence. Qed.

(** What is left of a word and what follows it, once a word has been taken
    from its start, is what is left of the word, and what follows it. *)
Lemma strip_prefix_word (p m : string) (c : ascii) (rest r : string) :
  word p = true -> word m = true -> is_word c = false ->
  strip_prefix p (m +:+ String c rest) = Some r ->
  exists m', word m' = true /\ r = m' +:+ String c rest.
Proof.
  revert m. induction p as [|a p IH]; intros m Hp Hm Hc Hr.
  - rewrite strip_prefix_nil in Hr. injection Hr as <-. by exists m.
  - cbn [word] in Hp. apply andb_true_iff in Hp as [Ha Hp].
    destruct m as [|b m].
    + change (EmptyString +:+ String c rest) with (String c rest) in Hr.
      by rewrite strip_prefix_cons, (word_not_eqb _ _ Ha Hc) in Hr.
    + cbn [word] in Hm. apply andb_true_iff in Hm as [Hb Hm].
      rewrite string_app_cons, strip_prefix_cons in Hr.
      destruct (Ascii.eqb a b); [|done]. by apply (IH m).
Qed.

Lemma strip_prefix_none_app (p m : string) (c : ascii) (rest : string) :
  word p = true -> is_word c = false ->
  strip_prefix p m = None ->
  strip_prefix p (m +:+ String c rest) = None.
Proof.
  revert m. induction p as [|a p IH]; intros m Hp Hc Hm.
  - by rewrite strip_prefix_nil in Hm.
  - cbn [word] in Hp. apply andb_true_iff in Hp as [Ha Hp].
    destruct m as [|b m].
    + change (EmptyString +:+ String c rest) with (String c rest).
      by rewrite strip_prefix_cons, (word_not_eqb _ _ Ha Hc).
    + rewrite string_app_cons, strip_prefix_cons.
      rewrite strip_prefix_cons in Hm.
      destruct (Ascii.eqb a b); [|done]. by apply IH.
Qed.

Lemma span_word_app (w : string) (c : ascii) (r : string) :
  word w = true -> is_word c = false ->
  span_word (w +:+ String c r) = (w, String c r).
Proof.
  intros Hw Hc. induction w as [|x w IH].
  - change (EmptyString +:+ String c r) with (String c r).
    cbn [span_word]. by rewrite Hc.
  - cbn [word] in Hw. apply andb_true_iff in Hw as [Hx Hw].
    rewrite string_app_cons. cbn [span_word]. by rewrite Hx, (IH Hw).
Qed.

Lemma trimStart_word_then (w : string) (c : ascii) (r : string) :
  word w = true -> strip_space (String c r) = None ->
  trimStart (w +:+ String c r) = w +:+ String c r.
Proof.
  intros Hw Hc. destruct w as [|x w]; [by apply trimStart_keeps|].
  by apply trimStart_word.
Qed.

Lemma until_paren_app (a b : string) :
  includes ")"%char a = false ->
  until_paren (a +:+ String ")"%char b) = Some a.
Proof.
  induction a as [|x a IH]; intros H; [done|].
  cbn [includes] in H. apply orb_false_iff in H as [Hx Ha].
  rewrite string_app_cons. cbn [until_paren].
  assert ((N_of_ascii x =? 41)%N = false) as ->.
  { apply N.eqb_neq. intros Heq. apply Ascii.eqb_neq in Hx. apply Hx.
    by rewrite <- (ascii_N_embedding x), Heq. }
  by rewrite (IH Ha).
Qed.

Lemma after_async_other (c : ascii) (s : string) :
  Ascii.eqb "a"%char c = false -> after_async (String c s) = None.
Proof.
  intros Hc. unfold after_async.
  change "async" with (String "a"%char "sync").
  by rewrite strip_prefix_cons, Hc.
Qed.

Lemma after_async_space (s : string) :
  after_async ("async " +:+ s) = Some (trimStart s).
Proof.
  unfold after_async.
  change ("async " +:+ s) with ("async" +:+ String " "%char s).
  by rewrite strip_prefix_app.
Qed.

(** A word followed by a character that is no white space does not begin
    with [async] and white space. *)
Lemma after_async_word (m : string) (c : ascii) (rest : string) :
  word m = true -> is_word c = false ->
  strip_space (String c rest) = None ->
  after_async (m +:+ String c rest) = None.
Proof.
  intros Hm Hc Hspace. unfold after_async.
  destruct (strip_prefix "async" (m +:+ String c rest)) as [r|] eqn:Hr; [|done].
  destruct (strip_prefix_word "async" _ _ _ _ eq_refl Hm Hc Hr)
    as (m' & Hm' & ->).
  cbn [mbind option_bind].
  destruct m' as [|x m'].
  - change (EmptyString +:+ String c rest) with (String c rest).
    by rewrite Hspace.
  - cbn [word] in Hm'. apply andb_true_iff in Hm' as [Hx _].
    apply is_word_bounds in Hx as [Hlo Hhi].
    by rewrite string_app_cons, (strip_space_ascii _ _ Hlo Hhi).
Qed.

Lemma strip_space_paren (r : string) : strip_space (String "("%char r) = None.
Proof. by apply strip_space_ascii. Qed.

(** The signature of a function with its parameters in parentheses. *)
Lemma match_signature_parenthesised (async : bool)
    (ps : list (string * option string)) (body : string) :
  forallb plain_param ps = true ->
  match_signature (render_function async (Parenthesised ps) body)
  = Some (parameter_list ps).
Proof.
  intros Hps. unfold match_signature, signature_group, render_function.
  set (tail := String "("%char (parameter_list ps +:+ String ")"%char body)).
  change ("(" +:+ parameter_list ps +:+ ")" +:+ body) with tail.
  assert (default ((if async then "async " else EmptyString) +:+ tail)
            (after_async ((if async then "async " else EmptyString) +:+ tail))
          = tail) as ->.
  { destruct async.
    - rewrite after_async_space. unfold tail.
      by rewrite (trimStart_keeps _ _ (strip_space_paren _)).
    - change (EmptyString +:+ tail) with tail. unfold tail.
      by rewrite after_async_other. }
  cbv zeta. unfold tail. rewrite strip_prefix_cons. cbn [Ascii.eqb Bool.eqb andb].
  rewrite (trimStart_keeps _ _ (strip_space_paren _)). cbn [N_of_ascii N.eqb].
  apply until_paren_app. by apply parameter_list_no_paren.
Qed.

(** The signature of a function declaration or expression. *)
Lemma match_signature_declared (async : bool) (fname : string)
    (ps : list (string * option string)) (body : string) :
  word fname = true -> forallb plain_param ps = true ->
  match_signature (render_function async (Declared fname ps) body)
  = Some (parameter_list ps).
Proof.
  intros Hname Hps. unfold match_signature, signature_group, render_function.
  set (tail := String "("%char (parameter_list ps +:+ String ")"%char body)).
  change ("function " +:+ fname +:+ "(" +:+ parameter_list ps +:+ ")" +:+ body)
    with (String "f"%char ("unction " +:+ fname +:+ tail)).
  assert (default ((if async then "async " else EmptyString)
                   +:+ String "f"%char ("unction " +:+ fname +:+ tail))
            (after_async ((if async then "async " else EmptyString)
                          +:+ String "f"%char ("unction " +:+ fname +:+ tail)))
          = "function" +:+ String " "%char (fname +:+ tail)) as ->.
  { destruct async.
    - rewrite after_async_space.
      by rewrite trimStart_keeps by by apply strip_space_ascii.
    - change (EmptyString +:+ String "f"%char ("unction " +:+ fname +:+ tail))
        with (String "f"%char ("unction " +:+ fname +:+ tail)).
      by rewrite after_async_other. }
  cbv zeta. rewrite strip_prefix_app, trimStart_space.
  unfold tail.
  rewrite (trimStart_word_then _ _ _ Hname (strip_space_paren _)).
  rewrite (span_word_app fname "("%char _ Hname eq_refl).
  cbn [snd]. rewrite (trimStart_keeps _ _ (strip_space_paren _)).
  cbn [N_of_ascii N.eqb].
  apply until_paren_app. by apply parameter_list_no_paren.
Qed.

(** *** One parameter without parentheses *)

Lemma word_arrow_single (x body : string) :
  word x = true -> nonempty x = true ->
  word_arrow (x +:+ " => " +:+ body) = Some x.
Proof.
  intros Hx Hne. unfold word_arrow.
  change (" => " +:+ body)
    with (String " "%char (String "="%char (String ">"%char (String " "%char body)))).
  rewrite (span_word_app x " "%char _ Hx eq_refl), Hne, trimStart_space.
  by rewrite trimStart_keeps by by apply strip_space_ascii.
Qed.

Lemma word_arrow_arrow (body : string) : word_arrow ("=> " +:+ body) = None.
Proof. reflexivity. Qed.

Lemma signature_group_arrow (body : string) :
  signature_group ("=> " +:+ body) = None.
Proof.
  unfold signature_group.
  change ("=> " +:+ body) with (String "="%char (String ">"%char (String " "%char body))).
  change "function" with (String "f"%char "unction").
  rewrite strip_prefix_cons. cbn [Ascii.eqb Bool.eqb andb].
  by rewrite trimStart_keeps by by apply strip_space_ascii.
Qed.

Lemma after_async_single (x body : string) :
  word x = true ->
  after_async (x +:+ " => " +:+ body) = None
  \/ after_async (x +:+ " => " +:+ body) = Some ("=> " +:+ body).
Proof.
  intros Hx. unfold after_async.
  change (" => " +:+ body) with (String " "%char ("=> " +:+ body)).
  destruct (strip_prefix "async" (x +:+ String " "%char ("=> " +:+ body)))
    as [r|] eqn:Hr; [|by left].
  destruct (strip_prefix_word "async" x " "%char _ _ eq_refl Hx eq_refl Hr)
    as (m' & Hm' & ->).
  cbn [mbind option_bind]. destruct m' as [|c m'].
  - right. change (EmptyString +:+ String " "%char ("=> " +:+ body))
      with (String " "%char ("=> " +:+ body)).
    cbn [strip_space N_of_ascii N.eqb orb]. rewrite trimStart_space.
    change ("=> " +:+ body)
      with (String "="%char (String ">"%char (String " "%char body))).
    by rewrite trimStart_keeps by by apply strip_space_ascii.
  - left. cbn [word] in Hm'. apply andb_true_iff in Hm' as [Hc _].
    apply is_word_bounds in Hc as [Hlo Hhi].
    by rewrite string_app_cons, (strip_space_ascii _ _ Hlo Hhi).
Qed.

Lemma signature_group_single (x body : string) :
  word x = true -> nonempty x = true ->
  signature_group (x +:+ " => " +:+ body) = None.
Proof.
  intros Hx Hne. unfold signature_group.
  change (" => " +:+ body) with (String " "%char ("=> " +:+ body)).
  assert (trimStart ("=> " +:+ body) = "=> " +:+ body) as Harrow.
  { change ("=> " +:+ body)
      with (String "="%char (String ">"%char (String " "%char body))).
    by rewrite trimStart_keeps by by apply strip_space_ascii. }
  destruct (strip_prefix "function" (x +:+ String " "%char ("=> " +:+ body)))
    as [r|] eqn:Hr.
  - destruct (strip_prefix_word "function" x " "%char _ _ eq_refl Hx eq_refl Hr)
      as (m' & Hm' & ->).
    assert ((span_word (trimStart (m' +:+ String " "%char ("=> " +:+ body)))).2
            = "=> " +:+ body
            \/ (span_word (trimStart (m' +:+ String " "%char ("=> " +:+ body)))).2
               = String " "%char ("=> " +:+ body)) as [-> | ->].
    { destruct m' as [|c m'].
      - left. change (EmptyString +:+ String " "%char ("=> " +:+ body))
          with (String " "%char ("=> " +:+ body)).
        by rewrite trimStart_space, Harrow.
      - right. rewrite (trimStart_word _ _ Hm' eq_refl).
        by rewrite (span_word_app _ " "%char _ Hm' eq_refl). }
    + by rewrite Harrow.
    + by rewrite trimStart_space, Harrow.
  - rewrite (trimStart_word _ _ Hx Hne). destruct x as [|c x]; [done|].
    cbn [word] in Hx. apply andb_true_iff in Hx as [Hc _].
    rewrite string_app_cons.
    by rewrite (is_word_not c 40 Hc eq_refl).
Qed.

Lemma patterns_single (async : bool) (x body : string) :
  word x = true -> nonempty x = true ->
  match_signature (render_function async (Single x) body) = None
  /\ match_arrow (render_function async (Single x) body) = Some x.
Proof.
  intros Hx Hne. unfold match_signature, match_arrow, render_function.
  destruct async.
  - rewrite after_async_space, (trimStart_word _ _ Hx Hne). cbn [default].
    split; [by apply signature_group_single|].
    cbn [mbind option_bind]. by rewrite word_arrow_single.
  - change (EmptyString +:+ x +:+ " => " +:+ body) with (x +:+ " => " +:+ body).
    destruct (after_async_single x body Hx) as [-> | ->]; cbn [default].
    + split; [by apply signature_group_single|].
      cbn [mbind option_bind]. by apply word_arrow_single.
    + split; [by apply signature_group_arrow|].
      cbn [mbind option_bind]. rewrite word_arrow_arrow.
      by apply word_arrow_single.
Qed.

(** *** Methods *)

Lemma signature_group_method (mname rest : string) :
  word mname = true -> nonempty mname = true ->
  strip_prefix "function" mname = None ->
  signature_group (mname +:+ String "("%char rest) = None.
Proof.
  intros Hm Hne Hfun. unfold signature_group.
  rewrite (strip_prefix_none_app "function" _ "("%char _ eq_refl eq_refl Hfun).
  rewrite (trimStart_word _ _ Hm Hne). destruct mname as [|c m]; [done|].
  cbn [word] in Hm. apply andb_true_iff in Hm as [Hc _].
  rewrite string_app_cons. by rewrite (is_word_not c 40 Hc eq_refl).
Qed.

Lemma word_arrow_method (mname rest : string) :
  word mname = true ->
  word_arrow (mname +:+ String "("%char rest) = None.
Proof.
  intros Hm. unfold word_arrow.
  rewrite (span_word_app _ "("%char _ Hm eq_refl).
  destruct (nonempty mname); [|done].
  rewrite (trimStart_keeps _ _ (strip_space_paren _)). by destruct rest.
Qed.

Lemma word_arrow_async_method (mname rest : string) :
  word mname = true -> nonempty mname = true ->
  word_arrow ("async " +:+ mname +:+ String "("%char rest) = None.
Proof.
  intros Hm Hne. unfold word_arrow.
  change ("async " +:+ mname +:+ String "("%char rest)
    with ("async" +:+ String " "%char (mname +:+ String "("%char rest)).
  rewrite (span_word_app "async" " "%char _ eq_refl eq_refl).
  cbn [nonempty]. rewrite trimStart_space, (trimStart_word _ _ Hm Hne).
  destruct mname as [|c m]; [done|].
  cbn [word] in Hm. apply andb_true_iff in Hm as [Hc _].
  rewrite string_app_cons, (is_word_not c 61 Hc eq_refl) by done.
  by destruct m.
Qed.

End ParserFacts.

(** X25. The parameters of a function are read off its source text.  For
    a function declaration or expression, an arrow function with its
    parameters in parentheses, or an arrow function with one parameter
    without parentheses, [async] or not, whose parameters have names made
    of word characters and default values without a comma and without a
    closing parenthesis, [parseFunction] returns the parameters in their
    order, the optional ones being those with a default value; the name is
    [fn.name], or [anonymous] when that is empty. *)
Theorem X25_parameters_are_read_off_the_source (fnName : string) (async : bool)
    (form : FunctionForm) (body : string) :
  plain_form form = true ->
  Parser.parseFunction fnName (render_function async form body)
  = {| Parser.pf_name := str_or fnName "anonymous";
       Parser.params := map declared (form_params form) |}.
Proof.
  intros Hform. unfold Parser.parseFunction. f_equal.
  destruct form as [fname ps|ps|x]; cbn [plain_form form_params] in *.
  - apply andb_true_iff in Hform as [Hname Hps].
    rewrite (ParserFacts.match_signature_declared _ _ _ _ Hname Hps).
    by apply ParserFacts.params_of_parameter_list.
  - rewrite (ParserFacts.match_signature_parenthesised _ _ _ Hform).
    by apply ParserFacts.params_of_parameter_list.
  - destruct (ParserFacts.plain_param_facts _ Hform) as (Hx & Hne & _).
    destruct (ParserFacts.patterns_single async x body Hx Hne) as [-> ->].
    apply (ParserFacts.params_of_parameter_list [(x, None)]).
    cbn [forallb]. by rewrite Hform.
Qed.

Lemma X25_example_search :
  Parser.parseFunction EmptyString
    "async (query, limit = 10) => find(query, limit)"
  = {| Parser.pf_name := "anonymous";
       Parser.params := [ {| Parser.p_name := "query"; Parser.p_optional := false |};
                          {| Parser.p_name := "limit"; Parser.p_optional := true |} ] |}.
Proof.
  apply (X25_parameters_are_read_off_the_source EmptyString true
           (Parenthesised [("query", None); ("limit", Some "10")])
           " => find(query, limit)").
  reflexivity.
Defined.

(** X26. The parameters of a method are not read.  The source text of a
    method begins with its name; when that name is a word that does not
    begin with [function], neither pattern of [parseFunction] matches,
    whatever follows the opening parenthesis, and the function is taken to
    have no parameters. *)
Theorem X26_method_parameters_are_not_read (fnName : string) (async : bool)
    (mname rest : string) :
  word mname = true ->
  nonempty mname = true ->
  strip_prefix "function" mname = None ->
  Parser.params (Parser.parseFunction fnName (render_method async mname rest))
  = [].
Proof.
  intros Hm Hne Hfun. unfold Parser.parseFunction, render_method.
  cbn [Parser.params].
  assert (Parser.match_signature
            ((if async then "async " else EmptyString)
             +:+ mname +:+ "(" +:+ rest) = None
          /\ Parser.match_arrow
               ((if async then "async " else EmptyString)
                +:+ mname +:+ "(" +:+ rest) = None) as [-> ->]; [|done].
  unfold Parser.match_signature, Parser.match_arrow.
  change ("(" +:+ rest) with (String "("%char rest).
  destruct async.
  - rewrite ParserFacts.after_async_space,
      (ParserFacts.trimStart_word _ _ Hm Hne).
    cbn [default id mbind option_bind].
    rewrite (ParserFacts.signature_group_method _ _ Hm Hne Hfun),
      (ParserFacts.word_arrow_method _ _ Hm).
    split; [done|]. by apply ParserFacts.word_arrow_async_method.
  - change (EmptyString +:+ mname +:+ String "("%char rest)
      with (mname +:+ String "("%char rest).
    rewrite (ParserFacts.after_async_word _ "("%char _ Hm eq_refl
               (ParserFacts.strip_space_paren _)).
    cbn [default id mbind option_bind].
    rewrite (ParserFacts.signature_group_method _ _ Hm Hne Hfun).
    split; [done|]. by apply ParserFacts.word_arrow_method.
Qed.

Lemma X26_example_greet :
  Parser.params
    (Parser.parseFunction "greet" "greet(name, greeting = 'Hello') { }")
  = [].
Proof.
  apply (X26_method_parameters_are_not_read "greet" false "greet"
           "name, greeting = 'Hello') { }"); reflexivity.
Defined.

(** ** JSON texts *)

Lemma parse_number_stages (s : string) :
  parse_number s
  = let '(neg, s1) := sign_of s in
    let '(int, s2) := span_digits s1 in
    if integer_digits int then
      let '(frac, s3) := fraction_of s2 in
      let '(exp, s4) := exponent_of s3 in
      number_of neg int frac exp s4
    else None.
Proof.
  unfold parse_number, sign_of.
  destruct (match s with String "-"%char r => (true, r) | _ => (false, s) end)
    as [neg s1].
  destruct (span_digits s1) as [int s2].
  unfold integer_digits.
  destruct int as [|[[] [] [] [] [] [] [] []] [|c int]]; try reflexivity.
Qed.

Lemma number_stop_cases (c : ascii) (r : string) :
  number_stop (String c r) = true ->
  c = ","%char \/ c = "]"%char \/ c = "}"%char.
Proof.
  unfold number_stop. rewrite !orb_true_iff, !N.eqb_eq.
  intros [[H | H] | H]; apply (f_equal ascii_of_N) in H;
    rewrite ascii_N_embedding in H; subst; auto.
Qed.

Lemma span_digits_app (a rest : string) :
  number_stop rest = true ->
  span_digits (a +:+ rest) = ((span_digits a).1, (span_digits a).2 +:+ rest).
Proof.
  intros Hrest. induction a as [|x a IH].
  - change (EmptyString +:+ rest) with rest. destruct rest as [|c r]; [done|].
    by destruct (number_stop_cases c r Hrest) as [-> | [-> | ->]].
  - rewrite string_app_cons. cbn [span_digits].
    destruct (is_digit x); [|done]. rewrite IH. by destruct (span_digits a).
Qed.

Lemma sign_of_app (s rest : string) :
  s <> EmptyString ->
  sign_of (s +:+ rest) = ((sign_of s).1, (sign_of s).2 +:+ rest).
Proof.
  destruct s as [|c s]; [done|]. intros _. rewrite string_app_cons.
  by destruct c as [[] [] [] [] [] [] [] []].
Qed.

Lemma fraction_of_app (s2 rest : string) :
  number_stop rest = true ->
  fraction_of (s2 +:+ rest) = ((fraction_of s2).1, (fraction_of s2).2 +:+ rest).
Proof.
  intros Hrest. destruct s2 as [|x a].
  - change (EmptyString +:+ rest) with rest. destruct rest as [|c r]; [done|].
    by destruct (number_stop_cases c r Hrest) as [-> | [-> | ->]].
  - rewrite string_app_cons.
    destruct x as [[] [] [] [] [] [] [] []]; try reflexivity.
    cbn [fraction_of]. rewrite (span_digits_app _ _ Hrest).
    by destruct (span_digits a).
Qed.

Lemma exponent_sign_app (r rest : string) :
  number_stop rest = true ->
  exponent_sign (r +:+ rest)
  = ((exponent_sign r).1, (exponent_sign r).2 +:+ rest).
Proof.
  intros Hrest. destruct r as [|x a].
  - change (EmptyString +:+ rest) with rest. destruct rest as [|c r]; [done|].
    by destruct (number_stop_cases c r Hrest) as [-> | [-> | ->]].
  - rewrite string_app_cons. by destruct x as [[] [] [] [] [] [] [] []].
Qed.

Lemma exponent_of_app (s3 rest : string) :
  number_stop rest = true ->
  exponent_of (s3 +:+ rest) = ((exponent_of s3).1, (exponent_of s3).2 +:+ rest).
Proof.
  intros Hrest. destruct s3 as [|e r].
  - change (EmptyString +:+ rest) with rest. destruct rest as [|c r]; [done|].
    by destruct (number_stop_cases c r Hrest) as [-> | [-> | ->]].
  - rewrite string_app_cons. cbn [exponent_of].
    destruct ((N_of_ascii e =? 101)%N || (N_of_ascii e =? 69)%N); [|done].
    rewrite (exponent_sign_app _ _ Hrest).
    destruct (exponent_sign r) as [sign r1]. cbn [fst snd].
    rewrite (span_digits_app _ _ Hrest). by destruct (span_digits r1).
Qed.

Lemma number_of_rest (neg : bool) (int : string) (frac : option string)
    (exp : option (string * string)) (s4 s4' : string) (v : JsValue) (r : string) :
  number_of neg int frac exp s4 = Some (v, r) ->
  r = s4 /\ number_of neg int frac exp s4' = Some (v, s4').
Proof.
  unfold number_of. intros H.
  destruct frac as [[|c d]|], exp as [[e [|c' d']]|]; try discriminate;
    repeat match type of H with
           | context [if ?b then _ else _] => destruct b
           end; by inversion H.
Qed.

(** A number literal is read the same with what follows it, when that
    stops the literal. *)
Lemma parse_number_app (s rest : string) (v : JsValue) (s4 : string) :
  number_stop rest = true ->
  parse_number s = Some (v, s4) ->
  parse_number (s +:+ rest) = Some (v, s4 +:+ rest).
Proof.
  intros Hrest. rewrite !parse_number_stages.
  destruct s as [|c s]; [done|].
  rewrite sign_of_app by done.
  destruct (sign_of (String c s)) as [neg s1]. cbn [fst snd].
  rewrite (span_digits_app _ _ Hrest).
  destruct (span_digits s1) as [int s2]. cbn [fst snd].
  destruct (integer_digits int); [|done].
  rewrite (fraction_of_app _ _ Hrest).
  destruct (fraction_of s2) as [frac s3]. cbn [fst snd].
  rewrite (exponent_of_app _ _ Hrest).
  destruct (exponent_of s3) as [exp s4']. cbn [fst snd].
  intros H. by destruct (number_of_rest _ _ _ _ _ (s4' +:+ rest) _ _ H) as [-> ->].
Qed.

(** *** Decimal numerals, read back *)

Lemma digit_val_char (d : N) :
  (d < 10)%N -> digit_val (pretty_N_char d) = Z.of_N d.
Proof.
  intros Hd.
  assert (d = 0 \/ d = 1 \/ d = 2 \/ d = 3 \/ d = 4 \/ d = 5 \/ d = 6 \/ d = 7
          \/ d = 8 \/ d = 9)%N as Hcases by lia.
  by repeat destruct Hcases as [-> | Hcases]; [..|subst].
Qed.

Lemma digits_val_go (x : N) :
  forall s,
    fold_left (fun acc c => 10 * acc + digit_val c)
      (String.list_ascii_of_string (pretty_N_go x s)) 0
    = fold_left (fun acc c => 10 * acc + digit_val c)
        (String.list_ascii_of_string s) (Z.of_N x).
Proof.
  induction (N.lt_wf_0 x) as [x _ IH]; intros s.
  assert (x = 0 \/ 0 < x)%N as [-> | Hpos] by lia.
  - by rewrite pretty_N_go_0.
  - rewrite pretty_N_go_step by done. rewrite IH by by apply N.div_lt.
    cbn [String.list_ascii_of_string fold_left].
    rewrite digit_val_char by by apply N.mod_lt.
    f_equal. pose proof (N.div_mod x 10). lia.
Qed.

Lemma digits_val_pretty (x : N) : digits_val (pretty x) = Z.of_N x.
Proof.
  unfold pretty, pretty_N, digits_val. case_decide as Hx; [by subst|].
  by rewrite digits_val_go.
Qed.

Lemma pretty_N_go_leading (x : N) :
  (0 < x)%N ->
  forall s, exists c r,
    pretty_N_go x s = String c r /\ (N_of_ascii c =? 48)%N = false.
Proof.
  induction (N.lt_wf_0 x) as [x _ IH]; intros Hpos s.
  rewrite pretty_N_go_step by done.
  destruct (N.eq_0_gt_0_cases (x `div` 10)) as [Hq | Hq].
  - rewrite Hq, pretty_N_go_0. eexists _, _. split; [done|].
    assert (x < 10)%N as Hlt. { apply N.div_small_iff in Hq; lia. }
    rewrite N.mod_small by done.
    assert (x = 1 \/ x = 2 \/ x = 3 \/ x = 4 \/ x = 5 \/ x = 6 \/ x = 7
            \/ x = 8 \/ x = 9)%N as Hcases by lia.
    by repeat destruct Hcases as [-> | Hcases]; [..|subst].
  - apply IH; [by apply N.div_lt|done].
Qed.

Lemma span_digits_all (d : string) :
  digits_only d = true -> span_digits d = (d, EmptyString).
Proof.
  induction d as [|c d IH]; [done|]. simpl. intros H.
  apply andb_true_iff in H as [-> Hd]. by rewrite (IH Hd).
Qed.

Lemma sign_of_digit (c : ascii) (r : string) :
  is_digit c = true -> sign_of (String c r) = (false, String c r).
Proof. by destruct c as [[] [] [] [] [] [] [] []]. Qed.

Lemma pretty_N_shape (x : N) :
  digits_only (pretty x) = true
  /\ integer_digits (pretty x) = true
  /\ sign_of (pretty x) = (false, pretty x).
Proof.
  pose proof (pretty_N_digits x) as Hd. split; [done|].
  unfold pretty, pretty_N in *. case_decide as Hx; [done|].
  destruct (pretty_N_go_leading x ltac:(lia) EmptyString) as (c & r & Heq & Hc).
  rewrite Heq in *. cbn [digits_only] in Hd.
  apply andb_true_iff in Hd as [Hdigit _]. split; [|by apply sign_of_digit].
  unfold integer_digits.
  destruct c as [[] [] [] [] [] [] [] []]; try done.
Qed.

Lemma parse_number_N (neg : bool) (x : N) :
  parse_number ((if neg then "-" else EmptyString) +:+ pretty x)
  = (if neg && (x =? 0)%N then parse_number "-0"
     else Some (VNum (if neg then - Z.of_N x else Z.of_N x), EmptyString)).
Proof.
  destruct (pretty_N_shape x) as (Hd & Hi & Hs).
  destruct neg; cbn [andb].
  - destruct (N.eqb_spec x 0) as [-> | Hx]; [done|].
    rewrite parse_number_stages.
    change ("-" +:+ pretty x) with (String "-"%char (pretty x)).
    cbn [sign_of]. rewrite (span_digits_all _ Hd), Hi.
    cbn [fraction_of exponent_of number_of]. by rewrite digits_val_pretty.
  - change (EmptyString +:+ pretty x) with (pretty x).
    rewrite parse_number_stages, Hs, (span_digits_all _ Hd), Hi.
    cbn [fraction_of exponent_of number_of]. by rewrite digits_val_pretty.
Qed.

Lemma parse_number_pretty (n : Z) :
  parse_number (pretty n) = Some (VNum n, EmptyString).
Proof.
  destruct n as [|p|p].
  - reflexivity.
  - apply (parse_number_N false (Npos p)).
  - apply (parse_number_N true (Npos p)).
Qed.

(** *** String literals, read back *)

Lemma parse_string_body_escape_char (c : ascii) (rest : string) :
  parse_string_body (escape_char c +:+ rest)
  = ('(body, r) ← parse_string_body rest; Some (String c body, r)).
Proof. by destruct c as [[] [] [] [] [] [] [] []]. Qed.

Lemma parse_string_body_escape (s rest : string) :
  parse_string_body (escape s +:+ String dquote rest) = Some (s, rest).
Proof.
  induction s as [|c s IH]; [done|].
  cbn [escape]. rewrite string_app_assoc, parse_string_body_escape_char, IH.
  done.
Qed.

Lemma quote_app (s rest : string) :
  quote s +:+ rest = String dquote (escape s +:+ String dquote rest).
Proof.
  unfold quote. by rewrite string_app_assoc, string_app_cons.
Qed.

(** *** Values, read back *)

Lemma parse_value_array (f : nat) (c : ascii) (r : string) :
  value_start c = true ->
  parse_value (S f) (String "["%char (String c r))
  = parse_elements f (String c r) [].
Proof. by destruct c as [[] [] [] [] [] [] [] []]. Qed.

Lemma parse_value_object (f : nat) (r : string) :
  parse_value (S f) (String "{"%char (String dquote r))
  = parse_members f (String dquote r) [].
Proof. reflexivity. Qed.

Lemma parse_value_number (f : nat) (c : ascii) (r : string) :
  number_start c = true ->
  parse_value (S f) (String c r) = parse_number (String c r).
Proof. by destruct c as [[] [] [] [] [] [] [] []]. Qed.

Lemma parse_value_string (f : nat) (s rest : string) :
  parse_value (S f) (quote s +:+ rest) = Some (VStr s, rest).
Proof.
  rewrite quote_app.
  change (parse_value (S f) (String dquote (escape s +:+ String dquote rest)))
    with ('(str, r) ← parse_string_body (escape s +:+ String dquote rest);
          Some (VStr str, r)).
  by rewrite parse_string_body_escape.
Qed.

Lemma parse_value_word (f : nat) (rest : string) :
  parse_value (S f) ("null" +:+ rest) = Some (VNull, rest)
  /\ parse_value (S f) ("true" +:+ rest) = Some (VBool true, rest)
  /\ parse_value (S f) ("false" +:+ rest) = Some (VBool false, rest).
Proof.
  repeat split.
  - change (parse_value (S f) ("null" +:+ rest))
      with (r ← strip_prefix "null" ("null" +:+ rest); Some (VNull, r)).
    by rewrite strip_prefix_app.
  - change (parse_value (S f) ("true" +:+ rest))
      with (r ← strip_prefix "true" ("true" +:+ rest); Some (VBool true, r)).
    by rewrite strip_prefix_app.
  - change (parse_value (S f) ("false" +:+ rest))
      with (r ← strip_prefix "false" ("false" +:+ rest); Some (VBool false, r)).
    by rewrite strip_prefix_app.
Qed.

Lemma parse_elements_more (f : nat) (s : string) (acc : list JsValue)
    (v : JsValue) (r : string) :
  parse_value f s = Some (v, String ","%char r) ->
  parse_elements (S f) s acc = parse_elements f r (acc ++ [v]).
Proof. intros H. simpl. by rewrite H. Qed.

Lemma parse_elements_last (f : nat) (s : string) (acc : list JsValue)
    (v : JsValue) (r : string) :
  parse_value f s = Some (v, String "]"%char r) ->
  parse_elements (S f) s acc = Some (VArr (acc ++ [v]), r).
Proof. intros H. simpl. by rewrite H. Qed.

Lemma parse_members_more (f : nat) (k s : string)
    (acc : list (string * JsValue)) (v : JsValue) (r : string) :
  parse_value f s = Some (v, String ","%char r) ->
  parse_members (S f) (quote k +:+ String ":"%char s) acc
  = parse_members f r (obj_set acc k v).
Proof.
  intros H. rewrite quote_app.
  change (parse_members (S f)
            (String dquote (escape k +:+ String dquote (String ":"%char s))) acc)
    with ('(k', r0) ← parse_string_body
                        (escape k +:+ String dquote (String ":"%char s));
          match skip_ws r0 with
          | String ":"%char r1 =>
              '(v', r2) ← parse_value f r1;
              match skip_ws r2 with
              | String ","%char r3 => parse_members f r3 (obj_set acc k' v')
              | String "}"%char r3 => Some (VObj (obj_set acc k' v'), r3)
              | _ => None
              end
          | _ => None
          end).
  rewrite parse_string_body_escape. simpl. by rewrite H.
Qed.

Lemma parse_members_last (f : nat) (k s : string)
    (acc : list (string * JsValue)) (v : JsValue) (r : string) :
  parse_value f s = Some (v, String "}"%char r) ->
  parse_members (S f) (quote k +:+ String ":"%char s) acc
  = Some (VObj (obj_set acc k v), r).
Proof.
  intros H. rewrite quote_app.
  change (parse_members (S f)
            (String dquote (escape k +:+ String dquote (String ":"%char s))) acc)
    with ('(k', r0) ← parse_string_body
                        (escape k +:+ String dquote (String ":"%char s));
          match skip_ws r0 with
          | String ":"%char r1 =>
              '(v', r2) ← parse_value f r1;
              match skip_ws r2 with
              | String ","%char r3 => parse_members f r3 (obj_set acc k' v')
              | String "}"%char r3 => Some (VObj (obj_set acc k' v'), r3)
              | _ => None
              end
          | _ => None
          end).
  rewrite parse_string_body_escape. simpl. by rewrite H.
Qed.

Lemma read_back_text (v : JsValue) :
  read_back v ->
  stringify v = Some (element_text v)
  /\ (exists c t, element_text v = String c t /\ value_start c = true)
  /\ forall rest f,
       number_stop rest = true ->
       (String.length (element_text v) <= f)%nat ->
       parse_value f (element_text v +:+ rest) = Some (v, rest).
Proof.
  intros (c & t & Htext & Hstart & Hparse). unfold element_text.
  rewrite Htext. cbn [default]. eauto 6.
Qed.

Lemma join_more (sep a b : string) (l : list string) :
  join sep (a :: b :: l) = a +:+ sep +:+ join sep (b :: l).
Proof. reflexivity. Qed.

Lemma parse_elements_texts (es : list JsValue) :
  Forall read_back es ->
  forall (e : JsValue) (acc : list JsValue) (rest : string) (f : nat),
    read_back e ->
    (String.length (join "," (map element_text (e :: es))) < f)%nat ->
    parse_elements f
      (join "," (map element_text (e :: es)) +:+ String "]"%char rest) acc
    = Some (VArr (acc ++ e :: es), rest).
Proof.
  induction 1 as [|e2 es He2 _ IH]; intros e acc rest f He Hlen.
  - destruct (read_back_text e He) as (_ & _ & Hparse).
    cbn [map join] in *. destruct f as [|f]; [lia|].
    apply parse_elements_last. apply Hparse; [done|lia].
  - destruct (read_back_text e He) as (_ & _ & Hparse).
    cbn [map] in *. rewrite join_more in *.
    rewrite !string_length_app in Hlen. cbn [String.length] in Hlen.
    destruct f as [|f]; [lia|].
    rewrite !string_app_assoc.
    change ("," +:+ join "," (element_text e2 :: map element_text es)
            +:+ String "]"%char rest)
      with (String ","%char
              (join "," (element_text e2 :: map element_text es)
               +:+ String "]"%char rest)).
    rewrite (parse_elements_more f _ acc e _
               (Hparse (String ","%char _) f eq_refl ltac:(lia))).
    rewrite (IH e2 (acc ++ [e]) rest f He2) by lia.
    by rewrite <- app_assoc.
Qed.

Lemma member_text_app (kv : string * JsValue) (rest : string) :
  member_text kv +:+ rest
  = quote kv.1 +:+ String ":"%char (element_text kv.2 +:+ rest).
Proof. unfold member_text. by rewrite !string_app_assoc. Qed.

Lemma member_text_length (kv : string * JsValue) :
  (String.length (element_text kv.2) < String.length (member_text kv))%nat.
Proof.
  unfold member_text. rewrite !string_length_app. cbn [String.length]. lia.
Qed.

Lemma parse_members_texts (ps : list (string * JsValue)) :
  Forall (fun kv => read_back kv.2) ps ->
  forall (p : string * JsValue) (acc : list (string * JsValue)) (rest : string)
         (f : nat),
    read_back p.2 ->
    NoDup (Object_keys acc ++ Object_keys (p :: ps)) ->
    (String.length (join "," (map member_text (p :: ps))) < f)%nat ->
    parse_members f
      (join "," (map member_text (p :: ps)) +:+ String "}"%char rest) acc
    = Some (VObj (acc ++ p :: ps), rest).
Proof.
  induction 1 as [|p2 ps Hp2 _ IH]; intros p acc rest f Hp Hnd Hlen.
  - destruct (read_back_text _ Hp) as (_ & _ & Hparse).
    pose proof (member_text_length p) as Hmember.
    cbn [map join] in *. destruct f as [|f]; [lia|].
    rewrite member_text_app.
    rewrite (parse_members_last f _ _ acc p.2 rest
               (Hparse (String "}"%char _) f eq_refl ltac:(lia))).
    rewrite obj_set_fresh; [by destruct p|].
    apply NoDup_app in Hnd as (_ & Hdisj & _).
    intros Hin. apply (Hdisj _ Hin). left.
  - destruct (read_back_text _ Hp) as (_ & _ & Hparse).
    pose proof (member_text_length p) as Hmember.
    cbn [map] in *. rewrite join_more in *.
    rewrite !string_length_app in Hlen. cbn [String.length] in Hlen.
    destruct f as [|f]; [lia|].
    rewrite !string_app_assoc, member_text_app.
    change ("," +:+ join "," (member_text p2 :: map member_text ps)
            +:+ String "}"%char rest)
      with (String ","%char
              (join "," (member_text p2 :: map member_text ps)
               +:+ String "}"%char rest)).
    rewrite (parse_members_more f _ _ acc p.2 _
               (Hparse (String ","%char _) f eq_refl ltac:(lia))).
    assert (p.1 ∉ Object_keys acc) as Hfresh.
    { apply NoDup_app in Hnd as (_ & Hdisj & _).
      intros Hin. apply (Hdisj _ Hin). left. }
    rewrite (obj_set_fresh _ _ _ Hfresh).
    rewrite (IH p2 (acc ++ [(p.1, p.2)]) rest f Hp2).
    + rewrite <- app_assoc. by destruct p.
    + rewrite Object_keys_app. cbn [Object_keys map fst] in *.
      rewrite <- app_assoc. exact Hnd.
    + lia.
Qed.

Lemma number_start_value (c : ascii) :
  number_start c = true -> value_start c = true.
Proof.
  unfold number_start, value_start. intros H.
  apply orb_true_iff in H as [-> | ->]; by rewrite ?orb_true_r.
Qed.

Lemma parse_number_start (lit : string) (v : JsValue) (r : string) :
  parse_number lit = Some (v, r) ->
  exists c t, lit = String c t /\ number_start c = true.
Proof.
  destruct lit as [|c t]; [done|]. intros H. exists c, t. split; [done|].
  destruct (number_start c) eqn:Hc; [done|]. exfalso.
  rewrite parse_number_stages in H.
  by destruct c as [[] [] [] [] [] [] [] []].
Qed.

Lemma read_back_number (lit : string) (v : JsValue) :
  parse_number lit = Some (v, EmptyString) ->
  exists c t,
    lit = String c t /\ value_start c = true
    /\ forall rest f,
         number_stop rest = true ->
         (String.length (String c t) <= f)%nat ->
         parse_value f (String c t +:+ rest) = Some (v, rest).
Proof.
  intros Hlit. destruct (parse_number_start _ _ _ Hlit) as (c & t & -> & Hc).
  exists c, t. split; [done|]. split; [by apply number_start_value|].
  intros rest f Hstop Hlen. destruct f as [|f]; [simpl in Hlen; lia|].
  rewrite string_app_cons, (parse_value_number _ _ _ Hc), <- string_app_cons.
  by rewrite (parse_number_app _ _ _ _ Hstop Hlit).
Qed.

Lemma omap_member_text (props : list (string * JsValue)) :
  Forall (fun kv => read_back kv.2) props ->
  omap (fun p => (fun s => quote (fst p) +:+ ":" +:+ s) <$> stringify (snd p))
       props
  = map member_text props.
Proof.
  induction 1 as [|kv props Hkv _ IH]; [done|].
  destruct (read_back_text _ Hkv) as (Htext & _).
  cbn [omap list_omap map]. rewrite IH. cbn [fst snd] in *. by rewrite Htext.
Qed.

(** The text [JSON.stringify] makes of a value is read back by
    [JSON.parse] as that value. *)
Lemma json_value_read_back (v : JsValue) : json_value v = true -> read_back v.
Proof.
  induction v as [| |b|n|lit|s|items IH|props IH|async items IH]
    using JsValue_induction; intros Hv; try discriminate.
  - exists "n"%char, "ull". split; [done|]. split; [done|].
    intros rest [|f] _ Hlen; [simpl in Hlen; lia|]. apply parse_value_word.
  - destruct b.
    + exists "t"%char, "rue". split; [done|]. split; [done|].
      intros rest [|f] _ Hlen; [simpl in Hlen; lia|]. apply parse_value_word.
    + exists "f"%char, "alse". split; [done|]. split; [done|].
      intros rest [|f] _ Hlen; [simpl in Hlen; lia|]. apply parse_value_word.
  - destruct (read_back_number _ _ (parse_number_pretty n))
      as (c & t & Htext & Hstart & Hparse).
    exists c, t. split; [|done]. cbn [stringify]. by rewrite Htext.
  - cbn [json_value] in Hv.
    destruct (parse_number lit) as [[[] [|]]|] eqn:Hlit; try discriminate.
    apply String.eqb_eq in Hv as ->.
    destruct (read_back_number _ _ Hlit) as (c & t & Htext & Hstart & Hparse).
    exists c, t. split; [|done]. cbn [stringify]. by rewrite Htext.
  - exists dquote, (escape s +:+ String dquote EmptyString).
    split; [done|]. split; [done|].
    intros rest [|f] _ Hlen; [simpl in Hlen; lia|]. apply parse_value_string.
  - cbn [json_value] in Hv.
    assert (Forall read_back items) as Hitems.
    { induction IH as [|x l Hx _ IHl]; [done|]. cbn [forallb] in Hv.
      apply andb_true_iff in Hv as [Hx' Hl]. constructor; auto. }
    exists "["%char, (join "," (map element_text items) +:+ "]").
    split; [done|]. split; [done|].
    intros rest f _ Hlen.
    rewrite string_app_cons, string_app_assoc.
    change ("]" +:+ rest) with (String "]"%char rest).
    cbn [String.length] in Hlen. rewrite string_length_app in Hlen.
    destruct f as [|f]; [lia|].
    destruct Hitems as [|e es He Hes]; [done|].
    destruct (read_back_text e He) as (_ & (c & t & Hhead & Hstart) & _).
    assert (exists c' t',
              join "," (map element_text (e :: es)) = String c' t'
              /\ value_start c' = true) as (c' & t' & Hjoin & Hstart').
    { destruct es as [|e2 es]; cbn [map]; [by eauto|].
      rewrite join_more, Hhead, string_app_cons. eauto. }
    transitivity
      (parse_elements f
         (join "," (map element_text (e :: es)) +:+ String "]"%char rest) []).
    + rewrite Hjoin, string_app_cons. by apply parse_value_array.
    + apply (parse_elements_texts es Hes e [] rest f He).
      cbn [String.length] in Hlen. lia.
  - cbn [json_value] in Hv. apply andb_true_iff in Hv as [Hnd Hv].
    apply bool_decide_eq_true in Hnd.
    assert (Forall (fun kv => read_back kv.2) props) as Hprops.
    { induction IH as [|x l Hx _ IHl]; [done|]. cbn [forallb] in Hv.
      apply andb_true_iff in Hv as [Hx' Hl]. apply NoDup_cons in Hnd as [_ Hnd].
      constructor; auto. }
    exists "{"%char, (join "," (map member_text props) +:+ "}").
    split. { cbn [stringify]. by rewrite (omap_member_text _ Hprops). }
    split; [done|].
    intros rest f _ Hlen.
    rewrite string_app_cons, string_app_assoc.
    change ("}" +:+ rest) with (String "}"%char rest).
    cbn [String.length] in Hlen. rewrite string_length_app in Hlen.
    destruct f as [|f]; [lia|].
    destruct Hprops as [|p ps Hp Hps]; [done|].
    transitivity
      (parse_members f
         (join "," (map member_text (p :: ps)) +:+ String "}"%char rest) []).
    + assert (exists t', join "," (map member_text (p :: ps)) = String dquote t')
        as (t' & ->).
      { destruct ps as [|p2 ps]; cbn [map]; unfold member_text at 1, quote;
          [|rewrite join_more]; rewrite !string_app_cons; eauto. }
      rewrite string_app_cons. apply parse_value_object.
    + apply (parse_members_texts ps Hps p [] rest f Hp Hnd).
      cbn [String.length] in Hlen. lia.
Qed.

Lemma JSON_parse_stringify (v : JsValue) :
  json_value v = true -> JSON_parse_opt (JSON_stringify v) = Some v.
Proof.
  intros Hv. destruct (json_value_read_back v Hv) as (c & t & Htext & _ & Hparse).
  unfold JSON_stringify, JSON_parse_opt. rewrite Htext.
  change (default "undefined" (Some (String c t))) with (String c t).
  pose proof (Hparse EmptyString (2 * String.length (String c t) + 2)%nat
                eq_refl ltac:(lia)) as H.
  rewrite string_app_nil_r in H. by rewrite H.
Qed.

(** *** Tool calls handed back to the model *)

Lemma opt_or_empty (o : option string) :
  opt_or o EmptyString = default EmptyString o.
Proof. destruct o as [[|c s]|]; reflexivity. Qed.

Lemma arguments_echo (a : JsValue) :
  json_object a = true ->
  default (VObj []) (JSON_parse_opt (arguments_text a)) = a.
Proof.
  destruct a as [| | | | | | |props|]; try discriminate. intros Ha.
  cbn [arguments_text truthy]. by rewrite (JSON_parse_stringify _ Ha).
Qed.

Lemma Anthropic_blocks_calls (blocks : list Anthropic.WireBlock) :
  forall (content : string) (calls : list ToolCallInfo),
    (fold_left Anthropic.on_block blocks (content, calls)).2
    = calls
      ++ map (fun b =>
                {| tc_id := opt_or (Anthropic.b_id b) EmptyString;
                   tc_name := opt_or (Anthropic.b_name b) EmptyString;
                   tc_arguments := arguments_text (Anthropic.b_input b) |})
             (List.filter
                (fun b => String.eqb (Anthropic.b_type b) "tool_use") blocks).
Proof.
  induction blocks as [|b blocks IH]; intros content calls.
  - simpl. by rewrite app_nil_r.
  - cbn [fold_left List.filter]. unfold Anthropic.on_block at 2.
    destruct (String.eqb_spec (Anthropic.b_type b) "text") as [Htext | _].
    + rewrite Htext. cbn [String.eqb Ascii.eqb Bool.eqb andb].
      destruct (truthy_str (Anthropic.b_text b)); by rewrite IH.
    + cbn [andb].
      destruct (String.eqb (Anthropic.b_type b) "tool_use"); rewrite IH;
        [|done]. cbn [map]. by rewrite <- app_assoc.
Qed.

Lemma Anthropic_calls_echo (blocks : list Anthropic.WireBlock) :
  Forall (fun b => Anthropic.b_type b = "tool_use" ->
                   json_object (Anthropic.b_input b) = true) blocks ->
  map (fun tc =>
         VObj [("type", VStr "tool_use");
               ("id", VStr (tc_id tc));
               ("name", VStr (tc_name tc));
               ("input", default (VObj []) (JSON_parse_opt (tc_arguments tc)))])
      (filter_complete
         (map Some
            (map (fun b =>
                    {| tc_id := opt_or (Anthropic.b_id b) EmptyString;
                       tc_name := opt_or (Anthropic.b_name b) EmptyString;
                       tc_arguments := arguments_text (Anthropic.b_input b) |})
                 (List.filter
                    (fun b => String.eqb (Anthropic.b_type b) "tool_use")
                    blocks))))
  = map Anthropic_echo (List.filter Anthropic_dispatched blocks).
Proof.
  induction 1 as [|b blocks Hb _ IH]; [done|].
  cbn [List.filter]. unfold Anthropic_dispatched at 1.
  destruct (String.eqb_spec (Anthropic.b_type b) "tool_use") as [Htype | _];
    [|done].
  cbn [map filter_complete omap list_omap andb]. unfold complete at 1.
  cbn [tc_id tc_name]. rewrite !opt_or_empty.
  assert (forall o, nonempty (default EmptyString o) = truthy_str o) as Htruthy
    by by intros [|].
  rewrite !Htruthy.
  destruct (truthy_str (Anthropic.b_id b) && truthy_str (Anthropic.b_name b));
    [|exact IH].
  cbn [map tc_id tc_name tc_arguments]. unfold filter_complete in IH.
  rewrite IH, (arguments_echo _ (Hb Htype)). done.
Qed.

(** X27. The input of a tool call survives the round trip through the
    arguments text.  The assistant turn the loop pushes for a response of
    Anthropic that was not streamed hands back, after the text, every
    [tool_use] block that has an id and a name, in the order of the
    response, with its id, its name and, when its input is a JSON object,
    that input as it came. *)
Theorem X27_anthropic_input_survives_the_echo
    (blocks : list Anthropic.WireBlock) (parsed : ParsedResponse)
    (evs : list Event) :
  Forall (fun b => Anthropic.b_type b = "tool_use" ->
                   json_object (Anthropic.b_input b) = true) blocks ->
  Anthropic.parseResponse
    (json_response {| Anthropic.w_content := Some blocks |}) false
  = (Ok parsed, evs) ->
  Anthropic.formatAssistantMessage (content parsed)
    (filter_complete (toolCalls parsed))
  = VObj [("role", VStr "assistant");
          ("content",
           VArr ((if nonempty (content parsed)
                  then [VObj [("type", VStr "text");
                              ("text", VStr (content parsed))]]
                  else [])
                 ++ map Anthropic_echo
                      (List.filter Anthropic_dispatched blocks)))].
Proof.
  intros Hblocks Hparse. unfold Anthropic.parseResponse in Hparse.
  cbn [json_response stream_body json Anthropic.w_content] in Hparse.
  pose proof (Anthropic_blocks_calls blocks EmptyString []) as Hcalls.
  destruct (fold_left Anthropic.on_block blocks (EmptyString, []))
    as [text calls].
  cbn [snd app] in Hcalls. inversion Hparse; subst. clear Hparse.
  cbn [content toolCalls]. unfold Anthropic.formatAssistantMessage.
  by rewrite (Anthropic_calls_echo blocks Hblocks).
Qed.

Lemma X27_example_weather :
  Anthropic.formatAssistantMessage "Let me check."
    [ {| tc_id := "toolu_1"; tc_name := "get_weather";
         tc_arguments :=
           JSON_stringify (VObj [("city", VStr "Paris"); ("days", VNum 3)]) |} ]
  = VObj [("role", VStr "assistant");
          ("content",
           VArr [VObj [("type", VStr "text"); ("text", VStr "Let me check.")];
                 VObj [("type", VStr "tool_use"); ("id", VStr "toolu_1");
                       ("name", VStr "get_weather");
                       ("input",
                        VObj [("city", VStr "Paris"); ("days", VNum 3)])]])].
Proof.
  assert (Forall (fun b => Anthropic.b_type b = "tool_use" ->
                           json_object (Anthropic.b_input b) = true)
            weather_blocks) as Hblocks.
  { constructor; [intros H; discriminate H|].
    constructor; [intros _; by vm_compute|]. constructor. }
  exact (X27_anthropic_input_survives_the_echo weather_blocks _ _ Hblocks
           eq_refl).
Defined.

Lemma filter_complete_app (a b : list ToolCallInfo) :
  filter_complete (map Some (a ++ b))
  = filter_complete (map Some a) ++ filter_complete (map Some b).
Proof. unfold filter_complete. by rewrite map_app, omap_app. Qed.

Lemma Ollama_calls_echo (wtcs : list Ollama.WireToolCall) :
  Forall (fun tc => Ollama_named tc = true ->
                    json_object (Ollama_arguments tc) = true) wtcs ->
  forall calls : list ToolCallInfo,
    map (fun tc =>
           VObj [("function",
                  VObj [("name", VStr (tc_name tc));
                        ("arguments",
                         default (VObj []) (JSON_parse_opt (tc_arguments tc)))])])
        (filter_complete (map Some (fold_left Ollama.push_call wtcs calls)))
    = map (fun tc =>
             VObj [("function",
                    VObj [("name", VStr (tc_name tc));
                          ("arguments",
                           default (VObj [])
                             (JSON_parse_opt (tc_arguments tc)))])])
          (filter_complete (map Some calls))
      ++ map Ollama_echo (List.filter Ollama_named wtcs).
Proof.
  induction 1 as [|w wtcs Hw _ IH]; intros calls.
  - simpl. by rewrite app_nil_r.
  - cbn [fold_left List.filter]. rewrite IH. unfold Ollama.push_call at 1.
    rewrite filter_complete_app, map_app, <- app_assoc. f_equal.
    cbn [map filter_complete omap list_omap]. unfold complete at 1.
    cbn [tc_id tc_name]. rewrite opt_or_empty.
    change (nonempty ("ollama_" +:+ pretty (length calls))) with true.
    cbn [andb]. unfold Ollama_named in *.
    assert (forall o, nonempty (default EmptyString o) = truthy_str o) as ->
      by by intros [|].
    destruct (truthy_str (Ollama.w_function w ≫= Ollama.f_name)); [|done].
    cbn [map app tc_name tc_arguments].
    fold (Ollama_arguments w). by rewrite (arguments_echo _ (Hw eq_refl)).
Qed.

(** X28. The assistant turn the loop pushes for a response of Ollama that
    was not streamed hands back every tool call that has a name, in the
    order of the response, with its name and, when its arguments are a
    JSON object, those arguments as they came; when no call has a name
    [tool_calls] is [undefined]. *)
Theorem X28_ollama_arguments_survive_the_echo (text : option string)
    (wtcs : list Ollama.WireToolCall) (parsed : ParsedResponse)
    (evs : list Event) :
  Forall (fun tc => Ollama_named tc = true ->
                    json_object (Ollama_arguments tc) = true) wtcs ->
  Ollama.parseResponse
    (json_response
       {| Ollama.r_message :=
            Some {| Ollama.m_content := text;
                    Ollama.m_tool_calls := Some wtcs |} |}) false
  = (Ok parsed, evs) ->
  Ollama.formatAssistantMessage (content parsed)
    (filter_complete (toolCalls parsed))
  = VObj [("role", VStr "assistant");
          ("content", VStr (content parsed));
          ("tool_calls",
           match List.filter Ollama_named wtcs with
           | [] => VUndef
           | named => VArr (map Ollama_echo named)
           end)].
Proof.
  intros Hcalls Hparse. unfold Ollama.parseResponse in Hparse.
  cbn [json_response stream_body json Ollama.r_message Ollama.m_content
         Ollama.m_tool_calls default] in Hparse.
  inversion Hparse; subst. clear Hparse. cbn [content toolCalls].
  pose proof (Ollama_calls_echo wtcs Hcalls []) as Hecho.
  cbn [map filter_complete omap list_omap app] in Hecho.
  unfold Ollama.formatAssistantMessage.
  assert (str_or (opt_or text EmptyString) EmptyString = opt_or text EmptyString)
    as -> by by destruct text as [[|c s]|].
  destruct (filter_complete (map Some (fold_left Ollama.push_call wtcs [])))
    as [|tc calls] eqn:Hdispatched;
    destruct (List.filter Ollama_named wtcs) as [|w named] eqn:Hnamed;
    try discriminate; [done|].
  by rewrite Hecho.
Qed.

Lemma X28_example_weather :
  Ollama.formatAssistantMessage EmptyString
    [ {| tc_id := "ollama_0"; tc_name := "get_weather";
         tc_arguments :=
           JSON_stringify (VObj [("city", VStr "Paris"); ("days", VNum 3)]) |} ]
  = VObj [("role", VStr "assistant");
          ("content", VStr EmptyString);
          ("tool_calls",
           VArr [VObj [("function",
                       VObj [("name", VStr "get_weather");
                             ("arguments",
                              VObj [("city", VStr "Paris");
                                    ("days", VNum 3)])])]])].
Proof.
  assert (Forall (fun tc => Ollama_named tc = true ->
                            json_object (Ollama_arguments tc) = true)
            weather_calls) as Hcalls.
  { constructor; [intros _; by vm_compute|]. constructor. }
  exact (X28_ollama_arguments_survive_the_echo None weather_calls _ _ Hcalls
           eq_refl).
Defined.

(** ** A final answer under a flat schema *)

Section StructuredAnswer.

Context {W : Type}.
Variable E : Engine.
Variable provider : ProviderAdapter.
Variable tools : list (ToolFunction W).
Variable config : Config.
Variable returnStore : option (W -> JsValue).


End StructuredAnswer.


(** ** The tools of a template *)

Module PromptFacts.
Import Prompt.

Lemma tool_direct (fn : Tool.JsFunction) (c : nat) :
  Tool.fn_tool fn = None ->
  exists wrapped meta,
    Tool.tool (Tool.Direct fn) None None c
    = Ok (wrapped, if nonempty (Tool.fn_name fn) then c else S c)
    /\ Tool.fn_tool wrapped = Some meta
    /\ name meta = (if nonempty (Tool.fn_name fn) then Tool.fn_name fn
                    else "tool_" +:+ pretty (S c)).
Proof.
  intros Hplain. unfold Tool.tool, Tool.toolImpl. rewrite Hplain.
  cbn [truthy_str]. destruct (nonempty (Tool.fn_name fn)); eauto.
Qed.

Lemma anonymous_at_insert (fs : list Tool.JsFunction) (l x : nat)
    (wrapped : Tool.JsFunction) (meta : ToolMetadata) :
  (l < length fs)%nat -> Tool.fn_tool wrapped = Some meta ->
  anonymous_at (<[l := wrapped]> fs) x
  = if decide (x = l) then false else anonymous_at fs x.
Proof.
  intros Hl Hw. unfold anonymous_at. destruct (decide (x = l)) as [-> | Hne].
  - rewrite list_lookup_insert_eq by done. by rewrite Hw, andb_false_r.
  - by rewrite list_lookup_insert_ne.
Qed.

Lemma tool_name_at_tool (fs : list Tool.JsFunction) (l : nat)
    (fn : Tool.JsFunction) (meta : ToolMetadata) :
  fs !! l = Some fn -> Tool.fn_tool fn = Some meta ->
  tool_name_at fs l = Some (name meta).
Proof. intros Hl Hfn. unfold tool_name_at. rewrite Hl. simpl. by rewrite Hfn. Qed.

(** What the loop does from index [i] on, in a state in which the
    functions at the places [seen], and no others, have been given a name
    of their own. *)
Lemma collect_from_facts (E : Engine) (strings : list string)
    (fs0 : list Tool.JsFunction) (values : list Value) :
  forall (i : nat) (seen : list nat) (st : State),
    (forall l, anonymous_at (functions st) l
               = anonymous_at fs0 l && negb (bool_decide (l ∈ seen))) ->
    Forall (fun l => (l < length (functions st))%nat) (function_places values) ->
    (i + length values < length strings)%nat ->
    exists st1,
      collect_from E strings i values st = Ok st1
      /\ tools st1 = tools st ++ function_places values
      /\ length (functions st1) = length (functions st)
      /\ (forall l fn meta,
            functions st !! l = Some fn -> Tool.fn_tool fn = Some meta ->
            functions st1 !! l = Some fn)
      /\ (forall l, l ∈ function_places values ->
                    is_Some (tool_name_at (functions st1) l))
      /\ (forall l fn,
            l ∈ function_places values ->
            functions st !! l = Some fn -> Tool.fn_tool fn = None ->
            nonempty (Tool.fn_name fn) = true ->
            tool_name_at (functions st1) l = Some (Tool.fn_name fn))
      /\ anonymousCounter st1
         = (anonymousCounter st
            + length (fresh_anonymous fs0 seen (function_places values)))%nat
      /\ length (warnings st1)
         = (length (warnings st)
            + length (fresh_anonymous fs0 seen (function_places values)))%nat
      /\ (forall k l,
            fresh_anonymous fs0 seen (function_places values) !! k = Some l ->
            tool_name_at (functions st1) l
            = Some ("tool_" +:+ pretty (anonymousCounter st + k + 1)%nat)).
Proof.
  induction values as [|value values IH]; intros i seen st Hinv Hplaces Hlen.
  - exists st. simpl. rewrite app_nil_r, !Nat.add_0_r.
    repeat split; try done.
    + intros l Hl. by apply elem_of_nil in Hl.
    + intros l fn Hl. by apply elem_of_nil in Hl.
  - cbn [length] in Hlen.
    assert (forall st' seen',
              step E strings st i value = Ok st' ->
              (forall l, anonymous_at (functions st') l
                         = anonymous_at fs0 l && negb (bool_decide (l ∈ seen'))) ->
              length (functions st') = length (functions st) ->
              exists st1,
                collect_from E strings i (value :: values) st = Ok st1
                /\ collect_from E strings (S i) values st' = Ok st1
                /\ tools st1 = tools st' ++ function_places values
                /\ length (functions st1) = length (functions st')
                /\ (forall l fn meta,
                      functions st' !! l = Some fn ->
                      Tool.fn_tool fn = Some meta ->
                      functions st1 !! l = Some fn)
                /\ (forall l, l ∈ function_places values ->
                              is_Some (tool_name_at (functions st1) l))
                /\ (forall l fn,
                      l ∈ function_places values ->
                      functions st' !! l = Some fn -> Tool.fn_tool fn = None ->
                      nonempty (Tool.fn_name fn) = true ->
                      tool_name_at (functions st1) l = Some (Tool.fn_name fn))
                /\ anonymousCounter st1
                   = (anonymousCounter st'
                      + length (fresh_anonymous fs0 seen'
                                  (function_places values)))%nat
                /\ length (warnings st1)
                   = (length (warnings st')
                      + length (fresh_anonymous fs0 seen'
                                  (function_places values)))%nat
                /\ (forall k l,
                      fresh_anonymous fs0 seen' (function_places values) !! k
                      = Some l ->
                      tool_name_at (functions st1) l
                      = Some ("tool_"
                              +:+ pretty (anonymousCounter st' + k + 1)%nat)))
      as Hnext.
    { intros st' seen' Hstep Hinv' Hsame.
      destruct (IH (S i) seen' st' Hinv') as (st1 & Hrun & Hfacts).
      - rewrite Hsame. destruct value as [|l|]; [done| |done].
        cbn [function_places omap list_omap] in Hplaces.
        by apply Forall_cons in Hplaces as [_ Hplaces].
      - lia.
      - exists st1. split; [|split; [done|exact Hfacts]].
        cbn [collect_from]. rewrite Hstep. exact Hrun. }
    destruct value as [|l|].
    + (* the return sentinel *)
      opose proof* (Hnext _ seen) as (st1 & Hrun & _ & Htools & Hsize & Hkept
                                      & Hall & Hnamed & Hcount & Hwarn & Hnames);
        [reflexivity|exact Hinv|reflexivity|].
      exists st1. cbn [function_places omap list_omap] in *.
      split; [done|]. split; [done|]. split; [done|]. split; [done|].
      split; [done|]. split; [done|]. split; [done|]. split; done.
    + (* a function *)
      cbn [function_places omap list_omap] in Hplaces |- *.
      fold (function_places values) in Hplaces |- *.
      apply Forall_cons in Hplaces as [Hl Hplaces].
      destruct (lookup_lt_is_Some_2 _ _ Hl) as [fn Hfn].
      destruct (Tool.fn_tool fn) as [meta|] eqn:Hmeta.
      * (* already a tool *)
        assert (anonymous_at (functions st) l = false) as Hanon.
        { unfold anonymous_at. by rewrite Hfn, Hmeta, andb_false_r. }
        opose proof* (Hnext _ seen) as (st1 & Hrun & _ & Htools & Hsize & Hkept
                                        & Hall & Hnamed & Hcount & Hwarn
                                        & Hnames).
        { cbn [step]. by rewrite Hfn, Hmeta. }
        { exact Hinv. }
        { done. }
        cbn [functions anonymousCounter tools warnings] in *.
        exists st1. cbn [fresh_anonymous]. rewrite <- Hinv, Hanon.
        split; [done|]. split; [by rewrite Htools, <- app_assoc|].
        split; [done|]. split; [done|]. split.
        { intros x Hx. apply elem_of_cons in Hx as [-> | Hx]; [|by apply Hall].
          rewrite (tool_name_at_tool _ _ _ _ (Hkept _ _ _ Hfn Hmeta) Hmeta).
          eauto. }
        split; [|done].
        intros x fx Hx Hfx Hplain Hname.
        apply elem_of_cons in Hx as [-> | Hx]; [congruence|by apply Hnamed].
      * destruct (tool_direct fn (anonymousCounter st) Hmeta)
          as (wrapped & meta & Htool & Hwrapped & Hname).
        destruct (nonempty (Tool.fn_name fn)) eqn:Hnamed_fn.
        -- (* a function with a name *)
           assert (anonymous_at (functions st) l = false) as Hanon.
           { unfold anonymous_at. by rewrite Hfn, Hnamed_fn. }
           opose proof* (Hnext _ seen) as (st1 & Hrun & _ & Htools & Hsize
                                           & Hkept & Hall & Hnamed & Hcount
                                           & Hwarn & Hnames).
           { cbn [step]. rewrite Hfn, Hmeta, Hnamed_fn. cbn [negb].
             unfold wrap. rewrite Htool. reflexivity. }
           { intros x. cbn [functions].
             rewrite (anonymous_at_insert _ _ _ _ _ Hl Hwrapped).
             destruct (decide (x = l)) as [-> | _]; [|apply Hinv].
             by rewrite <- Hinv, Hanon. }
           { cbn [functions]. by rewrite length_insert. }
           cbn [functions anonymousCounter tools warnings] in *.
           rewrite length_insert in Hsize.
           assert (functions st1 !! l = Some wrapped) as Hl1.
           { apply (Hkept _ _ meta); [|done].
             by rewrite list_lookup_insert_eq. }
           exists st1. cbn [fresh_anonymous]. rewrite <- Hinv, Hanon.
           rewrite length_app in Hwarn. cbn [length] in Hwarn.
           split; [done|]. split; [by rewrite Htools, <- app_assoc|].
           split; [done|]. split.
           { intros x fx mx Hx Hmx.
             destruct (decide (x = l)) as [-> | Hne]; [congruence|].
             apply (Hkept _ _ mx); [|done]. by rewrite list_lookup_insert_ne. }
           split.
           { intros x Hx. apply elem_of_cons in Hx as [-> | Hx]; [|by apply Hall].
             rewrite (tool_name_at_tool _ _ _ _ Hl1 Hwrapped). eauto. }
           split; [|split; [done|split; [lia|done]]].
           intros x fx Hx Hfx Hplain Hnonempty.
           destruct (decide (x = l)) as [-> | Hne].
           ++ rewrite (tool_name_at_tool _ _ _ _ Hl1 Hwrapped), Hname.
              congruence.
           ++ apply elem_of_cons in Hx as [-> | Hx]; [done|].
              apply Hnamed; try done. by rewrite list_lookup_insert_ne.
        -- (* a function without a name *)
           assert (anonymous_at (functions st) l = true) as Hanon.
           { unfold anonymous_at. by rewrite Hfn, Hnamed_fn, Hmeta. }
           pose proof Hanon as Hfresh. rewrite Hinv in Hfresh.
           apply andb_true_iff in Hfresh as [Hanon0 Hunseen].
           destruct (lookup_lt_is_Some_2 strings i ltac:(lia)) as [s Hs].
           opose proof* (Hnext _ (l :: seen)) as (st1 & Hrun & _ & Htools
                                                  & Hsize & Hkept & Hall
                                                  & Hnamed & Hcount & Hwarn
                                                  & Hnames).
           { cbn [step]. rewrite Hfn, Hmeta, Hnamed_fn, Hs. cbn [negb].
             unfold wrap. rewrite Htool. reflexivity. }
           { intros x. cbn [functions].
             rewrite (anonymous_at_insert _ _ _ _ _ Hl Hwrapped).
             destruct (decide (x = l)) as [-> | Hne].
             - rewrite bool_decide_true by by left. by rewrite andb_false_r.
             - rewrite Hinv. do 2 f_equal. apply bool_decide_ext.
               rewrite elem_of_cons. split; [by right|by intros [Heq | Hin]]. }
           { cbn [functions]. by rewrite length_insert. }
           cbn [functions anonymousCounter tools warnings] in *.
           rewrite length_insert in Hsize.
           assert (functions st1 !! l = Some wrapped) as Hl1.
           { apply (Hkept _ _ meta); [|done].
             by rewrite list_lookup_insert_eq. }
           exists st1. cbn [fresh_anonymous]. rewrite Hanon0, Hunseen.
           cbn [andb length].
           rewrite length_app in Hwarn. cbn [length] in Hwarn.
           split; [done|]. split; [by rewrite Htools, <- app_assoc|].
           split; [done|]. split.
           { intros x fx mx Hx Hmx.
             destruct (decide (x = l)) as [-> | Hne]; [congruence|].
             apply (Hkept _ _ mx); [|done]. by rewrite list_lookup_insert_ne. }
           split.
           { intros x Hx. apply elem_of_cons in Hx as [-> | Hx]; [|by apply Hall].
             rewrite (tool_name_at_tool _ _ _ _ Hl1 Hwrapped). eauto. }
           split.
           { intros x fx Hx Hfx Hplain Hnonempty.
             destruct (decide (x = l)) as [-> | Hne]; [congruence|].
             apply elem_of_cons in Hx as [-> | Hx]; [done|].
             apply Hnamed; try done. by rewrite list_lookup_insert_ne. }
           split; [lia|]. split; [lia|].
           intros [|k] x Hk.
           ++ injection Hk as <-.
              rewrite (tool_name_at_tool _ _ _ _ Hl1 Hwrapped), Hname.
              do 3 f_equal. lia.
           ++ rewrite (Hnames k x Hk). do 3 f_equal. lia.
    + (* any other value *)
      opose proof* (Hnext _ seen) as (st1 & Hrun & _ & Htools & Hsize & Hkept
                                      & Hall & Hnamed & Hcount & Hwarn & Hnames);
        [reflexivity|exact Hinv|reflexivity|].
      exists st1. cbn [function_places omap list_omap] in *.
      split; [done|]. split; [done|]. split; [done|]. split; [done|].
      split; [done|]. split; [done|]. split; [done|]. split; done.
Qed.

End PromptFacts.

(** X30. Every function of a template becomes a tool.  After the loop of
    [prompt], for a template with one string more than it has values:
    [tools] holds the functions of the template in their order, a function
    that stands twice standing twice; each of them carries tool metadata,
    a function that was a tool being left as it was and a function with a
    name keeping that name; and the functions without a name are named
    [tool_N] with the numbers that follow the counter, in the order in
    which they are first met, with one warning and one step of the counter
    for each. *)
Theorem X30_functions_of_a_template_become_tools (E : Engine)
    (strings : list string) (values : list Prompt.Value)
    (fs : list Tool.JsFunction) (counter : nat) :
  length strings = S (length values) ->
  Forall (fun l => (l < length fs)%nat) (function_places values) ->
  let anonymous := fresh_anonymous fs [] (function_places values) in
  exists st,
    Prompt.collect E strings values fs counter = Ok st
    /\ Prompt.tools st = function_places values
    /\ (forall l, l ∈ function_places values ->
                  is_Some (tool_name_at (Prompt.functions st) l))
    /\ (forall l fn meta,
          fs !! l = Some fn -> Tool.fn_tool fn = Some meta ->
          Prompt.functions st !! l = Some fn)
    /\ (forall l fn,
          l ∈ function_places values ->
          fs !! l = Some fn -> Tool.fn_tool fn = None ->
          nonempty (Tool.fn_name fn) = true ->
          tool_name_at (Prompt.functions st) l = Some (Tool.fn_name fn))
    /\ (forall k l,
          anonymous !! k = Some l ->
          tool_name_at (Prompt.functions st) l
          = Some ("tool_" +:+ pretty (counter + k + 1)%nat))
    /\ Prompt.anonymousCounter st = (counter + length anonymous)%nat
    /\ length (Prompt.warnings st) = length anonymous.
Proof.
  intros Hlen Hplaces anonymous.
  destruct (PromptFacts.collect_from_facts E strings fs values 0 []
              {| Prompt.functions := fs; Prompt.anonymousCounter := counter;
                 Prompt.tools := []; Prompt.returnIndices := [];
                 Prompt.warnings := [] |})
    as (st & Hrun & Htools & _ & Hkept & Hall & Hnamed & Hcount & Hwarn & Hnames).
  - intros l. cbn [Prompt.functions]. by rewrite andb_true_r.
  - exact Hplaces.
  - lia.
  - exists st. cbn [Prompt.functions Prompt.anonymousCounter Prompt.tools
                      Prompt.warnings app length] in *.
    split; [exact Hrun|]. split; [exact Htools|]. split; [exact Hall|].
    split; [exact Hkept|]. split; [exact Hnamed|]. split; [exact Hnames|].
    split; [exact Hcount|exact Hwarn].
Qed.

Lemma X30_example_two_arrows :
  exists st,
    Prompt.collect sample_engine ["Use "; " and "; " and "; " or "; "."]
      [Prompt.Function 0; Prompt.Function 1; Prompt.Function 0;
       Prompt.Function 2] sample_functions 4
    = Ok st
    /\ Prompt.tools st = [0; 1; 0; 2]%nat
    /\ tool_name_at (Prompt.functions st) 0 = Some "tool_5"
    /\ tool_name_at (Prompt.functions st) 1 = Some "greet"
    /\ tool_name_at (Prompt.functions st) 2 = Some "tool_6"
    /\ length (Prompt.warnings st) = 2%nat.
Proof.
  assert (Forall (fun l => (l < length sample_functions)%nat)
            (function_places
               [Prompt.Function 0; Prompt.Function 1; Prompt.Function 0;
                Prompt.Function 2])) as Hplaces.
  { repeat constructor. }
  destruct (X30_functions_of_a_template_become_tools sample_engine
              ["Use "; " and "; " and "; " or "; "."]
              [Prompt.Function 0; Prompt.Function 1; Prompt.Function 0;
               Prompt.Function 2] sample_functions 4 eq_refl Hplaces)
    as (st & Hrun & Htools & _ & _ & Hnamed & Hnames & _ & Hwarn).
  exists st. split; [exact Hrun|]. split; [exact Htools|].
  split; [exact (Hnames 0%nat 0%nat eq_refl)|].
  split; [|split; [exact (Hnames 1%nat 2%nat eq_refl)|exact Hwarn]].
  apply (Hnamed 1%nat _ ltac:(by right; left) eq_refl eq_refl eq_refl).
Defined.
